(** * Task processing system: dispatch and execution engine

    A shallow embedding of [app/models.py], [app/config.py],
    [app/worker.py], the endpoints of [app/main.py] and the batching loop
    of [tests/performance_test.py], followed by the properties of the
    design document that are checked against it.

    Conventions of the embedding.
    - The task table is a finite map from primary key to row; the [id]
      column of a row is its key in that map.
    - A [Text] column holding JSON is kept through [json.loads]: the parsed
      value, or the decode error for text that is not JSON.
    - Time is in milliseconds; [datetime.utcnow()] reads the clock of the
      world and [asyncio.sleep] moves it.
    - A coroutine is a state machine whose states are its suspension
      points ([await]); what runs between two suspension points is one
      atomic step, as under the asyncio event loop.
    - A call is followed in three ways: alone ([run], [process_task]), as
      one of several workers under a schedule ([run_schedule]), and resumed
      in arbitrary worlds ([resume_at]), which covers whatever else may run
      between two of its steps. *)

From Stdlib Require Import ZArith Lia.
From stdpp Require Import gmap strings list fin_maps pretty sorting.

Open Scope Z_scope.

(** ** app/models.py *)

Inductive TaskStatus := PENDING | PROCESSING | COMPLETED | FAILED | RETRYING.

#[global] Instance TaskStatus_eq_dec : EqDecision TaskStatus.
Proof. solve_decision. Defined.

(** JSON values as Python sees them after [json.loads]. Numbers are
    integers; a dict is its list of items. *)
#[warnings="-register-all"]
Inductive json :=
| JNull
| JBool (b : bool)
| JInt (n : Z)
| JStr (s : string)
| JList (l : list json)
| JDict (items : list (string * json)).

(** The content of a [Text] column meant to hold JSON. *)
Inductive json_text :=
| Json (v : json)
| NotJson (decode_error : string).

Module Task.
Record t := mk {
  task_type : string;
  payload : json_text;
  status : TaskStatus;
  result : option json;
  error_message : option string;
  retry_count : Z;
  created_at : Z;
  updated_at : Z;
  completed_at : option Z
}.

(** The columns the engine assigns to. *)
Inductive column :=
| c_status | c_result | c_error_message | c_retry_count
| c_updated_at | c_completed_at.

Definition set_status (s : TaskStatus) (x : t) : t :=
  mk (task_type x) (payload x) s (result x) (error_message x)
     (retry_count x) (created_at x) (updated_at x) (completed_at x).
Definition set_result (r : option json) (x : t) : t :=
  mk (task_type x) (payload x) (status x) r (error_message x)
     (retry_count x) (created_at x) (updated_at x) (completed_at x).
Definition set_error_message (e : option string) (x : t) : t :=
  mk (task_type x) (payload x) (status x) (result x) e
     (retry_count x) (created_at x) (updated_at x) (completed_at x).
Definition set_retry_count (n : Z) (x : t) : t :=
  mk (task_type x) (payload x) (status x) (result x) (error_message x)
     n (created_at x) (updated_at x) (completed_at x).
Definition set_updated_at (u : Z) (x : t) : t :=
  mk (task_type x) (payload x) (status x) (result x) (error_message x)
     (retry_count x) (created_at x) u (completed_at x).
Definition set_completed_at (c : option Z) (x : t) : t :=
  mk (task_type x) (payload x) (status x) (result x) (error_message x)
     (retry_count x) (created_at x) (updated_at x) c.

(** [UPDATE tasks SET c = <value of c in src>] applied to the row [dst]. *)
Definition write_column (src : t) (c : column) (dst : t) : t :=
  match c with
  | c_status => set_status (status src) dst
  | c_result => set_result (result src) dst
  | c_error_message => set_error_message (error_message src) dst
  | c_retry_count => set_retry_count (retry_count src) dst
  | c_updated_at => set_updated_at (updated_at src) dst
  | c_completed_at => set_completed_at (completed_at src) dst
  end.

(** A row as [submit_task] creates it: the column defaults of the model
    and status PENDING. *)
Definition new (task_type : string) (payload : json_text) (now : Z) : t :=
  mk task_type payload PENDING None None 0 now now None.
End Task.

(** ** app/config.py *)

Record Settings := {
  WORKER_POOL_SIZE : Z;
  MAX_RETRIES : Z;
  RETRY_DELAY : Z   (* seconds *)
}.

Definition default_settings : Settings :=
  {| WORKER_POOL_SIZE := 10; MAX_RETRIES := 3; RETRY_DELAY := 5 |}.

(** ** The world the engine runs in *)

(** Modelled from the spec: [app.database] (the session maker and the
    tables behind it) is not part of the sources. Following the Task Store
    of the design document, a session reads the committed rows, keeps the
    loaded task as an in-flight copy that the worker mutates, and a commit
    writes the assigned columns of that copy back to the row. The store
    assigns an unused identifier to a task on creation ([fresh_id]). *)
Record World := {
  store : gmap Z Task.t;      (* the committed rows of table [tasks] *)
  task_queue : list Z;        (* [WorkerPool.task_queue], head = next out *)
  clock : Z                   (* milliseconds *)
}.

Definition with_store (s : gmap Z Task.t) (w : World) : World :=
  {| store := s; task_queue := task_queue w; clock := clock w |}.
Definition with_queue (q : list Z) (w : World) : World :=
  {| store := store w; task_queue := q; clock := clock w |}.

(** What an observer of the store and of the queue sees. *)
Inductive Event :=
| Persisted (task_id : Z) (row : Task.t)   (* a commit wrote this row *)
| Enqueued (task_id : Z)                   (* [task_queue.put] *)
| Slept (ms : Z).                          (* [asyncio.sleep] *)

(** [await asyncio.sleep(ms / 1000)] *)
Definition sleep (ms : Z) (w : World) : World :=
  {| store := store w; task_queue := task_queue w;
     clock := clock w + ms |}.

(** [await self.task_queue.put(task_id)]: the queue is unbounded, so the
    put never suspends. *)
Definition put (task_id : Z) (w : World) : World :=
  with_queue (task_queue w ++ [task_id]) w.

(** The [UPDATE] a flush emits: the assigned columns of the in-flight
    [task] overwrite those of the stored row. *)
Definition flush (cols : list Task.column) (task row : Task.t) : Task.t :=
  foldr (Task.write_column task) row cols.

(** [await session.commit()] with [cols] assigned since the last commit.
    [None] when the row is gone: the update matches no row and the commit
    raises; every later commit of the same call would raise as well, so
    the exception leaves [process_task] with nothing written. *)
Definition commit (cols : list Task.column) (task_id : Z) (task : Task.t)
    (w : World) : option (Task.t * World) :=
  match store w !! task_id with
  | None => None
  | Some row =>
      let row' := flush cols task row in
      Some (row', with_store (<[task_id := row']> (store w)) w)
  end.

(** ** app/worker.py: execute_task *)

(** A Python call either returns or raises; [Raise] carries [str(e)]. *)
Inductive outcome (A : Type) :=
| Return (a : A)
| Raise (msg : string).
Arguments Return {A} a.
Arguments Raise {A} msg.

Definition json_loads (text : json_text) : outcome json :=
  match text with
  | Json v => Return v
  | NotJson e => Raise e
  end.

Definition py_type_name (v : json) : string :=
  match v with
  | JNull => "NoneType"
  | JBool _ => "bool"
  | JInt _ => "int"
  | JStr _ => "str"
  | JList _ => "list"
  | JDict _ => "dict"
  end.

Fixpoint dict_get (key : string) (items : list (string * json)) (default : json) : json :=
  match items with
  | [] => default
  | (k, v) :: rest => if String.eqb k key then v else dict_get key rest default
  end.

(** [payload.get(key, default)]: only a dict has [get]. *)
Definition payload_get (payload : json) (key : string) (default : json) : outcome json :=
  match payload with
  | JDict items => Return (dict_get key items default)
  | _ => Raise ("'" +:+ py_type_name payload +:+ "' object has no attribute 'get'")
  end.

(** The simulated latency of each handler (lines 134, 138, 142, 147). *)
Definition handler_delay (task_type : string) : Z :=
  if String.eqb task_type "report_generation" then 500 else 100.

(** What [execute_task] computes once its sleep is over. *)
Definition handler_result (task_id : Z) (task : Task.t) (payload : json) : outcome json :=
  if String.eqb (Task.task_type task) "email" then
    match payload_get payload "email" JNull with
    | Return to => Return (JDict [("status", JStr "email_sent"); ("to", to)])
    | Raise e => Raise e
    end
  else if String.eqb (Task.task_type task) "data_processing" then
    match payload_get payload "count" (JInt 100) with
    | Return n => Return (JDict [("status", JStr "processed"); ("records", n)])
    | Raise e => Raise e
    end
  else if String.eqb (Task.task_type task) "report_generation" then
    Return (JDict [("status", JStr "generated");
                   ("report_id", JStr ("RPT-" +:+ pretty task_id))])
  else
    Return (JDict [("status", JStr "completed"); ("data", payload)]).

(** [execute_task] as a whole, leaving its sleep aside. *)
Definition execute_task (task_id : Z) (task : Task.t) : outcome json :=
  match json_loads (Task.payload task) with
  | Return payload => handler_result task_id task payload
  | Raise e => Raise e
  end.

(** ** app/worker.py: process_task and handle_task_failure *)

(** An exception that does not come from the handler. The model injects
    one at the places where the source alone fixes what follows, the load
    and the log writes of the call:
    - [DuringLoad]: the query of line 97 raises, so [task] is never bound;
    - [AfterClaim]: a call between the commit of line 108 and the handler
      raises (the log write of line 110);
    - [AfterCompletion]: a call after the commit of line 120 raises (the
      log write of line 122);
    - [InFailureHandler]: the log write of [handle_task_failure] raises
      (line 159 or line 173, whichever branch is taken);
    - [AfterClaimAndInFailureHandler], [AfterCompletionAndInFailureHandler]:
      the log write of line 110, respectively of line 122, raises, and so
      does the one of [handle_task_failure] that follows.
    What a session still holds after a commit of its own has failed is not
    decided by these sources, so no fault is injected into a commit. The
    log write of the worker loop (line 90) comes after the call and is not
    part of it. *)
Inductive Fault :=
| DuringLoad (msg : string)
| AfterClaim (msg : string)
| AfterCompletion (msg : string)
| InFailureHandler (msg : string)
| AfterClaimAndInFailureHandler (msg : string)
| AfterCompletionAndInFailureHandler (msg : string).

(** The suspension points of one call of [process_task], with the
    in-flight task where one is bound. *)
Inductive Coro :=
| AwaitLoad (task_id : Z)                                    (* line 97 *)
| AwaitClaimCommit (task_id : Z) (task : Task.t)             (* line 108 *)
| AwaitHandler (task_id : Z) (task : Task.t) (payload : json) (* the sleep of execute_task *)
| AwaitCompletedCommit (task_id : Z) (task : Task.t)         (* line 120 *)
| AwaitRetryingCommit (task_id : Z) (task : Task.t)          (* line 161 *)
| AwaitRetryDelay (task_id : Z) (task : Task.t)              (* line 164 *)
| AwaitPendingCommit (task_id : Z) (task : Task.t)           (* line 169 *)
| AwaitFailedCommit (task_id : Z) (task : Task.t)            (* line 174 *)
| Returned                                                   (* the call returned *)
| Raised.                      (* an exception left the call; the worker loop logs it *)

Section Engine.
Context (settings : Settings).

(** Lines 152-158 and 172: [handle_task_failure] up to its first commit. *)
Definition handle_task_failure (w : World) (task_id : Z) (task : Task.t)
    (error : string) : Coro :=
  let task := Task.set_retry_count (Task.retry_count task + 1) task in
  let task := Task.set_error_message (Some error) task in
  let task := Task.set_updated_at (clock w) task in
  if Task.retry_count task <? MAX_RETRIES settings
  then AwaitRetryingCommit task_id (Task.set_status RETRYING task)
  else AwaitFailedCommit task_id (Task.set_status FAILED task).

(** Lines 116-119: the assignments of the success path. *)
Definition mark_completed (w : World) (task : Task.t) (result : json) : Task.t :=
  Task.set_updated_at (clock w)
    (Task.set_completed_at (Some (clock w))
      (Task.set_result (Some result)
        (Task.set_status COMPLETED task))).

(** Whether the log write of [handle_task_failure] raises. *)
Definition failure_log_raises (fault : option Fault) : bool :=
  match fault with
  | Some (InFailureHandler _)
  | Some (AfterClaimAndInFailureHandler _)
  | Some (AfterCompletionAndInFailureHandler _) => true
  | _ => false
  end.

(** Lines 124-126: the [except] clause calls [handle_task_failure]. Its log
    write (line 159 or 173) stands after the assignments and before the
    first commit, with no [await] in between: when it raises, the exception
    leaves [process_task], the session is closed and none of the
    assignments of lines 152-158 and 172 is committed. *)
Definition on_exception (fault : option Fault) (w : World) (task_id : Z)
    (task : Task.t) (error : string) : Coro :=
  if failure_log_raises fault then Raised
  else handle_task_failure w task_id task error.

Import Task.

(** One atomic step of a [process_task] coroutine: the awaited operation
    completes and the code runs on to the next [await]. *)
Definition step (fault : option Fault) (c : Coro) (w : World)
    : Coro * World * list Event :=
  match c with
  | AwaitLoad task_id =>
      match fault with
      | Some (DuringLoad _) =>
          (* [task] is unbound when line 126 evaluates it *)
          (Raised, w, [])
      | _ =>
          match store w !! task_id with
          | None => (Returned, w, [])
          | Some task =>
              if decide (status task = PENDING) then
                (AwaitClaimCommit task_id
                   (set_updated_at (clock w) (set_status PROCESSING task)), w, [])
              else (Returned, w, [])
          end
      end
  | AwaitClaimCommit task_id task =>
      match commit [c_status; c_updated_at] task_id task w with
      | None => (Raised, w, [])
      | Some (row, w') =>
          match fault with
          | Some (AfterClaim msg) | Some (AfterClaimAndInFailureHandler msg) =>
              (on_exception fault w' task_id task msg, w', [Persisted task_id row])
          | _ =>
              match json_loads (payload task) with
              | Raise msg =>
                  (on_exception fault w' task_id task msg, w', [Persisted task_id row])
              | Return p =>
                  (AwaitHandler task_id task p, w', [Persisted task_id row])
              end
          end
      end
  | AwaitHandler task_id task p =>
      let d := handler_delay (task_type task) in
      let w' := sleep d w in
      match handler_result task_id task p with
      | Raise msg => (on_exception fault w' task_id task msg, w', [Slept d])
      | Return r => (AwaitCompletedCommit task_id (mark_completed w' task r), w', [Slept d])
      end
  | AwaitCompletedCommit task_id task =>
      match commit [c_status; c_result; c_completed_at; c_updated_at] task_id task w with
      | None => (Raised, w, [])
      | Some (row, w') =>
          match fault with
          | Some (AfterCompletion msg) | Some (AfterCompletionAndInFailureHandler msg) =>
              (on_exception fault w' task_id task msg, w', [Persisted task_id row])
          | _ => (Returned, w', [Persisted task_id row])
          end
      end
  | AwaitRetryingCommit task_id task =>
      match commit [c_retry_count; c_error_message; c_updated_at; c_status]
                   task_id task w with
      | None => (Raised, w, [])
      | Some (row, w') => (AwaitRetryDelay task_id task, w', [Persisted task_id row])
      end
  | AwaitRetryDelay task_id task =>
      (* lines 164-168: the delay, the put, then the assignment *)
      let d := 1000 * RETRY_DELAY settings in
      let w' := put task_id (sleep d w) in
      (AwaitPendingCommit task_id (set_status PENDING task), w',
       [Slept d; Enqueued task_id])
  | AwaitPendingCommit task_id task =>
      (* [updated_at] is not assigned here: its [onupdate] stamps it *)
      match commit [c_status; c_updated_at] task_id
                   (set_updated_at (clock w) task) w with
      | None => (Raised, w, [])
      | Some (row, w') => (Returned, w', [Persisted task_id row])
      end
  | AwaitFailedCommit task_id task =>
      match commit [c_retry_count; c_error_message; c_updated_at; c_status]
                   task_id task w with
      | None => (Raised, w, [])
      | Some (row, w') => (Returned, w', [Persisted task_id row])
      end
  | Returned => (Returned, w, [])
  | Raised => (Raised, w, [])
  end.

Definition finished (c : Coro) : bool :=
  match c with
  | Returned | Raised => true
  | _ => false
  end.

(** At most [fuel] steps of one coroutine, nothing else running in
    between. *)
Fixpoint run (fault : option Fault) (fuel : nat) (c : Coro) (w : World)
    : Coro * World * list Event :=
  match fuel with
  | O => (c, w, [])
  | S fuel' =>
      if finished c then (c, w, [])
      else
        let '(c1, w1, ev1) := step fault c w in
        let '(c2, w2, ev2) := run fault fuel' c1 w1 in
        (c2, w2, ev1 ++ ev2)
  end.

(** [process_task(task_id, worker_id)] run from its call to its end;
    [worker_id] only appears in the log lines. No path through the
    function has more than seven suspension points. *)
Definition process_task (fault : option Fault) (task_id : Z) (w : World)
    : Coro * World * list Event :=
  run fault 7 (AwaitLoad task_id) w.

(** The suspension points still ahead of a coroutine, at most. *)
Definition remaining (c : Coro) : nat :=
  match c with
  | AwaitLoad _ => 7
  | AwaitClaimCommit _ _ => 6
  | AwaitHandler _ _ _ => 5
  | AwaitCompletedCommit _ _ => 4
  | AwaitRetryingCommit _ _ => 3
  | AwaitRetryDelay _ _ => 2
  | AwaitPendingCommit _ _ => 1
  | AwaitFailedCommit _ _ => 1
  | Returned | Raised => 0
  end.

End Engine.

(** ** app/worker.py: the worker loop and the fetcher *)

Section Pool.
Context (settings : Settings).

(** One iteration of [WorkerPool.worker]: take the next identifier and
    process it; an empty queue times out after five seconds. Whatever
    [process_task] raises is logged and the loop goes on. *)
Definition worker_iteration (fault : option Fault) (w : World)
    : World * list Event :=
  match task_queue w with
  | [] => (sleep 5000 w, [Slept 5000])
  | task_id :: rest =>
      let '(_, w', ev) := process_task settings fault task_id (with_queue rest w) in
      (w', ev)
  end.

(** [select(Task).where(Task.status == PENDING).limit(limit)], in the
    order of the store. *)
Definition select_pending (limit : Z) (st : gmap Z Task.t) : list (Z * Task.t) :=
  take (Z.to_nat limit)
       (filter (λ kt, Task.status kt.2 = PENDING) (map_to_list st)).

(** One pass of [fetch_pending_tasks]. PostgreSQL rejects a negative
    LIMIT: the pass then logs the error and backs off (lines 62-64). *)
Definition fetch_pass (w : World) : World * list Event :=
  let limit := WORKER_POOL_SIZE settings * 2 in
  if limit <? 0 then (sleep 5000 w, [Slept 5000])
  else
    let ids := (select_pending limit (store w)).*1 in
    (sleep 1000 (with_queue (task_queue w ++ ids) w),
     (Enqueued <$> ids) ++ [Slept 1000]).

End Pool.

(** ** app/main.py: submit_task and delete_task *)

Inductive Response (A : Type) :=
| Ok (body : A)
| HTTPException (status_code : Z) (detail : string).
Arguments Ok {A} body.
Arguments HTTPException {A} status_code detail.

(** Modelled from the spec: the identifier the Task Store assigns on
    creation, one above every identifier in use. *)
Definition fresh_id (st : gmap Z Task.t) : Z :=
  1 + foldr Z.max 0 (map_to_list st).*1.

(** [str(e)] of the error the commit raises for a value that does not fit
    a [String(50)] column, as PostgreSQL words it; the driver wraps the
    statement and its parameters around this text. *)
Definition value_too_long : string :=
  "value too long for type character varying(50)".

(** [POST /tasks]: the payload is a dict, stored as its JSON text. The
    commit of line 75 raises for a [task_type] longer than the 50 characters
    of its column (models.py line 17); the [except] clause of lines 84-86
    rolls back and answers 500, and nothing is stored. *)
Definition submit_task (task_type : string) (payload : list (string * json))
    (w : World) : Response (Z * Task.t) * World :=
  if (50 <? String.length task_type)%nat then
    (HTTPException 500 ("Failed to create task: " +:+ value_too_long), w)
  else
    let new_task := Task.new task_type (Json (JDict payload)) (clock w) in
    let task_id := fresh_id (store w) in
    (Ok (task_id, new_task), with_store (<[task_id := new_task]> (store w)) w).

(** [DELETE /tasks/{task_id}]; the body of a success is its message. *)
Definition delete_task (task_id : Z) (w : World) : Response string * World :=
  match store w !! task_id with
  | None => (HTTPException 404 "Task not found", w)
  | Some task =>
      if bool_decide (Task.status task ∈ [PENDING; PROCESSING]) then
        (HTTPException 400 "Cannot delete task that is pending or processing", w)
      else
        (Ok ("Task " +:+ pretty task_id +:+ " deleted successfully"),
         with_store (delete task_id (store w)) w)
  end.

(** ** Several coroutines on one event loop *)

Section Interleaving.
Context (settings : Settings).

(** The world and the [process_task] call of each worker; a worker
    whose call has ended is back at [task_queue.get()]. *)
Record System := {
  world : World;
  coros : list Coro
}.

(** What the event loop may do next. *)
Inductive Action :=
| Fetch                  (* a pass of the fetcher *)
| Take (worker : nat)    (* line 78: an idle worker takes the next identifier *)
| Resume (worker : nat). (* a worker's pending [await] completes *)

Definition perform (a : Action) (s : System) : System :=
  match a with
  | Fetch =>
      {| world := (fetch_pass settings (world s)).1; coros := coros s |}
  | Take i =>
      match coros s !! i, task_queue (world s) with
      | Some c, task_id :: rest =>
          if finished c then
            {| world := with_queue rest (world s);
               coros := <[i := AwaitLoad task_id]> (coros s) |}
          else s
      | _, _ => s
      end
  | Resume i =>
      match coros s !! i with
      | None => s
      | Some c =>
          let '(c', w', _) := step settings None c (world s) in
          {| world := w'; coros := <[i := c']> (coros s) |}
      end
  end.

Definition run_schedule (schedule : list Action) (s : System) : System :=
  foldl (λ s a, perform a s) s schedule.

(** The call has claimed its task and gone on to execute it. *)
Definition proceeded (c : Coro) : bool :=
  match c with
  | AwaitHandler _ _ _ | AwaitCompletedCommit _ _
  | AwaitRetryingCommit _ _ | AwaitRetryDelay _ _
  | AwaitPendingCommit _ _ | AwaitFailedCommit _ _ => true
  | _ => false
  end.

End Interleaving.

(** ** Runs of the whole engine, one operation at a time *)

Section Runs.
Context (settings : Settings).

(** [n] successive calls of [process_task] on the same identifier. *)
Definition attempts (n : nat) (task_id : Z) (w : World) : World :=
  Nat.iter n (λ w, (process_task settings None task_id w).1.2) w.

Inductive Op :=
| Submit (task_type : string) (payload : list (string * json))
| FetchPass
| WorkerIteration
| Delete (task_id : Z).

Definition exec_op (op : Op) (w : World) : World * list Event :=
  match op with
  | Submit task_type payload => ((submit_task task_type payload w).2, [])
  | FetchPass => fetch_pass settings w
  | WorkerIteration => worker_iteration settings None w
  | Delete task_id => ((delete_task task_id w).2, [])
  end.

Fixpoint exec (ops : list Op) (w : World) : World * list Event :=
  match ops with
  | [] => (w, [])
  | op :: ops' =>
      let '(w1, ev1) := exec_op op w in
      let '(w2, ev2) := exec ops' w1 in
      (w2, ev1 ++ ev2)
  end.

End Runs.

(** ** Closed forms of the rows and outcomes of one attempt *)

Section ClosedForms.
Context (settings : Settings).

(** The row a claim writes. *)
Definition claimed_row (now : Z) (task : Task.t) : Task.t :=
  Task.mk (Task.task_type task) (Task.payload task) PROCESSING
    (Task.result task) (Task.error_message task) (Task.retry_count task)
    (Task.created_at task) now (Task.completed_at task).

(** The row the success path writes. *)
Definition completed_row (now : Z) (r : json) (task : Task.t) : Task.t :=
  Task.mk (Task.task_type task) (Task.payload task) COMPLETED
    (Some r) (Task.error_message task) (Task.retry_count task)
    (Task.created_at task) now (Some now).

(** The rows the failure path writes, in terms of the stored [row] and
    of the in-flight [task]. *)
Definition failed_attempt_row (st : TaskStatus) (now : Z) (error : string)
    (task row : Task.t) : Task.t :=
  Task.mk (Task.task_type row) (Task.payload row) st (Task.result row)
    (Some error) (Task.retry_count task + 1) (Task.created_at row) now
    (Task.completed_at row).

(** What a failed attempt leaves behind when the failure is raised at
    time [now], after the events [pre]. *)
Definition failed_attempt (w : World) (task_id : Z) (task : Task.t)
    (pre : list Event) (now : Z) (error : string) : Coro * World * list Event :=
  let claim := Persisted task_id (claimed_row (clock w) task) in
  if Task.retry_count task + 1 <? MAX_RETRIES settings then
    let d := 1000 * RETRY_DELAY settings in
    let r1 := failed_attempt_row RETRYING now error task task in
    let r2 := failed_attempt_row PENDING (now + d) error task task in
    (Returned,
     {| store := <[task_id := r2]> (store w);
        task_queue := task_queue w ++ [task_id];
        clock := now + d |},
     claim :: pre ++
       [Persisted task_id r1; Slept d; Enqueued task_id; Persisted task_id r2])
  else
    let r := failed_attempt_row FAILED now error task task in
    (Returned,
     {| store := <[task_id := r]> (store w);
        task_queue := task_queue w;
        clock := now |},
     claim :: pre ++ [Persisted task_id r]).

(** Where the handler raises: [json.loads] before the sleep, the body of
    the handler after it. *)
Definition handler_failure_point (w : World) (task : Task.t) : list Event * Z :=
  match json_loads (Task.payload task) with
  | Raise _ => ([], clock w)
  | Return _ =>
      let d := handler_delay (Task.task_type task) in ([Slept d], clock w + d)
  end.

End ClosedForms.

(** ** Predicates on rows *)

(** A row as the submission path creates it. *)
Definition as_created (t : Task.t) : Prop :=
  Task.status t = PENDING ∧ Task.result t = None ∧ Task.error_message t = None ∧
  Task.retry_count t = 0 ∧ Task.completed_at t = None.

(** [completed_at] is set exactly on COMPLETED rows. *)
Definition completion_stamped (t : Task.t) : Prop :=
  is_Some (Task.completed_at t) ↔ Task.status t = COMPLETED.

(** Result, error message and retry count agree with the status, and with
    what the handler does on the row. *)
Definition outcome_consistent (task_id : Z) (t : Task.t) : Prop :=
  0 ≤ Task.retry_count t ∧
  (is_Some (Task.result t) ↔ Task.status t = COMPLETED) ∧
  (is_Some (Task.error_message t) ↔ 0 < Task.retry_count t) ∧
  (Task.status t = FAILED ∨ Task.status t = RETRYING -> 0 < Task.retry_count t) ∧
  (Task.status t = COMPLETED -> ∃ r, execute_task task_id t = Return r) ∧
  (0 < Task.retry_count t -> ∃ e, execute_task task_id t = Raise e).

(** The columns that decide what the handler does; no write touches
    them. *)
Definition same_task (t row : Task.t) : Prop :=
  Task.task_type t = Task.task_type row ∧ Task.payload t = Task.payload row.

(** What a stored row says under any interleaving of the workers, as long
    as nothing but the handler fails: the completion time and the result
    are set together; a COMPLETED row has them, and a row that has them is
    COMPLETED or has been claimed again, and its handler returns; the error
    message is set exactly when a retry is counted, and then the handler
    raises; FAILED and RETRYING rows have a retry counted. *)
Definition row_sound (task_id : Z) (row : Task.t) : Prop :=
  0 ≤ Task.retry_count row ∧
  (is_Some (Task.completed_at row) ↔ is_Some (Task.result row)) ∧
  (Task.status row = COMPLETED -> is_Some (Task.result row)) ∧
  (is_Some (Task.result row) ->
     (Task.status row = COMPLETED ∨ Task.status row = PROCESSING) ∧
     ∃ r, execute_task task_id row = Return r) ∧
  (is_Some (Task.error_message row) ↔ 0 < Task.retry_count row) ∧
  (0 < Task.retry_count row -> ∃ e, execute_task task_id row = Raise e) ∧
  (Task.status row = FAILED ∨ Task.status row = RETRYING -> 0 < Task.retry_count row).

(** What a coroutine at a suspension point knows of its in-flight task:
    the row is still in the store, and what it is about to write agrees
    with what the handler did. *)
Definition in_store (st : gmap Z Task.t) (task_id : Z) (task : Task.t) : Prop :=
  ∃ row, st !! task_id = Some row ∧ same_task task row.

Definition coro_sound (st : gmap Z Task.t) (c : Coro) : Prop :=
  match c with
  | AwaitLoad _ | Returned | Raised => True
  | AwaitClaimCommit task_id task =>
      in_store st task_id task ∧ Task.status task = PROCESSING ∧
      0 ≤ Task.retry_count task
  | AwaitHandler task_id task p =>
      in_store st task_id task ∧ json_loads (Task.payload task) = Return p ∧
      0 ≤ Task.retry_count task
  | AwaitCompletedCommit task_id task =>
      in_store st task_id task ∧ Task.status task = COMPLETED ∧
      is_Some (Task.completed_at task) ∧
      ∃ r, Task.result task = Some r ∧ execute_task task_id task = Return r
  | AwaitRetryingCommit task_id task =>
      in_store st task_id task ∧ Task.status task = RETRYING ∧
      0 < Task.retry_count task ∧ is_Some (Task.error_message task) ∧
      ∃ e, execute_task task_id task = Raise e
  | AwaitRetryDelay task_id task =>
      in_store st task_id task ∧ ∃ e, execute_task task_id task = Raise e
  | AwaitPendingCommit task_id task =>
      in_store st task_id task ∧ Task.status task = PENDING ∧
      ∃ e, execute_task task_id task = Raise e
  | AwaitFailedCommit task_id task =>
      in_store st task_id task ∧ Task.status task = FAILED ∧
      0 < Task.retry_count task ∧ is_Some (Task.error_message task) ∧
      ∃ e, execute_task task_id task = Raise e
  end.

Definition system_sound (s : System) : Prop :=
  map_Forall row_sound (store (world s)) ∧
  Forall (coro_sound (store (world s))) (coros s).

(** Rows stay, and stay the same task. *)
Definition store_extends (st st' : gmap Z Task.t) : Prop :=
  ∀ task_id row, st !! task_id = Some row ->
    ∃ row', st' !! task_id = Some row' ∧ same_task row row'.

(** Sample worlds and messages. *)
Definition email_payload : json_text := Json (JDict [("email", JStr "a@b.com")]).

Definition list_has_no_get : string := "'list' object has no attribute 'get'".

(** [str(e)] of the [BlockingIOError] a write to a non-blocking standard
    output raises. *)
Definition blocked_write : string :=
  "[Errno 11] write could not complete without blocking".

(** A task in its retry delay after a first failure. *)
Definition retrying_task : Task.t :=
  Task.mk "email" (Json (JList [])) RETRYING None (Some list_has_no_get) 1 0 110 None.

Definition sample_world : World :=
  {| store := {[ 1 := Task.new "email" email_payload 0;
                 2 := Task.new "email" (Json (JList [])) 0;
                 3 := Task.new "report_generation"
                        (NotJson "Expecting value: line 1 column 1 (char 0)") 0;
                 4 := retrying_task ]};
     task_queue := []; clock := 10 |}.

Definition fresh_world : World :=
  {| store := {[ 1 := Task.new "email" email_payload 0;
                 2 := Task.new "email" (Json (JList [])) 0 ]};
     task_queue := []; clock := 10 |}.

Definition single_task_world : World :=
  {| store := {[ 1 := Task.new "email" email_payload 0 ]};
     task_queue := []; clock := 10 |}.

(** One task, whose handler raises. *)
Definition failing_task_world : World :=
  {| store := {[ 2 := Task.new "email" (Json (JList [])) 0 ]};
     task_queue := []; clock := 10 |}.

(** [MAX_RETRIES=2] in the environment. *)
Definition two_retries : Settings :=
  {| WORKER_POOL_SIZE := 10; MAX_RETRIES := 2; RETRY_DELAY := 5 |}.

(** ** app/main.py: the read endpoints *)

(** [TaskStatus.value] *)
Definition status_value (s : TaskStatus) : string :=
  match s with
  | PENDING => "pending"
  | PROCESSING => "processing"
  | COMPLETED => "completed"
  | FAILED => "failed"
  | RETRYING => "retrying"
  end.

(** [GET /tasks/{task_id}] *)
Definition get_task_status (task_id : Z) (w : World) : Response Task.t :=
  match store w !! task_id with
  | None => HTTPException 404 "Task not found"
  | Some task => Ok task
  end.

(** The [status] parameter of [GET /tasks]; a member of the enumeration is
    always true in [if status:], so only an absent parameter filters
    nothing. *)
Definition has_status (status : option TaskStatus) (t : Task.t) : Prop :=
  match status with
  | None => True
  | Some s => Task.status t = s
  end.

#[global] Instance has_status_dec status t : Decision (has_status status t).
Proof. destruct status; cbn; apply _. Defined.

(** [ORDER BY created_at DESC] *)
Definition newest_first (a b : Z * Task.t) : Prop :=
  Task.created_at b.2 ≤ Task.created_at a.2.

#[global] Instance newest_first_dec a b : Decision (newest_first a b).
Proof. unfold newest_first. apply _. Defined.

(** [GET /tasks]: filter, order, then limit, whatever the order of the
    calls that build the query. PostgreSQL rejects a negative LIMIT; the
    endpoint does not catch it and the request fails. *)
Definition get_all_tasks (status : option TaskStatus) (limit : Z) (w : World)
    : Response (list (Z * Task.t)) :=
  if limit <? 0 then HTTPException 500 "Internal Server Error"
  else
    Ok (take (Z.to_nat limit)
          (merge_sort newest_first
             (filter (λ kt, has_status status kt.2) (map_to_list (store w))))).

(** The three shapes of the body of [GET /tasks/{task_id}/result]. *)
Inductive TaskResult :=
| StillProcessing (status : string) (message : string)
| ResultFailed (status : string) (error : option string) (retry_count : Z)
| ResultOutcome (status : string) (result : option json) (completed_at : option Z).

(** [GET /tasks/{task_id}/result] *)
Definition get_task_result (task_id : Z) (w : World) : Response TaskResult :=
  match store w !! task_id with
  | None => HTTPException 404 "Task not found"
  | Some task =>
      if bool_decide (Task.status task = PENDING ∨ Task.status task = PROCESSING) then
        Ok (StillProcessing (status_value (Task.status task)) "Task is still processing")
      else if bool_decide (Task.status task = FAILED) then
        Ok (ResultFailed (status_value (Task.status task))
              (Task.error_message task) (Task.retry_count task))
      else
        Ok (ResultOutcome (status_value (Task.status task))
              (Task.result task) (Task.completed_at task))
  end.

(** ** app/worker.py: the pool object, start and stop *)

(** What [asyncio.create_task] was given, and whether [cancel] was called
    on the task since. *)
Inductive Job :=
| WorkerJob (worker_id : Z)
| FetcherJob.

Record AsyncTask := {
  job : Job;
  cancelled : bool
}.

Definition create_task (j : Job) : AsyncTask := {| job := j; cancelled := false |}.
Definition cancel (t : AsyncTask) : AsyncTask := {| job := job t; cancelled := true |}.

(** The attributes of a [WorkerPool] other than its queue, which is
    [task_queue] of the world. [task_fetcher] is [None] until [start] sets
    the attribute. *)
Record WorkerPool := {
  pool_size : Z;
  workers : list AsyncTask;
  running : bool;
  task_fetcher : option AsyncTask
}.

(** [WorkerPool()] *)
Definition new_pool (settings : Settings) : WorkerPool :=
  {| pool_size := WORKER_POOL_SIZE settings; workers := [];
     running := false; task_fetcher := None |}.

(** [WorkerPool.start] *)
Definition start (p : WorkerPool) : WorkerPool :=
  {| pool_size := pool_size p;
     workers := workers p ++ ((λ i, create_task (WorkerJob i)) <$> seqZ 0 (pool_size p));
     running := true;
     task_fetcher := Some (create_task FetcherJob) |}.

(** [WorkerPool.stop] *)
Definition stop (p : WorkerPool) : WorkerPool :=
  {| pool_size := pool_size p;
     workers := cancel <$> workers p;
     running := false;
     task_fetcher := cancel <$> task_fetcher p |}.

(** ** app/main.py: get_stats *)

(** The members of [TaskStatus], in the order of the class. *)
Definition all_statuses : list TaskStatus :=
  [PENDING; PROCESSING; COMPLETED; FAILED; RETRYING].

(** [len(result.scalars().all())] of the query for one status. *)
Definition count_status (s : TaskStatus) (st : gmap Z Task.t) : nat :=
  length (filter (λ kt, Task.status kt.2 = s) (map_to_list st)).

Record Stats := {
  statistics : list (string * nat);
  worker_pool_size : Z;
  active_workers : nat
}.

(** [GET /stats]; [worker_pool] is the module's global, [None] before the
    startup event. *)
Definition get_stats (worker_pool : option WorkerPool) (w : World) : Stats :=
  {| statistics := (λ s, (status_value s, count_status s (store w))) <$> all_statuses;
     worker_pool_size := from_option pool_size 0 worker_pool;
     active_workers := from_option (λ p, length (workers p)) 0%nat worker_pool |}.

(** ** Vocabulary of the further properties *)

(** Only a dict has [get]. *)
Definition is_dict (v : json) : bool :=
  match v with
  | JDict _ => true
  | _ => false
  end.

(** The columns no code path assigns to. *)
Definition same_identity (row row' : Task.t) : Prop :=
  Task.task_type row' = Task.task_type row ∧
  Task.payload row' = Task.payload row ∧
  Task.created_at row' = Task.created_at row.

(** The statuses a run wrote to the store, in order. *)
Definition persisted_statuses (ev : list Event) : list TaskStatus :=
  omap (λ e, match e with
             | Persisted _ row => Some (Task.status row)
             | _ => None
             end) ev.

(** The identifiers a run put on the queue, in order. *)
Definition enqueued (ev : list Event) : list Z :=
  omap (λ e, match e with
             | Enqueued task_id => Some task_id
             | _ => None
             end) ev.

(** The number of attempts after which no retry is left. *)
Definition attempts_allowed (settings : Settings) : nat :=
  Z.to_nat (Z.max 1 (MAX_RETRIES settings)).

(** What the rows of a run without faults say about their own past: a
    PENDING row still has a retry left, a FAILED row has used them all and
    carries the handler's error, a COMPLETED row carries the handler's
    result. *)
Definition history_consistent (settings : Settings) (task_id : Z) (t : Task.t) : Prop :=
  (Task.status t = PENDING ->
     Task.retry_count t = 0 ∨ 0 < Task.retry_count t < MAX_RETRIES settings) ∧
  (Task.status t = FAILED ->
     Task.retry_count t = Z.max 1 (MAX_RETRIES settings) ∧
     ∃ e, Task.error_message t = Some e ∧ execute_task task_id t = Raise e) ∧
  (Task.status t = COMPLETED ->
     ∃ r c, Task.result t = Some r ∧ Task.completed_at t = Some c ∧
            execute_task task_id t = Return r).

(** What a call leaves behind when the handler returned [r] and a fault
    follows the COMPLETED commit: the completed row goes to the retry
    controller with its result and its completion time in place. *)
Definition completed_then_failed (settings : Settings) (w : World) (task_id : Z)
    (task : Task.t) (r : json) (msg : string) : Coro * World * list Event :=
  let d := handler_delay (Task.task_type task) in
  let now := clock w + d in
  let r1 := claimed_row (clock w) task in
  let r2 := completed_row now r task in
  if Task.retry_count task + 1 <? MAX_RETRIES settings then
    let delay := 1000 * RETRY_DELAY settings in
    let r3 := failed_attempt_row RETRYING now msg task r2 in
    let r4 := failed_attempt_row PENDING (now + delay) msg task r2 in
    (Returned,
     {| store := <[task_id := r4]> (store w);
        task_queue := task_queue w ++ [task_id];
        clock := now + delay |},
     [Persisted task_id r1; Slept d; Persisted task_id r2;
      Persisted task_id r3; Slept delay; Enqueued task_id; Persisted task_id r4])
  else
    let r3 := failed_attempt_row FAILED now msg task r2 in
    (Returned,
     {| store := <[task_id := r3]> (store w);
        task_queue := task_queue w;
        clock := now |},
     [Persisted task_id r1; Slept d; Persisted task_id r2; Persisted task_id r3]).

(** What a call leaves behind when the handler returned [r] and nothing
    else went wrong. *)
Definition completed_attempt (w : World) (task_id : Z) (task : Task.t) (r : json)
    : Coro * World * list Event :=
  let d := handler_delay (Task.task_type task) in
  let r1 := claimed_row (clock w) task in
  let r2 := completed_row (clock w + d) r task in
  (Returned,
   {| store := <[task_id := r2]> (store w);
      task_queue := task_queue w;
      clock := clock w + d |},
   [Persisted task_id r1; Slept d; Persisted task_id r2]).

(** What a call leaves behind when its failure is raised at time [now],
    after the events [pre], and the log write of the retry controller
    raises in turn: the claim and nothing else. *)
Definition abandoned_attempt (w : World) (task_id : Z) (task : Task.t)
    (pre : list Event) (now : Z) : Coro * World * list Event :=
  (Raised,
   {| store := <[task_id := claimed_row (clock w) task]> (store w);
      task_queue := task_queue w;
      clock := now |},
   Persisted task_id (claimed_row (clock w) task) :: pre).

(** What a call leaves behind when the handler returned [r], the log write
    after the COMPLETED commit raises and so does the one of the retry
    controller: the completed row, and an exception for the worker loop. *)
Definition completed_then_abandoned (w : World) (task_id : Z) (task : Task.t)
    (r : json) : Coro * World * list Event :=
  let d := handler_delay (Task.task_type task) in
  let r1 := claimed_row (clock w) task in
  let r2 := completed_row (clock w + d) r task in
  (Raised,
   {| store := <[task_id := r2]> (store w);
      task_queue := task_queue w;
      clock := clock w + d |},
   [Persisted task_id r1; Slept d; Persisted task_id r2]).

(** ** One call among others *)

(** One call of [process_task] resumed in the worlds [worlds], one for each
    of its suspension points in turn. What the other workers, the fetcher
    and the endpoints did in between is the difference between the world
    one step leaves and the world the next step finds, so every
    interleaving of the call with anything else is one choice of
    [worlds]. *)
Fixpoint resume_at (settings : Settings) (fault : option Fault)
    (worlds : list World) (c : Coro) : Coro * list Event :=
  match worlds with
  | [] => (c, [])
  | w :: worlds' =>
      let '(c1, _, ev1) := step settings fault c w in
      let '(c2, ev2) := resume_at settings fault worlds' c1 in
      (c2, ev1 ++ ev2)
  end.

(** What an event is, its values left aside. *)
Inductive EventKind :=
| Wrote (status : TaskStatus)
| Put
| Wait.

#[global] Instance EventKind_eq_dec : EqDecision EventKind.
Proof. solve_decision. Defined.

Definition kind (e : Event) : EventKind :=
  match e with
  | Persisted _ row => Wrote (Task.status row)
  | Enqueued _ => Put
  | Slept _ => Wait
  end.

Definition statuses (kinds : list EventKind) : list TaskStatus :=
  omap (λ k, match k with
             | Wrote s => Some s
             | _ => None
             end) kinds.

(** The task an event is about. *)
Definition event_of (task_id : Z) (e : Event) : Prop :=
  match e with
  | Persisted k _ | Enqueued k => k = task_id
  | Slept _ => True
  end.

(** The task a coroutine is about. *)
Definition call_of (task_id : Z) (c : Coro) : Prop :=
  match c with
  | AwaitLoad k | AwaitClaimCommit k _ | AwaitHandler k _ _
  | AwaitCompletedCommit k _ | AwaitRetryingCommit k _ | AwaitRetryDelay k _
  | AwaitPendingCommit k _ | AwaitFailedCommit k _ => k = task_id
  | Returned | Raised => True
  end.

(** The status a coroutine is about to commit. *)
Definition inflight_status (c : Coro) : Prop :=
  match c with
  | AwaitClaimCommit _ task => Task.status task = PROCESSING
  | AwaitCompletedCommit _ task => Task.status task = COMPLETED
  | AwaitRetryingCommit _ task => Task.status task = RETRYING
  | AwaitPendingCommit _ task => Task.status task = PENDING
  | AwaitFailedCommit _ task => Task.status task = FAILED
  | _ => True
  end.

(** The retry count a coroutine holds in flight when the task was loaded
    with [n] retries counted: [n] until the retry controller is called,
    [n + 1] from then on, on the way to RETRYING when a retry is left and to
    FAILED when none is. *)
Definition inflight_count (settings : Settings) (n : Z) (c : Coro) : Prop :=
  match c with
  | AwaitLoad _ => False
  | AwaitClaimCommit _ task | AwaitHandler _ task _ | AwaitCompletedCommit _ task =>
      Task.retry_count task = n
  | AwaitRetryingCommit _ task =>
      Task.retry_count task = n + 1 ∧ n + 1 < MAX_RETRIES settings
  | AwaitRetryDelay _ task | AwaitPendingCommit _ task =>
      Task.retry_count task = n + 1
  | AwaitFailedCommit _ task =>
      Task.retry_count task = n + 1 ∧ MAX_RETRIES settings ≤ n + 1
  | Returned | Raised => True
  end.

(** A row persisted as RETRYING or FAILED counts one retry more than [n],
    and is FAILED exactly when that uses up the retries. *)
Definition counts_from (settings : Settings) (n : Z) (e : Event) : Prop :=
  match e with
  | Persisted _ row =>
      (Task.status row = RETRYING ->
         Task.retry_count row = n + 1 ∧ n + 1 < MAX_RETRIES settings) ∧
      (Task.status row = FAILED ->
         Task.retry_count row = n + 1 ∧ MAX_RETRIES settings ≤ n + 1)
  | _ => True
  end.

(** What the retry controller does from its call to its return. *)
Definition failure_shapes : list (list EventKind) :=
  [[Wrote RETRYING; Wait; Put; Wrote PENDING]; [Wrote FAILED]].

(** The longest traces of a call: the claim, then the failure of
    [json.loads], of the handler after its sleep, or of the log write after
    the COMPLETED commit, and the retry controller. Every other trace stops
    earlier on one of them. *)
Definition call_shapes : list (list EventKind) :=
  (([Wrote PROCESSING] ++.) <$> failure_shapes) ++
  (([Wrote PROCESSING; Wait] ++.) <$> failure_shapes) ++
  (([Wrote PROCESSING; Wait; Wrote COMPLETED] ++.) <$> failure_shapes).

(** The same from each suspension point on. *)
Definition ahead (c : Coro) : list (list EventKind) :=
  match c with
  | AwaitLoad _ | AwaitClaimCommit _ _ => call_shapes
  | AwaitHandler _ _ _ =>
      (([Wait] ++.) <$> failure_shapes) ++
      (([Wait; Wrote COMPLETED] ++.) <$> failure_shapes)
  | AwaitCompletedCommit _ _ => ([Wrote COMPLETED] ++.) <$> failure_shapes
  | AwaitRetryingCommit _ _ => [[Wrote RETRYING; Wait; Put; Wrote PENDING]]
  | AwaitRetryDelay _ _ => [[Wait; Put; Wrote PENDING]]
  | AwaitPendingCommit _ _ => [[Wrote PENDING]]
  | AwaitFailedCommit _ _ => [[Wrote FAILED]]
  | Returned | Raised => [[]]
  end.

(** The statuses along the longest traces. *)
Definition status_paths : list (list TaskStatus) :=
  [[PROCESSING; COMPLETED; RETRYING; PENDING];
   [PROCESSING; COMPLETED; FAILED];
   [PROCESSING; RETRYING; PENDING];
   [PROCESSING; FAILED]].

(** ** tests/performance_test.py: the batches of run_concurrent_test *)

(** One turn of the loop of lines 56-62: the coroutine for request [i] is
    appended, and the batch is gathered and emptied once it holds
    [concurrency] coroutines or more. The state is the batch being filled
    and the batches gathered so far. *)
Definition batch_step (concurrency : Z) (st : list Z * list (list Z)) (i : Z)
    : list Z * list (list Z) :=
  let tasks := st.1 ++ [i] in
  if concurrency <=? Z.of_nat (length tasks) then ([], st.2 ++ [tasks])
  else (tasks, st.2).

(** The batches [run_concurrent_test(num_tasks, concurrency)] hands to
    [asyncio.gather], in order, each as the request numbers it holds. *)
Definition run_concurrent_test (num_tasks concurrency : Z) : list (list Z) :=
  let st := foldl (batch_step concurrency) ([], []) (seqZ 0 num_tasks) in
  match st.1 with
  | [] => st.2
  | _ :: _ => st.2 ++ [st.1]
  end.

(** * Properties *)

(** ** Equations of the machine *)

Section EngineFacts.
Context (settings : Settings).
Implicit Types (w : World) (task row : Task.t) (task_id : Z).

Lemma run_S fault n c w :
  run settings fault (S n) c w =
    if finished c then (c, w, [])
    else
      let '(c1, w1, ev1) := step settings fault c w in
      let '(c2, w2, ev2) := run settings fault n c1 w1 in
      (c2, w2, ev1 ++ ev2).
Proof. reflexivity. Qed.

Lemma run_finished fault n c w :
  finished c = true -> run settings fault n c w = (c, w, []).
Proof. intros H. destruct n; [done|]. by rewrite run_S, H. Qed.

Lemma remaining_handle_task_failure w task_id task error :
  (remaining (handle_task_failure settings w task_id task error) ≤ 3)%nat.
Proof. unfold handle_task_failure. destruct (_ <? _); cbn; lia. Qed.

Lemma remaining_on_exception fault w task_id task error :
  (remaining (on_exception settings fault w task_id task error) ≤ 3)%nat.
Proof.
  unfold on_exception. destruct (failure_log_raises fault); [cbn; lia|].
  apply remaining_handle_task_failure.
Qed.

Lemma step_decreases fault c w :
  finished c = false ->
  (remaining (step settings fault c w).1.1 < remaining c)%nat.
Proof.
  intros Hc.
  destruct c; try discriminate Hc; cbn [step];
    repeat match goal with
    | |- context [commit ?cols ?i ?t ?w] => destruct (commit cols i t w) as [[? ?]|]
    | |- context [match ?f with Some _ => _ | None => _ end] => destruct f
    | |- context [match ?f with DuringLoad _ => _ | _ => _ end] => destruct f
    | |- context [json_loads ?p] => destruct (json_loads p)
    | |- context [handler_result ?i ?t ?p] => destruct (handler_result i t p)
    | |- context [decide ?p] => destruct (decide p)
    end;
    cbn -[on_exception];
    try match goal with
    | |- context [on_exception _ ?f ?w ?i ?t ?m] =>
        pose proof (remaining_on_exception f w i t m)
    end;
    lia.
Qed.

Lemma run_finishes fault n c w :
  (remaining c ≤ n)%nat -> finished (run settings fault n c w).1.1 = true.
Proof.
  revert c w. induction n as [|n IH]; intros c w Hn.
  - destruct c; cbn in Hn; try lia; done.
  - rewrite run_S. destruct (finished c) eqn:Hc; [done|].
    pose proof (step_decreases fault c w Hc) as Hlt.
    destruct (step settings fault c w) as [[c1 w1] ev1]. cbn in Hlt.
    specialize (IH c1 w1). destruct (run settings fault n c1 w1) as [[c2 w2] ev2].
    cbn in *. apply IH. lia.
Qed.

(** [process_task] always comes to an end, with or without a fault: the
    seven steps it is given are enough. *)
Lemma process_task_finishes fault task_id w :
  finished (process_task settings fault task_id w).1.1 = true.
Proof. apply run_finishes. cbn. lia. Qed.

Lemma commit_Some cols task_id task row w :
  store w !! task_id = Some row ->
  commit cols task_id task w =
    Some (flush cols task row,
          with_store (<[task_id := flush cols task row]> (store w)) w).
Proof. intros H. unfold commit. by rewrite H. Qed.

(** [handle_task_failure] from its call to its return. *)
Lemma run_handle_task_failure fault n w task_id task row error :
  store w !! task_id = Some row ->
  run settings fault (S (S (S n))) (handle_task_failure settings w task_id task error) w =
    if Task.retry_count task + 1 <? MAX_RETRIES settings then
      let d := 1000 * RETRY_DELAY settings in
      let r1 := failed_attempt_row RETRYING (clock w) error task row in
      let r2 := failed_attempt_row PENDING (clock w + d) error task row in
      (Returned,
       {| store := <[task_id := r2]> (store w);
          task_queue := task_queue w ++ [task_id];
          clock := clock w + d |},
       [Persisted task_id r1; Slept d; Enqueued task_id; Persisted task_id r2])
    else
      let r := failed_attempt_row FAILED (clock w) error task row in
      (Returned, with_store (<[task_id := r]> (store w)) w, [Persisted task_id r]).
Proof.
  intros Hrow. unfold handle_task_failure. cbn [Task.retry_count Task.set_retry_count
    Task.set_error_message Task.set_updated_at].
  destruct (Task.retry_count task + 1 <? MAX_RETRIES settings).
  - rewrite run_S. cbn [finished step on_exception failure_log_raises]. rewrite (commit_Some _ _ _ row) by done.
    rewrite run_S. cbn [finished step on_exception failure_log_raises]. rewrite run_S. cbn [finished step on_exception failure_log_raises].
    erewrite commit_Some; last by (cbn; apply lookup_insert_eq).
    rewrite run_finished by done. cbn. by rewrite insert_insert_eq.
  - rewrite run_S. cbn [finished step on_exception failure_log_raises]. rewrite (commit_Some _ _ _ row) by done.
    by rewrite run_finished.
Qed.

Lemma process_task_load_fault msg task_id w :
  process_task settings (Some (DuringLoad msg)) task_id w = (Raised, w, []).
Proof. reflexivity. Qed.

Lemma process_task_missing task_id w :
  store w !! task_id = None ->
  process_task settings None task_id w = (Returned, w, []).
Proof.
  intros H. unfold process_task. rewrite run_S. cbn [finished step on_exception failure_log_raises].
  rewrite H. by rewrite run_finished.
Qed.

Lemma process_task_not_pending task_id task w :
  store w !! task_id = Some task -> Task.status task <> PENDING ->
  process_task settings None task_id w = (Returned, w, []).
Proof.
  intros H Hs. unfold process_task. rewrite run_S. cbn [finished step on_exception failure_log_raises].
  rewrite H, decide_False by done. by rewrite run_finished.
Qed.

Lemma process_task_success task_id task r w :
  store w !! task_id = Some task -> Task.status task = PENDING ->
  execute_task task_id task = Return r ->
  process_task settings None task_id w =
    let d := handler_delay (Task.task_type task) in
    let r1 := claimed_row (clock w) task in
    let r2 := completed_row (clock w + d) r task in
    (Returned,
     {| store := <[task_id := r2]> (store w);
        task_queue := task_queue w;
        clock := clock w + d |},
     [Persisted task_id r1; Slept d; Persisted task_id r2]).
Proof.
  intros H Hs He. unfold process_task. rewrite run_S. cbn [finished step on_exception failure_log_raises].
  rewrite H, decide_True by done.
  rewrite run_S. cbn [finished step on_exception failure_log_raises]. rewrite (commit_Some _ _ _ task) by done.
  unfold execute_task in He. cbn [Task.payload Task.set_updated_at Task.set_status].
  destruct (json_loads (Task.payload task)) as [p|] eqn:Hp; [|done].
  rewrite run_S. cbn [finished step on_exception failure_log_raises].
  change (handler_result task_id _ p) with (handler_result task_id task p).
  rewrite He. rewrite run_S. cbn [finished step on_exception failure_log_raises].
  erewrite commit_Some; last by (cbn; apply lookup_insert_eq).
  rewrite run_finished by done. cbn. by rewrite insert_insert_eq.
Qed.

Lemma process_task_failure task_id task error w :
  store w !! task_id = Some task -> Task.status task = PENDING ->
  execute_task task_id task = Raise error ->
  process_task settings None task_id w =
    failed_attempt settings w task_id task
      (handler_failure_point w task).1 (handler_failure_point w task).2 error.
Proof.
  intros H Hs He. unfold process_task. rewrite run_S. cbn [finished step on_exception failure_log_raises].
  rewrite H, decide_True by done.
  rewrite run_S. cbn [finished step on_exception failure_log_raises]. rewrite (commit_Some _ _ _ task) by done.
  unfold execute_task in He. unfold handler_failure_point, failed_attempt.
  cbn [Task.payload Task.set_updated_at Task.set_status].
  destruct (json_loads (Task.payload task)) as [p|] eqn:Hp.
  - rewrite run_S. cbn [finished step on_exception failure_log_raises].
    change (handler_result task_id _ p) with (handler_result task_id task p).
    rewrite He.
    erewrite run_handle_task_failure; last by (cbn; apply lookup_insert_eq).
    cbn. destruct (_ <? _); cbn; by rewrite insert_insert_eq.
  - simplify_eq.
    erewrite run_handle_task_failure; last by (cbn; apply lookup_insert_eq).
    cbn. destruct (_ <? _); cbn; by rewrite insert_insert_eq.
Qed.

(** A fault between the claim and the handler takes the same path. *)
Lemma process_task_fault_after_claim task_id task error w :
  store w !! task_id = Some task -> Task.status task = PENDING ->
  process_task settings (Some (AfterClaim error)) task_id w =
    failed_attempt settings w task_id task [] (clock w) error.
Proof.
  intros H Hs. unfold process_task. rewrite run_S. cbn [finished step on_exception failure_log_raises].
  rewrite H, decide_True by done.
  rewrite run_S. cbn [finished step on_exception failure_log_raises]. rewrite (commit_Some _ _ _ task) by done.
  unfold failed_attempt.
  erewrite run_handle_task_failure; last by (cbn; apply lookup_insert_eq).
  cbn. destruct (_ <? _); cbn; by rewrite insert_insert_eq.
Qed.

End EngineFacts.

(** ** One call of process_task under each fault *)

Section FaultEquations.
Context (settings : Settings).
Implicit Types (w : World) (task row : Task.t) (task_id : Z).

(** A task that is gone or not PENDING is discarded before any fault past
    the load can occur. *)
Lemma process_task_stale_any_fault fault task_id w :
  (∀ msg, fault ≠ Some (DuringLoad msg)) ->
  (∀ task, store w !! task_id = Some task -> Task.status task ≠ PENDING) ->
  process_task settings fault task_id w = (Returned, w, []).
Proof.
  intros Hfault Hstale. unfold process_task. rewrite run_S. cbn [finished step].
  destruct fault as [[msg|msg|msg|msg|msg|msg]|]; try (by destruct (Hfault msg));
    (destruct (store w !! task_id) as [task|] eqn:Hrow;
      [rewrite decide_False by (by apply Hstale)|]; by rewrite run_finished).
Qed.

(** The fault after the COMPLETED commit is never reached when the handler
    raises. *)
Lemma process_task_fault_unreached task_id task error msg w :
  store w !! task_id = Some task -> Task.status task = PENDING ->
  execute_task task_id task = Raise error ->
  process_task settings (Some (AfterCompletion msg)) task_id w =
  process_task settings None task_id w.
Proof.
  intros H Hs He. unfold process_task. rewrite !(run_S _ _ 6).
  cbn [finished step on_exception failure_log_raises].
  rewrite H, decide_True by done.
  rewrite !(run_S _ _ 5). cbn [finished step on_exception failure_log_raises].
  rewrite (commit_Some _ _ _ task) by done.
  unfold execute_task in He. cbn [Task.payload Task.set_updated_at Task.set_status].
  destruct (json_loads (Task.payload task)) as [p|] eqn:Hp.
  - rewrite !(run_S _ _ 4). cbn [finished step on_exception failure_log_raises].
    change (handler_result task_id _ p) with (handler_result task_id task p).
    rewrite He.
    erewrite !run_handle_task_failure by (cbn; apply lookup_insert_eq). done.
  - erewrite !run_handle_task_failure by (cbn; apply lookup_insert_eq). done.
Qed.

(** The fault after the COMPLETED commit, when the handler returned. *)
Lemma process_task_fault_after_completion task_id task r msg w :
  store w !! task_id = Some task -> Task.status task = PENDING ->
  execute_task task_id task = Return r ->
  process_task settings (Some (AfterCompletion msg)) task_id w =
    completed_then_failed settings w task_id task r msg.
Proof.
  intros H Hs He. unfold process_task. rewrite run_S.
  cbn [finished step on_exception failure_log_raises].
  rewrite H, decide_True by done.
  rewrite run_S. cbn [finished step on_exception failure_log_raises].
  rewrite (commit_Some _ _ _ task) by done.
  unfold execute_task in He. cbn [Task.payload Task.set_updated_at Task.set_status].
  destruct (json_loads (Task.payload task)) as [p|] eqn:Hp; [|done].
  rewrite run_S. cbn [finished step on_exception failure_log_raises].
  change (handler_result task_id _ p) with (handler_result task_id task p).
  rewrite He. rewrite run_S. cbn [finished step on_exception failure_log_raises].
  erewrite commit_Some; last by (cbn; apply lookup_insert_eq).
  erewrite run_handle_task_failure; last by (cbn; apply lookup_insert_eq).
  unfold completed_then_failed.
  cbn. destruct (_ <? _); cbn; by rewrite !insert_insert_eq.
Qed.

(** The log writes of lines 110 and 159/173 both raise: the claim is all
    that is written. *)
Lemma process_task_fault_after_claim_twice task_id task msg w :
  store w !! task_id = Some task -> Task.status task = PENDING ->
  process_task settings (Some (AfterClaimAndInFailureHandler msg)) task_id w =
    abandoned_attempt w task_id task [] (clock w).
Proof.
  intros H Hs. unfold process_task. rewrite run_S.
  cbn [finished step on_exception failure_log_raises].
  rewrite H, decide_True by done.
  rewrite run_S. cbn [finished step on_exception failure_log_raises].
  rewrite (commit_Some _ _ _ task) by done.
  by rewrite run_finished.
Qed.

(** The handler raises and the log write of the retry controller raises in
    turn. *)
Lemma process_task_fault_in_failure_handler fault task_id task error w :
  (∃ msg, fault = Some (InFailureHandler msg) ∨
          fault = Some (AfterCompletionAndInFailureHandler msg)) ->
  store w !! task_id = Some task -> Task.status task = PENDING ->
  execute_task task_id task = Raise error ->
  process_task settings fault task_id w =
    abandoned_attempt w task_id task
      (handler_failure_point w task).1 (handler_failure_point w task).2.
Proof.
  intros (msg & Hfault) H Hs He. unfold process_task, handler_failure_point.
  unfold execute_task in He.
  destruct Hfault as [-> | ->];
    (rewrite run_S; cbn [finished step on_exception failure_log_raises];
     rewrite H, decide_True by done;
     rewrite run_S; cbn [finished step on_exception failure_log_raises];
     rewrite (commit_Some _ _ _ task) by done;
     cbn [Task.payload Task.set_updated_at Task.set_status];
     destruct (json_loads (Task.payload task)) as [p|] eqn:Hp;
     [rewrite run_S; cbn [finished step on_exception failure_log_raises];
      change (handler_result task_id _ p) with (handler_result task_id task p);
      rewrite He|];
     by rewrite run_finished).
Qed.

(** The log write of the retry controller is never reached when the handler
    returns and the log writes before it succeed. *)
Lemma process_task_failure_handler_unreached task_id task r msg w :
  store w !! task_id = Some task -> Task.status task = PENDING ->
  execute_task task_id task = Return r ->
  process_task settings (Some (InFailureHandler msg)) task_id w =
  process_task settings None task_id w.
Proof.
  intros H Hs He. unfold process_task. rewrite !(run_S _ _ 6).
  cbn [finished step on_exception failure_log_raises].
  rewrite H, decide_True by done.
  rewrite !(run_S _ _ 5). cbn [finished step on_exception failure_log_raises].
  rewrite (commit_Some _ _ _ task) by done.
  unfold execute_task in He. cbn [Task.payload Task.set_updated_at Task.set_status].
  destruct (json_loads (Task.payload task)) as [p|] eqn:Hp; [|done].
  rewrite !(run_S _ _ 4). cbn [finished step on_exception failure_log_raises].
  change (handler_result task_id _ p) with (handler_result task_id task p).
  rewrite He. rewrite !(run_S _ _ 3).
  cbn [finished step on_exception failure_log_raises].
  erewrite commit_Some; last by (cbn; apply lookup_insert_eq). done.
Qed.

(** The handler returned; the log write after the COMPLETED commit raises
    and so does the one of the retry controller. *)
Lemma process_task_fault_after_completion_twice task_id task r msg w :
  store w !! task_id = Some task -> Task.status task = PENDING ->
  execute_task task_id task = Return r ->
  process_task settings (Some (AfterCompletionAndInFailureHandler msg)) task_id w =
    completed_then_abandoned w task_id task r.
Proof.
  intros H Hs He. unfold process_task. rewrite run_S.
  cbn [finished step on_exception failure_log_raises].
  rewrite H, decide_True by done.
  rewrite run_S. cbn [finished step on_exception failure_log_raises].
  rewrite (commit_Some _ _ _ task) by done.
  unfold execute_task in He. cbn [Task.payload Task.set_updated_at Task.set_status].
  destruct (json_loads (Task.payload task)) as [p|] eqn:Hp; [|done].
  rewrite run_S. cbn [finished step on_exception failure_log_raises].
  change (handler_result task_id _ p) with (handler_result task_id task p).
  rewrite He. rewrite run_S. cbn [finished step on_exception failure_log_raises].
  erewrite commit_Some; last by (cbn; apply lookup_insert_eq).
  rewrite run_finished by done.
  unfold completed_then_abandoned. cbn. by rewrite insert_insert_eq.
Qed.

(** Every call of [process_task] ends in one of seven ways: the load
    raised; the entry was stale; the handler returned; the attempt failed,
    by the handler or by a fault after the claim; a fault followed the
    COMPLETED commit; the attempt failed and the log write of the retry
    controller raised; a fault followed the COMPLETED commit and the log
    write of the retry controller raised. *)
Lemma process_task_cases (Q : Coro * World * list Event -> Prop) fault task_id w :
  (∀ msg, fault = Some (DuringLoad msg) -> Q (Raised, w, [])) ->
  Q (Returned, w, []) ->
  (∀ task r, store w !! task_id = Some task -> Task.status task = PENDING ->
     execute_task task_id task = Return r ->
     Q (completed_attempt w task_id task r)) ->
  (∀ task error pre now,
     store w !! task_id = Some task -> Task.status task = PENDING ->
     pre = [] ∨ (∃ d, pre = [Slept d]) ->
     Q (failed_attempt settings w task_id task pre now error)) ->
  (∀ task r msg, fault = Some (AfterCompletion msg) ->
     store w !! task_id = Some task -> Task.status task = PENDING ->
     execute_task task_id task = Return r ->
     Q (completed_then_failed settings w task_id task r msg)) ->
  (∀ task pre now, failure_log_raises fault = true ->
     store w !! task_id = Some task -> Task.status task = PENDING ->
     pre = [] ∨ (∃ d, pre = [Slept d]) ->
     Q (abandoned_attempt w task_id task pre now)) ->
  (∀ task r, failure_log_raises fault = true ->
     store w !! task_id = Some task -> Task.status task = PENDING ->
     execute_task task_id task = Return r ->
     Q (completed_then_abandoned w task_id task r)) ->
  Q (process_task settings fault task_id w).
Proof.
  intros Hraised Hstale Hdone Hfailed Hundone Habandoned Hleft.
  assert (Hfail : ∀ task error, store w !! task_id = Some task ->
            Task.status task = PENDING -> execute_task task_id task = Raise error ->
            Q (process_task settings None task_id w)).
  { intros task error Hrow Hst Hex.
    rewrite (process_task_failure settings _ task error) by done.
    apply Hfailed; [done..|]. unfold handler_failure_point.
    destruct (json_loads _); cbn; eauto. }
  assert (Hgive_up : ∀ task error, failure_log_raises fault = true ->
            store w !! task_id = Some task ->
            Task.status task = PENDING -> execute_task task_id task = Raise error ->
            Q (abandoned_attempt w task_id task
                 (handler_failure_point w task).1 (handler_failure_point w task).2)).
  { intros task error Hlog Hrow Hst Hex. apply Habandoned; [done..|].
    unfold handler_failure_point. destruct (json_loads _); cbn; eauto. }
  destruct fault as [[msg|msg|msg|msg|msg|msg]|];
    [rewrite process_task_load_fault; by eapply Hraised|..];
    (destruct (store w !! task_id) as [task|] eqn:Hrow;
      [|by rewrite process_task_stale_any_fault by (by intros; congruence)]);
    (destruct (decide (Task.status task = PENDING)) as [Hst|Hst];
      [|by rewrite process_task_stale_any_fault by (by intros; simplify_eq)]).
  - rewrite (process_task_fault_after_claim settings _ task) by done.
    apply Hfailed; auto.
  - destruct (execute_task task_id task) as [r|error] eqn:Hex.
    + rewrite (process_task_fault_after_completion _ task r) by done. by eapply Hundone.
    + rewrite (process_task_fault_unreached _ task error) by done. by eapply Hfail.
  - destruct (execute_task task_id task) as [r|error] eqn:Hex.
    + rewrite (process_task_failure_handler_unreached _ task r) by done.
      rewrite (process_task_success settings _ task r) by done. by apply Hdone.
    + rewrite (process_task_fault_in_failure_handler _ _ task error) by eauto.
      by eapply Hgive_up.
  - rewrite (process_task_fault_after_claim_twice _ task) by done.
    apply Habandoned; auto.
  - destruct (execute_task task_id task) as [r|error] eqn:Hex.
    + rewrite (process_task_fault_after_completion_twice _ task r) by done.
      by apply Hleft.
    + rewrite (process_task_fault_in_failure_handler _ _ task error) by eauto.
      by eapply Hgive_up.
  - destruct (execute_task task_id task) as [r|error] eqn:Hex.
    + rewrite (process_task_success settings _ task r) by done. by apply Hdone.
    + by eapply Hfail.
Qed.

End FaultEquations.

(** ** The trace of a call, whatever runs in between *)

Section Traces.
Context (settings : Settings).

Lemma persisted_statuses_kinds (ev : list Event) :
  persisted_statuses ev = statuses (kind <$> ev).
Proof.
  unfold persisted_statuses, statuses.
  induction ev as [|[k row|k|d] ev IH]; cbn; by rewrite ?IH.
Qed.

Lemma statuses_prefix l1 l2 : l1 `prefix_of` l2 -> statuses l1 `prefix_of` statuses l2.
Proof. intros [k ->]. unfold statuses. rewrite omap_app. by eexists. Qed.

Lemma enqueued_kind (ev : list Event) i : Enqueued i ∈ ev -> Put ∈ kind <$> ev.
Proof. intros H. apply list_elem_of_fmap. by exists (Enqueued i). Qed.

Lemma on_exception_cases fault w task_id task error :
  on_exception settings fault w task_id task error = Raised ∨
  (∃ t, on_exception settings fault w task_id task error = AwaitRetryingCommit task_id t ∧
        Task.status t = RETRYING) ∨
  (∃ t, on_exception settings fault w task_id task error = AwaitFailedCommit task_id t ∧
        Task.status t = FAILED).
Proof.
  unfold on_exception, handle_task_failure.
  destruct (failure_log_raises fault); [by left|].
  destruct (_ <? _); right; [left|right]; by eexists.
Qed.

Ltac shapes_tac :=
  apply (bool_decide_unpack _); vm_compute; exact I.

(** One step: the events are about the task of the call, and they lead
    from one of the traces ahead to one of those ahead of the next
    suspension point. *)
Lemma step_shape fault c w task_id :
  inflight_status c -> call_of task_id c ->
  inflight_status (step settings fault c w).1.1 ∧
  call_of task_id (step settings fault c w).1.1 ∧
  Forall (event_of task_id) (step settings fault c w).2 ∧
  Forall (λ shape', Exists (λ shape,
            (kind <$> (step settings fault c w).2) ++ shape' `prefix_of` shape)
            (ahead c))
    (ahead (step settings fault c w).1.1).
Proof.
  intros Hst Hid.
  destruct c as [k|k task|k task p|k task|k task|k task|k task|k task| |];
    cbn in Hst, Hid; subst; cbn [step]; unfold commit.
  - destruct fault as [[]|];
      try (destruct (store w !! task_id) as [row|]; [case_decide|]);
      cbn; split_and!; try done; shapes_tac.
  - destruct (store w !! task_id) as [row|]; [|cbn; split_and!; try done; shapes_tac].
    assert (Hfail : ∀ msg,
      let c' := on_exception settings fault
                  (with_store (<[task_id := flush [Task.c_status; Task.c_updated_at] task row]>
                                 (store w)) w) task_id task msg in
      inflight_status c' ∧ call_of task_id c' ∧
      Forall (λ shape', Exists (λ shape, Wrote PROCESSING :: shape' `prefix_of` shape)
                          call_shapes) (ahead c')).
    { intros msg. cbn zeta.
      destruct (on_exception_cases fault
                  (with_store (<[task_id := flush [Task.c_status; Task.c_updated_at] task row]>
                                 (store w)) w) task_id task msg)
        as [-> | [(t & -> & Ht) | (t & -> & Ht)]];
        cbn; split_and!; try done; shapes_tac. }
    destruct fault as [[]|];
      try (destruct (json_loads (Task.payload task)) as [p|e]);
      cbn [fst snd fmap list_fmap kind flush foldr Task.write_column Task.status
           Task.set_status Task.set_updated_at app];
      rewrite ?Hst;
      try (destruct (Hfail e) as (? & ? & ?); split_and!; try done;
           by repeat constructor);
      try (destruct (Hfail msg) as (? & ? & ?); split_and!; try done;
           by repeat constructor);
      split_and!; try done; try (by repeat constructor); shapes_tac.
  - assert (Hfail : ∀ msg,
      let c' := on_exception settings fault
                  (sleep (handler_delay (Task.task_type task)) w) task_id task msg in
      inflight_status c' ∧ call_of task_id c' ∧
      Forall (λ shape', Exists (λ shape, Wait :: shape' `prefix_of` shape)
                          (ahead (AwaitHandler task_id task p))) (ahead c')).
    { intros msg. cbn zeta.
      destruct (on_exception_cases fault
                  (sleep (handler_delay (Task.task_type task)) w) task_id task msg)
        as [-> | [(t & -> & Ht) | (t & -> & Ht)]];
        cbn; split_and!; try done; shapes_tac. }
    destruct (handler_result task_id task p) as [r|e]; cbn [fst snd fmap list_fmap kind app].
    + cbn. split_and!; try done; [by repeat constructor|shapes_tac].
    + destruct (Hfail e) as (? & ? & ?). split_and!; try done. by repeat constructor.
  - destruct (store w !! task_id) as [row|]; [|cbn; split_and!; try done; shapes_tac].
    assert (Hfail : ∀ msg,
      let c' := on_exception settings fault
                  (with_store (<[task_id := flush [Task.c_status; Task.c_result;
                                                    Task.c_completed_at; Task.c_updated_at]
                                                   task row]> (store w)) w)
                  task_id task msg in
      inflight_status c' ∧ call_of task_id c' ∧
      Forall (λ shape', Exists (λ shape, Wrote COMPLETED :: shape' `prefix_of` shape)
                          (ahead (AwaitCompletedCommit task_id task))) (ahead c')).
    { intros msg. cbn zeta.
      destruct (on_exception_cases fault
                  (with_store (<[task_id := flush [Task.c_status; Task.c_result;
                                                    Task.c_completed_at; Task.c_updated_at]
                                                   task row]> (store w)) w)
                  task_id task msg)
        as [-> | [(t & -> & Ht) | (t & -> & Ht)]];
        cbn; split_and!; try done; shapes_tac. }
    destruct fault as [[]|];
      cbn [fst snd fmap list_fmap kind flush foldr Task.write_column Task.status
           Task.set_status Task.set_updated_at Task.set_result Task.set_completed_at app];
      rewrite ?Hst;
      try (destruct (Hfail msg) as (? & ? & ?); split_and!; try done;
           by repeat constructor);
      split_and!; try done; try (by repeat constructor); shapes_tac.
  - destruct (store w !! task_id) as [row|]; cbn; rewrite ?Hst;
      split_and!; try done; try (by repeat constructor); shapes_tac.
  - cbn. split_and!; try done; [by repeat constructor|shapes_tac].
  - destruct (store w !! task_id) as [row|]; cbn; rewrite ?Hst;
      split_and!; try done; try (by repeat constructor); shapes_tac.
  - destruct (store w !! task_id) as [row|]; cbn; rewrite ?Hst;
      split_and!; try done; try (by repeat constructor); shapes_tac.
  - cbn. split_and!; try done; shapes_tac.
  - cbn. split_and!; try done; shapes_tac.
Qed.

Lemma ahead_nonempty c : ∃ shape, shape ∈ ahead c.
Proof. destruct c; eexists; apply list_elem_of_here. Qed.

(** The trace of a call from any of its suspension points, whatever the
    worlds it is resumed in and whatever the fault: its events are about
    its own task, and they are the beginning of one of the traces ahead. *)
Lemma resume_at_shape fault worlds : ∀ c task_id,
  inflight_status c -> call_of task_id c ->
  Forall (event_of task_id) (resume_at settings fault worlds c).2 ∧
  ∃ shape, shape ∈ ahead c ∧
           kind <$> (resume_at settings fault worlds c).2 `prefix_of` shape.
Proof.
  induction worlds as [|w worlds IH]; intros c task_id Hst Hid.
  - cbn. split; [done|]. destruct (ahead_nonempty c) as [shape Hin].
    exists shape. split; [done|]. by exists shape.
  - cbn [resume_at].
    destruct (step_shape fault c w task_id Hst Hid) as (Hst1 & Hid1 & Hev1 & Hahead).
    destruct (step settings fault c w) as [[c1 w1] ev1]. cbn [fst snd] in *.
    destruct (IH c1 task_id Hst1 Hid1) as (Hev2 & shape1 & Hin1 & Hpre1).
    destruct (resume_at settings fault worlds c1) as [c2 ev2]. cbn [fst snd] in *.
    split; [by apply Forall_app|].
    rewrite Forall_forall in Hahead. specialize (Hahead shape1 Hin1).
    apply Exists_exists in Hahead as (shape & Hin & Hpre).
    exists shape. split; [done|]. rewrite fmap_app.
    etrans; [|exact Hpre]. by apply prefix_app.
Qed.

Lemma call_shapes_paths :
  Forall (λ shape, statuses shape ∈ status_paths) call_shapes.
Proof. apply (bool_decide_unpack _). vm_compute. exact I. Qed.

(** The statuses a call commits are the beginning of one of the four
    paths, and all its writes go to the row of its own task. *)
Lemma resume_at_status_path fault worlds task_id :
  (∀ k row, Persisted k row ∈ (resume_at settings fault worlds (AwaitLoad task_id)).2 ->
     k = task_id) ∧
  ∃ path, path ∈ status_paths ∧
          persisted_statuses (resume_at settings fault worlds (AwaitLoad task_id)).2
            `prefix_of` path.
Proof.
  destruct (resume_at_shape fault worlds (AwaitLoad task_id) task_id I eq_refl)
    as (Hof & shape & Hin & Hpre).
  split.
  - intros k row Hk. rewrite Forall_forall in Hof. by apply (Hof _ Hk).
  - exists (statuses shape). split.
    + pose proof call_shapes_paths as Hpaths. rewrite Forall_forall in Hpaths.
      by apply Hpaths.
    + rewrite persisted_statuses_kinds. by apply statuses_prefix.
Qed.

Ltac split_shape H l :=
  repeat (destruct l as [|? l]; cbn in H;
          [|first [discriminate H | injection H as <- H]]).

(** Where a [Put] stands in a trace: after RETRYING, once, and with
    nothing but PENDING written after it. *)
Lemma shape_put_split shape (l1 l2 : list EventKind) :
  shape ∈ call_shapes ->
  l1 ++ Put :: l2 `prefix_of` shape ->
  last (statuses l1) = Some RETRYING ∧ (Put ∉ l1) ∧ (Put ∉ l2) ∧
  (statuses l2 = [] ∨ statuses l2 = [PENDING]).
Proof.
  intros Hin [rest Heq]. rewrite <-(assoc_L (++)) in Heq. cbn in Heq.
  unfold call_shapes in Hin. cbn in Hin.
  repeat (apply elem_of_cons in Hin as [-> | Hin]);
    [..|by apply elem_of_nil in Hin];
    split_shape Heq l1; try discriminate Heq;
    injection Heq as Heq; split_shape Heq l2;
    (split_and!; [reflexivity| | |by auto]);
    apply (bool_decide_unpack _); vm_compute; exact I.
Qed.

(** Whatever a call puts on the queue is the identifier of its own task;
    the last status it committed before is RETRYING, it puts nothing else,
    and all it commits afterwards is PENDING. *)
Lemma resume_at_put_order fault worlds task_id pre k post :
  (resume_at settings fault worlds (AwaitLoad task_id)).2 = pre ++ Enqueued k :: post ->
  k = task_id ∧
  last (persisted_statuses pre) = Some RETRYING ∧
  (∀ i, Enqueued i ∉ pre ++ post) ∧
  (persisted_statuses post = [] ∨ persisted_statuses post = [PENDING]).
Proof.
  intros Hev.
  destruct (resume_at_shape fault worlds (AwaitLoad task_id) task_id I eq_refl)
    as (Hof & shape & Hin & Hpre).
  rewrite Hev in Hof, Hpre. rewrite fmap_app in Hpre. cbn in Hpre.
  destruct (shape_put_split shape _ _ Hin Hpre) as (Hlast & Hpre1 & Hpost1 & Hafter).
  rewrite !persisted_statuses_kinds. split_and!; [|done| |done].
  - apply Forall_app in Hof as [_ Hof]. by apply Forall_cons in Hof as [Hk _].
  - intros i [Hi|Hi]%elem_of_app; by apply enqueued_kind in Hi.
Qed.

Lemma on_exception_count fault w task_id task error n :
  Task.retry_count task = n ->
  inflight_status (on_exception settings fault w task_id task error) ∧
  inflight_count settings n (on_exception settings fault w task_id task error).
Proof.
  intros Hn. unfold on_exception, handle_task_failure.
  destruct (failure_log_raises fault); [done|]. cbn. rewrite Hn.
  destruct (n + 1 <? MAX_RETRIES settings) eqn:Hlt; cbn;
    [apply Z.ltb_lt in Hlt|apply Z.ltb_ge in Hlt]; by auto.
Qed.

(** One step of a call that loaded its task with [n] retries counted. *)
Lemma step_count fault c w n :
  inflight_status c -> inflight_count settings n c ->
  inflight_status (step settings fault c w).1.1 ∧
  inflight_count settings n (step settings fault c w).1.1 ∧
  Forall (counts_from settings n) (step settings fault c w).2.
Proof.
  intros Hst Hn.
  destruct c as [k|k task|k task p|k task|k task|k task|k task|k task| |];
    cbn in Hst, Hn; try done; cbn [step]; unfold commit.
  - destruct (store w !! k) as [row|]; [|by cbn].
    assert (Hev : Forall (counts_from settings n)
              [Persisted k (flush [Task.c_status; Task.c_updated_at] task row)]).
    { apply Forall_singleton. cbn. rewrite Hst. by split. }
    destruct fault as [[]|];
      try (destruct (json_loads (Task.payload task)) as [p|e]);
      cbn [fst snd];
      try (by split_and!);
      (match goal with
       | |- context [on_exception settings ?f ?w' ?i ?t ?m] =>
           destruct (on_exception_count f w' i t m n Hn) as [? ?]
       end; by split_and!).
  - destruct (handler_result k task p) as [r|e]; cbn [fst snd].
    + cbn. split_and!; try done. by repeat constructor.
    + destruct (on_exception_count fault
                  (sleep (handler_delay (Task.task_type task)) w) k task e n Hn) as [? ?].
      split_and!; [done..|by repeat constructor].
  - destruct (store w !! k) as [row|]; [|by cbn].
    assert (Hev : Forall (counts_from settings n)
              [Persisted k (flush [Task.c_status; Task.c_result; Task.c_completed_at;
                                   Task.c_updated_at] task row)]).
    { apply Forall_singleton. cbn. rewrite Hst. by split. }
    destruct fault as [[]|]; cbn [fst snd];
      try (by split_and!);
      (match goal with
       | |- context [on_exception settings ?f ?w' ?i ?t ?m] =>
           destruct (on_exception_count f w' i t m n Hn) as [? ?]
       end; by split_and!).
  - destruct Hn as [Hn Hlt]. destruct (store w !! k) as [row|]; [|by cbn].
    cbn. split_and!; try done. apply Forall_singleton. cbn. rewrite Hst.
    by split.
  - cbn. split_and!; try done. by repeat constructor.
  - destruct (store w !! k) as [row|]; [|by cbn].
    cbn. split_and!; try done. apply Forall_singleton. cbn. rewrite Hst.
    by split.
  - destruct Hn as [Hn Hge]. destruct (store w !! k) as [row|]; [|by cbn].
    cbn. split_and!; try done. apply Forall_singleton. cbn. rewrite Hst.
    by split.
Qed.

Lemma resume_at_count fault worlds : ∀ c n,
  inflight_status c -> inflight_count settings n c ->
  Forall (counts_from settings n) (resume_at settings fault worlds c).2.
Proof.
  induction worlds as [|w worlds IH]; intros c n Hst Hn; [done|].
  cbn [resume_at].
  destruct (step_count fault c w n Hst Hn) as (Hst1 & Hn1 & Hev1).
  destruct (step settings fault c w) as [[c1 w1] ev1]. cbn [fst snd] in *.
  specialize (IH c1 n Hst1 Hn1).
  destruct (resume_at settings fault worlds c1) as [c2 ev2]. cbn [fst snd] in *.
  by apply Forall_app.
Qed.

(** A call counts from what it loaded: whatever runs between its
    suspension points, the RETRYING or FAILED row it persists has one retry
    more than the row it loaded. *)
Lemma call_counts_from_load fault w worlds task_id task :
  store w !! task_id = Some task ->
  Forall (counts_from settings (Task.retry_count task))
    (resume_at settings fault (w :: worlds) (AwaitLoad task_id)).2.
Proof.
  intros Hrow. cbn [resume_at step].
  assert (Hrest : ∀ c, inflight_status c ->
            inflight_count settings (Task.retry_count task) c ->
            Forall (counts_from settings (Task.retry_count task))
              (let '(c2, ev2) := resume_at settings fault worlds c in (c2, [] ++ ev2)).2).
  { intros c Hst Hn. pose proof (resume_at_count fault worlds c _ Hst Hn) as H.
    by destruct (resume_at settings fault worlds c). }
  rewrite Hrow.
  destruct fault as [[]|]; try case_decide; by apply Hrest.
Qed.

End Traces.


(** ** The worker: stale entries and the success path *)

Section WorkerProperties.
Context (settings : Settings).

(** C8. A dequeued identifier whose task is gone, or whose status is not
    PENDING, is discarded: the call returns at once, the world (rows,
    queue, clock) is what it was and nothing is written or enqueued. *)
Theorem stale_entry_discarded task_id w :
  (store w !! task_id = None ∨
   ∃ task, store w !! task_id = Some task ∧ Task.status task ≠ PENDING) ->
  process_task settings None task_id w = (Returned, w, []) ∧
  ∀ rest, task_queue w = task_id :: rest ->
    worker_iteration settings None w = (with_queue rest w, []).
Proof.
  intros Hstale.
  assert (Hcall : ∀ w', store w' = store w ->
            process_task settings None task_id w' = (Returned, w', [])).
  { intros w' Hst. destruct Hstale as [Hnone | (task & Hsome & Hne)].
    - apply process_task_missing. by rewrite Hst.
    - apply (process_task_not_pending _ _ task); [by rewrite Hst | done]. }
  split; [by apply Hcall|].
  intros rest Hq. unfold worker_iteration. rewrite Hq.
  by rewrite Hcall.
Qed.

(** C6. An email task with payload [{"email": "a@b.com"}] that a worker
    picks up PENDING ends COMPLETED, with the result
    [{"status": "email_sent", "to": "a@b.com"}] stored and its completion
    time stamped. *)
Theorem email_task_completes task_id task w :
  store w !! task_id = Some task ->
  Task.status task = PENDING ->
  Task.task_type task = "email" ->
  Task.payload task = email_payload ->
  ∃ w' ev row,
    process_task settings None task_id w = (Returned, w', ev) ∧
    store w' !! task_id = Some row ∧
    Task.status row = COMPLETED ∧
    Task.result row =
      Some (JDict [("status", JStr "email_sent"); ("to", JStr "a@b.com")]) ∧
    Task.completed_at row = Some (clock w').
Proof.
  intros Hrow Hst Hty Hpl.
  assert (He : execute_task task_id task =
            Return (JDict [("status", JStr "email_sent"); ("to", JStr "a@b.com")])).
  { unfold execute_task, handler_result. by rewrite Hpl, Hty. }
  rewrite (process_task_success settings _ _ _ _ Hrow Hst He).
  eexists _, _, _. split; [reflexivity|]. cbn.
  rewrite lookup_insert_eq. by repeat split.
Qed.

End WorkerProperties.

Lemma stale_entry_discarded_witness :
  (store sample_world !! 4 = None ∨
   ∃ task, store sample_world !! 4 = Some task ∧ Task.status task ≠ PENDING) ∧
  process_task default_settings None 4 sample_world = (Returned, sample_world, []).
Proof.
  assert (H : store sample_world !! 4 = None ∨
     ∃ task, store sample_world !! 4 = Some task ∧ Task.status task ≠ PENDING).
  { right. eexists. split; [reflexivity | discriminate]. }
  split; [exact H|].
  exact (proj1 (stale_entry_discarded default_settings 4 sample_world H)).
Defined.

Lemma email_task_completes_witness :
  ∃ w' ev row,
    process_task default_settings None 1 sample_world = (Returned, w', ev) ∧
    store w' !! 1 = Some row ∧
    Task.status row = COMPLETED ∧
    Task.result row =
      Some (JDict [("status", JStr "email_sent"); ("to", JStr "a@b.com")]) ∧
    Task.completed_at row = Some (clock w').
Proof.
  apply (email_task_completes default_settings 1
           (Task.new "email" email_payload 0) sample_world); reflexivity.
Defined.

(** The scenario from submission on: submit, one fetcher pass, one worker
    iteration. *)
Example email_scenario :
  let w0 := {| store := ∅; task_queue := []; clock := 0 |} in
  let w1 := (submit_task "email" [("email", JStr "a@b.com")] w0).2 in
  let w2 := (fetch_pass default_settings w1).1 in
  let w3 := (worker_iteration default_settings None w2).1 in
  task_queue w2 = [1] ∧
  (Task.status <$> store w3 !! 1) = Some COMPLETED ∧
  (Task.result <$> store w3 !! 1) =
    Some (Some (JDict [("status", JStr "email_sent"); ("to", JStr "a@b.com")])) ∧
  (Task.completed_at <$> store w3 !! 1) = Some (Some 1100).
Proof. vm_compute. done. Qed.

(** ** The fetcher *)

Section FetcherProperties.
Context (settings : Settings).

Lemma select_pending_spec limit (st : gmap Z Task.t) task_id task :
  (task_id, task) ∈ select_pending limit st ->
  st !! task_id = Some task ∧ Task.status task = PENDING.
Proof.
  unfold select_pending. intros Hin.
  apply subseteq_take in Hin. apply list_elem_of_filter in Hin as [Hp Hin].
  by apply elem_of_map_to_list in Hin.
Qed.

Lemma select_pending_length limit (st : gmap Z Task.t) :
  0 ≤ limit -> Z.of_nat (length (select_pending limit st)) ≤ limit.
Proof. intros Hl. unfold select_pending. rewrite length_take. lia. Qed.

(** C7. A pass of the fetcher leaves every row as it was; what it adds to
    the queue are identifiers of rows that are PENDING in the store it
    queried, at most [2 * pool_size] of them. *)
Theorem fetch_pass_only_enqueues w :
  0 ≤ WORKER_POOL_SIZE settings ->
  ∃ ids,
    store (fetch_pass settings w).1 = store w ∧
    task_queue (fetch_pass settings w).1 = task_queue w ++ ids ∧
    (∀ task_id, task_id ∈ ids ->
       ∃ task, store w !! task_id = Some task ∧ Task.status task = PENDING) ∧
    Z.of_nat (length ids) ≤ 2 * WORKER_POOL_SIZE settings ∧
    (∀ task_id row, Persisted task_id row ∉ (fetch_pass settings w).2).
Proof.
  intros Hpool. unfold fetch_pass.
  destruct (WORKER_POOL_SIZE settings * 2 <? 0) eqn:Hneg; [lia|].
  exists (select_pending (WORKER_POOL_SIZE settings * 2) (store w)).*1.
  cbn. repeat split.
  - intros task_id Hin. apply list_elem_of_fmap in Hin as ([k task] & -> & Hin).
    exists task. by apply select_pending_spec in Hin.
  - rewrite length_fmap.
    pose proof (select_pending_length (WORKER_POOL_SIZE settings * 2) (store w)). lia.
  - intros task_id row Hin. apply elem_of_app in Hin as [Hin | Hin].
    + apply list_elem_of_fmap in Hin as (? & ? & _). done.
    + apply elem_of_cons in Hin as [? | Hin]; [done|]. by apply elem_of_nil in Hin.
Qed.

End FetcherProperties.

Lemma fetch_pass_only_enqueues_witness :
  0 ≤ WORKER_POOL_SIZE default_settings ∧
  ∃ ids,
    store (fetch_pass default_settings sample_world).1 = store sample_world ∧
    task_queue (fetch_pass default_settings sample_world).1 =
      task_queue sample_world ++ ids ∧
    (∀ task_id, task_id ∈ ids ->
       ∃ task, store sample_world !! task_id = Some task ∧ Task.status task = PENDING) ∧
    Z.of_nat (length ids) ≤ 2 * WORKER_POOL_SIZE default_settings ∧
    (∀ task_id row, Persisted task_id row ∉ (fetch_pass default_settings sample_world).2).
Proof.
  assert (H : 0 ≤ WORKER_POOL_SIZE default_settings) by (cbn; lia).
  split; [exact H|].
  exact (fetch_pass_only_enqueues default_settings sample_world H).
Defined.

(** ** Deletion *)

(** C9. Deleting a task that is RETRYING is not rejected: the call
    succeeds and the row is removed, although the endpoint documents
    itself as deleting only completed or failed tasks. *)
Theorem delete_task_accepts_retrying task_id task w :
  store w !! task_id = Some task ->
  Task.status task = RETRYING ->
  delete_task task_id w =
    (Ok ("Task " +:+ pretty task_id +:+ " deleted successfully"),
     with_store (delete task_id (store w)) w) ∧
  store (delete_task task_id w).2 !! task_id = None.
Proof.
  intros Hrow Hst. unfold delete_task. rewrite Hrow, Hst.
  rewrite bool_decide_eq_false_2.
  - split; [done|]. cbn. apply lookup_delete_eq.
  - intros Hin. repeat (apply elem_of_cons in Hin as [? | Hin]; [done|]).
    by apply elem_of_nil in Hin.
Qed.

Lemma delete_task_accepts_retrying_witness :
  delete_task 4 sample_world =
    (Ok "Task 4 deleted successfully",
     with_store (delete 4 (store sample_world)) sample_world) ∧
  store (delete_task 4 sample_world).2 !! 4 = None.
Proof.
  apply (delete_task_accepts_retrying 4 retrying_task); reflexivity.
Defined.

(** The same from a run: task 2 fails, its RETRYING row is persisted and
    the worker sleeps; the deletion goes through during the delay, and the
    commit of PENDING that follows finds no row. *)
Example delete_during_retry_delay :
  let '(c, w, _) := run default_settings None 4 (AwaitLoad 2) fresh_world in
  let '(response, w') := delete_task 2 w in
  (Task.status <$> store w !! 2) = Some RETRYING ∧
  response = Ok "Task 2 deleted successfully" ∧
  store w' !! 2 = None ∧
  (run default_settings None 2 c w').1.1 = Raised.
Proof. vm_compute. done. Qed.

(** What the endpoint does reject, and what it accepts besides. *)
Lemma delete_task_rejects_active task_id task w :
  store w !! task_id = Some task ->
  Task.status task = PENDING ∨ Task.status task = PROCESSING ->
  delete_task task_id w =
    (HTTPException 400 "Cannot delete task that is pending or processing", w).
Proof.
  intros Hrow Hst. unfold delete_task. rewrite Hrow.
  rewrite bool_decide_eq_true_2; [done|].
  destruct Hst as [-> | ->]; set_solver.
Qed.

Lemma delete_task_accepts_terminal task_id task w :
  store w !! task_id = Some task ->
  Task.status task = COMPLETED ∨ Task.status task = FAILED ->
  (delete_task task_id w).2 = with_store (delete task_id (store w)) w.
Proof.
  intros Hrow Hst. unfold delete_task. rewrite Hrow.
  rewrite bool_decide_eq_false_2; [done|].
  destruct Hst as [-> | ->]; intros Hin;
    repeat (apply elem_of_cons in Hin as [? | Hin]; [done|]);
    by apply elem_of_nil in Hin.
Qed.

(** ** The retry controller *)

Section RetryProperties.
Context (settings : Settings).

Lemma execute_task_ext task_id (t1 t2 : Task.t) :
  Task.task_type t1 = Task.task_type t2 ->
  Task.payload t1 = Task.payload t2 ->
  execute_task task_id t1 = execute_task task_id t2.
Proof. intros Hty Hpl. unfold execute_task, handler_result. by rewrite Hty, Hpl. Qed.

Lemma attempts_S n task_id w :
  attempts settings (S n) task_id w =
    (process_task settings None task_id (attempts settings n task_id w)).1.2.
Proof. reflexivity. Qed.

(** While the retries are not used up, each failed attempt hands the
    task back PENDING with one more retry counted. *)
Lemma attempts_still_pending task_id task error w (k : nat) :
  store w !! task_id = Some task ->
  Task.status task = PENDING ->
  Task.retry_count task = 0 ->
  execute_task task_id task = Raise error ->
  k = O ∨ Z.of_nat k < MAX_RETRIES settings ->
  ∃ row,
    store (attempts settings k task_id w) !! task_id = Some row ∧
    Task.status row = PENDING ∧
    Task.retry_count row = Z.of_nat k ∧
    Task.task_type row = Task.task_type task ∧
    Task.payload row = Task.payload task.
Proof.
  intros Hrow Hst Hrc He. induction k as [|k IH]; intros Hk.
  - exists task. by repeat split.
  - destruct Hk as [|Hk]; [done|].
    destruct IH as (row & Hrow' & Hst' & Hrc' & Hty & Hpl); [lia|].
    rewrite attempts_S.
    rewrite (process_task_failure settings _ row error) by
      (try done; by rewrite (execute_task_ext _ row task)).
    unfold failed_attempt.
    destruct (Task.retry_count row + 1 <? MAX_RETRIES settings) eqn:Hlt; [|lia].
    cbn. rewrite lookup_insert_eq. eexists. split; [done|].
    cbn. repeat split; [lia|done..].
Qed.

(** C1 (as the code has it). A call counts from the task as it loaded
    it. Whatever runs between its suspension points and whichever of its
    log writes raises, the row it persists when it handles a failure has
    one retry more than the row it loaded, and is RETRYING when that leaves
    a retry and FAILED when it does not. Hence, when the attempts on a task
    follow one another, each loading the task after the one before has
    returned: a task created with no retry counted whose handler fails on
    each of [N] attempts has, once the [N]th failure is handled,
    [retry_count = N] and the error recorded; it is FAILED exactly when
    [N >= MAX_RETRIES], with nothing enqueued by that attempt; otherwise
    the attempt persisted RETRYING, waited the delay, enqueued the
    identifier and left the task PENDING. ([N] attempts take place only
    if [N = 1] or [N <= MAX_RETRIES]: a FAILED task is not run again.) *)
Theorem retry_count_after_failures :
  (∀ fault w worlds task_id task k row,
     store w !! task_id = Some task ->
     Persisted k row ∈ (resume_at settings fault (w :: worlds) (AwaitLoad task_id)).2 ->
     (Task.status row = RETRYING ->
        Task.retry_count row = Task.retry_count task + 1 ∧
        Task.retry_count task + 1 < MAX_RETRIES settings) ∧
     (Task.status row = FAILED ->
        Task.retry_count row = Task.retry_count task + 1 ∧
        MAX_RETRIES settings ≤ Task.retry_count task + 1)) ∧
  (∀ (N : nat) task_id task error w,
     store w !! task_id = Some task ->
     Task.status task = PENDING ->
     Task.retry_count task = 0 ->
     execute_task task_id task = Raise error ->
     (1 ≤ N)%nat ->
     N = 1%nat ∨ Z.of_nat N ≤ MAX_RETRIES settings ->
     let before := attempts settings (N - 1) task_id w in
     let after := attempts settings N task_id w in
     ∃ row ev,
       process_task settings None task_id before = (Returned, after, ev) ∧
       store after !! task_id = Some row ∧
       Task.retry_count row = Z.of_nat N ∧
       Task.error_message row = Some error ∧
       (Task.status row = FAILED ↔ MAX_RETRIES settings ≤ Z.of_nat N) ∧
       (MAX_RETRIES settings ≤ Z.of_nat N ->
          task_queue after = task_queue before ∧
          ∀ i, Enqueued i ∉ ev) ∧
       (Z.of_nat N < MAX_RETRIES settings ->
          Task.status row = PENDING ∧
          task_queue after = task_queue before ++ [task_id] ∧
          ∃ pre r1,
            ev = pre ++ [Persisted task_id r1; Slept (1000 * RETRY_DELAY settings);
                         Enqueued task_id; Persisted task_id row] ∧
            Task.status r1 = RETRYING ∧
            Task.retry_count r1 = Z.of_nat N)).
Proof.
  split.
  { intros fault w worlds task_id task k row Hrow Hin.
    pose proof (call_counts_from_load settings fault w worlds task_id task Hrow) as Hall.
    rewrite Forall_forall in Hall. exact (Hall _ Hin). }
  intros N task_id task error w.
  intros Hrow Hst Hrc He HN Hbound. destruct N as [|n]; [lia|].
  replace (S n - 1)%nat with n by lia. cbn zeta.
  destruct (attempts_still_pending task_id task error w n Hrow Hst Hrc He)
    as (row & Hrow' & Hst' & Hrc' & Hty & Hpl); [lia|].
  rewrite attempts_S.
  assert (He' : execute_task task_id row = Raise error)
    by (by rewrite (execute_task_ext _ row task)).
  rewrite (process_task_failure settings _ row error) by done.
  unfold failed_attempt.
  destruct (Task.retry_count row + 1 <? MAX_RETRIES settings) eqn:Hlt.
  - apply Z.ltb_lt in Hlt. eexists _, _. split; [reflexivity|]. cbn.
    rewrite lookup_insert_eq. split; [done|]. cbn.
    repeat split; try done; try lia.
    exists (Persisted task_id (claimed_row (clock (attempts settings n task_id w)) row)
              :: (handler_failure_point (attempts settings n task_id w) row).1).
    eexists. split; [reflexivity|]. cbn. split; [done|lia].
  - apply Z.ltb_ge in Hlt. eexists _, _. split; [reflexivity|]. cbn.
    rewrite lookup_insert_eq. split; [done|]. cbn.
    repeat split; try done; try lia.
    intros i Hin. apply elem_of_cons in Hin as [? | Hin]; [done|].
    apply elem_of_app in Hin as [Hin | Hin].
    + unfold handler_failure_point in Hin.
      destruct (json_loads (Task.payload row)); cbn in Hin.
      * apply elem_of_cons in Hin as [? | Hin]; [done|]. by apply elem_of_nil in Hin.
      * by apply elem_of_nil in Hin.
    + apply elem_of_cons in Hin as [? | Hin]; [done|]. by apply elem_of_nil in Hin.
Qed.

(** C3 (as the code has it). The put comes before the PENDING write.
    Whatever runs between the suspension points of a call and whichever of
    its log writes raises, what the call puts on the queue is the
    identifier of its own task, once; the last status it committed before
    the put is RETRYING, and all it commits after the put is PENDING. For a
    call that nothing interleaves with, on a retryable failure: RETRYING is
    persisted, the delay is waited, the identifier is enqueued, PENDING is
    persisted, and when the call returns the task is PENDING and its
    identifier is at the tail of the queue. When an idle worker takes the
    identifier between the put and the PENDING commit, it finds the task
    RETRYING and discards the entry: the call returns with the task PENDING
    and no entry for it on the queue. *)
Theorem retry_enqueues_then_resets :
  (∀ fault worlds task_id pre k post,
     (resume_at settings fault worlds (AwaitLoad task_id)).2 =
       pre ++ Enqueued k :: post ->
     k = task_id ∧
     last (persisted_statuses pre) = Some RETRYING ∧
     (∀ i, Enqueued i ∉ pre ++ post) ∧
     (persisted_statuses post = [] ∨ persisted_statuses post = [PENDING])) ∧
  (∀ task_id task error w,
     store w !! task_id = Some task ->
     Task.status task = PENDING ->
     execute_task task_id task = Raise error ->
     Task.retry_count task + 1 < MAX_RETRIES settings ->
     ∃ w' pre r1 r2,
       process_task settings None task_id w =
         (Returned, w',
          pre ++ [Persisted task_id r1; Slept (1000 * RETRY_DELAY settings);
                  Enqueued task_id; Persisted task_id r2]) ∧
       Task.status r1 = RETRYING ∧
       Task.status r2 = PENDING ∧
       store w' !! task_id = Some r2 ∧
       task_queue w' = task_queue w ++ [task_id] ∧
       (∀ i, Enqueued i ∉ pre)) ∧
  (∀ task_id task row w,
     store w !! task_id = Some row ->
     Task.status row = RETRYING ->
     task_queue w = [] ->
     let s := run_schedule settings [Resume 0; Take 1; Resume 1; Resume 0]%nat
                {| world := w; coros := [AwaitRetryDelay task_id task; Returned] |} in
     coros s = [Returned; Returned] ∧
     task_queue (world s) = [] ∧
     ∃ row', store (world s) !! task_id = Some row' ∧ Task.status row' = PENDING).
Proof.
  split_and!.
  { intros fault worlds task_id pre k post. apply resume_at_put_order. }
  2:{ intros task_id task row w Hrow Hst Hq. cbn zeta.
      set (w1 := put task_id (sleep (1000 * RETRY_DELAY settings) w)).
      set (pending := AwaitPendingCommit task_id (Task.set_status PENDING task)).
      change (run_schedule settings [Resume 0; Take 1; Resume 1; Resume 0]%nat
                {| world := w; coros := [AwaitRetryDelay task_id task; Returned] |})
        with (perform settings (Resume 0) (perform settings (Resume 1)
                (perform settings (Take 1)
                   {| world := w1; coros := [pending; Returned] |}))).
      assert (Htake : perform settings (Take 1)
                {| world := w1; coros := [pending; Returned] |} =
                {| world := with_queue [] w1; coros := [pending; AwaitLoad task_id] |}).
      { cbn [perform coros world lookup list_lookup].
        change (task_queue w1) with (task_queue w ++ [task_id]). by rewrite Hq. }
      rewrite Htake.
      assert (Hstale : perform settings (Resume 1)
                {| world := with_queue [] w1; coros := [pending; AwaitLoad task_id] |} =
                {| world := with_queue [] w1; coros := [pending; Returned] |}).
      { cbn [perform coros world lookup list_lookup step].
        change (store (with_queue [] w1)) with (store w).
        rewrite Hrow, decide_False by (by rewrite Hst). done. }
      rewrite Hstale.
      cbn [perform coros world lookup list_lookup step]. unfold pending.
      cbn [step]. erewrite commit_Some by exact Hrow.
      cbn. rewrite lookup_insert_eq. split_and!; [done..|]. by eexists. }
  intros task_id task error w.
  intros Hrow Hst He Hlt.
  rewrite (process_task_failure settings _ task error) by done.
  unfold failed_attempt. apply Z.ltb_lt in Hlt. rewrite Hlt.
  eexists _, (_ :: _), _, _. split; [reflexivity|]. cbn.
  rewrite lookup_insert_eq. repeat split.
  intros i Hin. apply elem_of_cons in Hin as [? | Hin]; [done|].
  unfold handler_failure_point in Hin.
  destruct (json_loads (Task.payload task)); cbn in Hin.
  - apply elem_of_cons in Hin as [? | Hin]; [done|]. by apply elem_of_nil in Hin.
  - by apply elem_of_nil in Hin.
Qed.

End RetryProperties.

Lemma retry_count_after_failures_witness :
  (let trace := (resume_at default_settings None (replicate 6 sample_world)
                   (AwaitLoad 2)).2 in
   (∃ row, trace !! 2%nat = Some (Persisted 2 row) ∧ Task.status row = RETRYING) ∧
   ∀ k row, Persisted k row ∈ trace ->
     (Task.status row = RETRYING ->
        Task.retry_count row = 0 + 1 ∧ 0 + 1 < MAX_RETRIES default_settings) ∧
     (Task.status row = FAILED ->
        Task.retry_count row = 0 + 1 ∧ MAX_RETRIES default_settings ≤ 0 + 1)) ∧
  (let before := attempts default_settings 2 2 sample_world in
   let after := attempts default_settings 3 2 sample_world in
   ∃ row ev,
     process_task default_settings None 2 before = (Returned, after, ev) ∧
     store after !! 2 = Some row ∧
     Task.retry_count row = 3 ∧
     Task.error_message row = Some "'list' object has no attribute 'get'" ∧
     (Task.status row = FAILED ↔ MAX_RETRIES default_settings ≤ 3) ∧
     (MAX_RETRIES default_settings ≤ 3 ->
        task_queue after = task_queue before ∧ ∀ i, Enqueued i ∉ ev) ∧
     (3 < MAX_RETRIES default_settings ->
        Task.status row = PENDING ∧
        task_queue after = task_queue before ++ [2] ∧
        ∃ pre r1,
          ev = pre ++ [Persisted 2 r1; Slept (1000 * RETRY_DELAY default_settings);
                       Enqueued 2; Persisted 2 row] ∧
          Task.status r1 = RETRYING ∧
          Task.retry_count r1 = 3)).
Proof.
  destruct (retry_count_after_failures default_settings) as [Hcall Hattempts].
  split.
  - cbn zeta. split; [eexists; split; [vm_compute; reflexivity|reflexivity]|].
    intros k row.
    exact (Hcall None sample_world (replicate 5 sample_world) 2
             (Task.new "email" (Json (JList [])) 0) k row eq_refl).
  - apply (Hattempts 3%nat 2 (Task.new "email" (Json (JList [])) 0)
             "'list' object has no attribute 'get'" sample_world);
      first [reflexivity | lia | (right; cbn; lia)].
Defined.

(** C1, as stated, fails. With [MAX_RETRIES=2], two passes of the fetcher
    put the identifier of a failing task on the queue twice and two workers
    take one entry each; both load the task with no retry counted, both
    run the handler, which raises, and both are in the retry controller
    with a count of one. Once both failures are handled the task has one
    retry counted, not two, and is PENDING, not FAILED. *)
Lemma overlapping_failures_count_once :
  let s0 := {| world := failing_task_world; coros := [Returned; Returned] |} in
  let handling := run_schedule two_retries
                    [Fetch; Fetch; Take 0; Take 1; Resume 0; Resume 1;
                     Resume 0; Resume 1; Resume 0; Resume 1]%nat s0 in
  let handled := run_schedule two_retries
                   [Resume 0; Resume 1; Resume 0; Resume 1; Resume 0; Resume 1]%nat
                   handling in
  (∃ t0 t1, coros handling = [AwaitRetryingCommit 2 t0; AwaitRetryingCommit 2 t1] ∧
            Task.retry_count t0 = 1 ∧ Task.retry_count t1 = 1) ∧
  coros handled = [Returned; Returned] ∧
  ∃ row,
    store (world handled) !! 2 = Some row ∧
    Task.retry_count row = 1 ∧
    Task.status row = PENDING ∧
    ¬ (Task.status row = FAILED ↔ MAX_RETRIES two_retries ≤ 2).
Proof.
  split; [eexists _, _; split; [vm_compute; reflexivity|by split]|].
  split; [vm_compute; reflexivity|].
  eexists. split; [vm_compute; reflexivity|]. cbn. split_and!; [done..|].
  intros [_ H]. by discriminate H.
Qed.

Lemma retry_enqueues_then_resets_witness :
  (let trace := (resume_at default_settings None (replicate 6 sample_world)
                   (AwaitLoad 2)).2 in
   2 = 2 ∧
   last (persisted_statuses (take 4 trace)) = Some RETRYING ∧
   (∀ i, Enqueued i ∉ take 4 trace ++ drop 5 trace) ∧
   (persisted_statuses (drop 5 trace) = [] ∨
    persisted_statuses (drop 5 trace) = [PENDING])) ∧
  (∃ w' pre r1 r2,
     process_task default_settings None 2 sample_world =
       (Returned, w',
        pre ++ [Persisted 2 r1; Slept (1000 * RETRY_DELAY default_settings);
                Enqueued 2; Persisted 2 r2]) ∧
     Task.status r1 = RETRYING ∧
     Task.status r2 = PENDING ∧
     store w' !! 2 = Some r2 ∧
     task_queue w' = task_queue sample_world ++ [2] ∧
     (∀ i, Enqueued i ∉ pre)) ∧
  (let s := run_schedule default_settings [Resume 0; Take 1; Resume 1; Resume 0]%nat
              {| world := sample_world;
                 coros := [AwaitRetryDelay 4 retrying_task; Returned] |} in
   coros s = [Returned; Returned] ∧
   task_queue (world s) = [] ∧
   ∃ row', store (world s) !! 4 = Some row' ∧ Task.status row' = PENDING).
Proof.
  destruct (retry_enqueues_then_resets default_settings) as (Horder & Halone & Hlost).
  split_and!.
  - cbn zeta.
    apply (Horder None (replicate 6 sample_world) 2
             (take 4 (resume_at default_settings None (replicate 6 sample_world)
                        (AwaitLoad 2)).2)
             2
             (drop 5 (resume_at default_settings None (replicate 6 sample_world)
                        (AwaitLoad 2)).2)).
    vm_compute. reflexivity.
  - apply (Halone 2 (Task.new "email" (Json (JList [])) 0)
             "'list' object has no attribute 'get'" sample_world);
      first [reflexivity | (cbn; lia)].
  - apply (Hlost 4 retrying_task retrying_task sample_world); reflexivity.
Defined.

(** C3, as stated, fails: four steps into the attempt on task 3 the
    identifier is on the queue while the row in the store is still
    RETRYING; the PENDING write is the step after. *)
Lemma queued_while_still_retrying :
  ∃ c w' ev,
    run default_settings None 4 (AwaitLoad 3) sample_world = (c, w', ev) ∧
    finished c = false ∧
    task_queue w' = [3] ∧
    (Task.status <$> store w' !! 3) = Some RETRYING ∧
    last ev = Some (Enqueued 3).
Proof. eexists _, _, _. split; [reflexivity|]. vm_compute. done. Qed.

(** ** Predicates on rows that every write of the engine keeps *)

Section Invariant.
Context (settings : Settings).
Variable P : Z -> Task.t -> Prop.

Hypothesis P_new : ∀ task_id task_type payload now,
  P task_id (Task.new task_type (Json (JDict payload)) now).
Hypothesis P_claim : ∀ task_id task now,
  P task_id task -> Task.status task = PENDING ->
  P task_id (claimed_row now task).
Hypothesis P_complete : ∀ task_id task now r,
  P task_id task -> Task.status task = PENDING ->
  execute_task task_id task = Return r ->
  P task_id (completed_row now r task).
Hypothesis P_fail : ∀ task_id task now error st,
  P task_id task -> Task.status task = PENDING ->
  execute_task task_id task = Raise error ->
  st = RETRYING ∨ st = PENDING ∨ st = FAILED ->
  P task_id (failed_attempt_row st now error task task).

Ltac in_trace H :=
  repeat first
    [ apply elem_of_nil in H; destruct H
    | apply elem_of_cons in H as [H | H]; [try discriminate H|]
    | apply elem_of_app in H as [H | H] ].

Lemma process_task_keeps task_id w :
  map_Forall P (store w) ->
  map_Forall P (store (process_task settings None task_id w).1.2) ∧
  ∀ k row, Persisted k row ∈ (process_task settings None task_id w).2 -> P k row.
Proof.
  intros Hok.
  destruct (store w !! task_id) as [task|] eqn:Hrow;
    [|rewrite process_task_missing by done; split; [done|intros ?? H; in_trace H]].
  destruct (decide (Task.status task = PENDING)) as [Hst|Hst];
    [|rewrite (process_task_not_pending _ _ task) by done;
      split; [done|intros ?? H; in_trace H]].
  pose proof (Hok _ _ Hrow) as HP.
  destruct (execute_task task_id task) as [r|error] eqn:He.
  - rewrite (process_task_success settings _ task r) by done. cbn. split.
    + apply map_Forall_insert_2; [|done]. by apply P_complete.
    + intros k row H. in_trace H; simplify_eq; [by apply P_claim|by apply P_complete].
  - rewrite (process_task_failure settings _ task error) by done.
    unfold failed_attempt, handler_failure_point.
    destruct (_ <? _); cbn; (split;
      [apply map_Forall_insert_2; [|done]; apply P_fail; auto|]);
      intros k row H; destruct (json_loads (Task.payload task)); cbn in H;
      in_trace H; simplify_eq; first [by apply P_claim | apply P_fail; auto].
Qed.

Lemma exec_op_keeps op w :
  map_Forall P (store w) ->
  map_Forall P (store (exec_op settings op w).1) ∧
  ∀ k row, Persisted k row ∈ (exec_op settings op w).2 -> P k row.
Proof.
  intros Hok. destruct op as [ty pl| | |task_id]; cbn.
  - split; [|intros ?? H; in_trace H].
    unfold submit_task. destruct (_ <? _)%nat; [done|].
    apply map_Forall_insert_2; [apply P_new | done].
  - unfold fetch_pass. destruct (_ <? _); cbn; (split; [done|]);
      intros k row H; in_trace H.
    apply list_elem_of_fmap in H as (? & ? & _). done.
  - unfold worker_iteration. destruct (task_queue w) as [|task_id rest] eqn:Hq.
    + cbn. split; [done|]. intros k row H; in_trace H.
    + pose proof (process_task_keeps task_id (with_queue rest w) Hok) as Hk.
      destruct (process_task settings None task_id (with_queue rest w))
        as [[c w'] ev]. exact Hk.
  - split; [|intros ?? H; in_trace H].
    unfold delete_task. destruct (store w !! task_id) as [task|]; [|done].
    destruct (bool_decide _); [done|]. cbn.
    intros k row Hk. apply lookup_delete_Some in Hk as [_ Hk]. by apply Hok in Hk.
Qed.

Lemma exec_keeps ops w :
  map_Forall P (store w) ->
  map_Forall P (store (exec settings ops w).1) ∧
  ∀ k row, Persisted k row ∈ (exec settings ops w).2 -> P k row.
Proof.
  revert w. induction ops as [|op ops IH]; intros w Hok; cbn.
  - split; [done|]. intros ?? H. in_trace H.
  - destruct (exec_op_keeps op w Hok) as [Hok1 Hev1].
    destruct (exec_op settings op w) as [w1 ev1].
    destruct (IH w1 Hok1) as [Hok2 Hev2].
    destruct (exec settings ops w1) as [w2 ev2]. cbn in *.
    split; [done|]. intros k row H. apply elem_of_app in H as [H|H]; eauto.
Qed.

End Invariant.

(** ** The rows under any interleaving *)

Section InterleavedProperties.
Context (settings : Settings).

Lemma same_task_execute task_id (t row : Task.t) :
  same_task t row -> execute_task task_id t = execute_task task_id row.
Proof. intros [Hty Hpl]. by apply execute_task_ext. Qed.

Lemma in_store_extends st st' task_id task :
  store_extends st st' -> in_store st task_id task -> in_store st' task_id task.
Proof.
  intros Hext (row & Hrow & Hty & Hpl).
  destruct (Hext _ _ Hrow) as (row' & Hrow' & Hty' & Hpl').
  exists row'. split; [done|]. split; congruence.
Qed.

Lemma coro_sound_extends st st' c :
  store_extends st st' -> coro_sound st c -> coro_sound st' c.
Proof.
  intros Hext. destruct c; cbn; try done;
    intros [Hin ?]; (split; [|done]); eauto using in_store_extends.
Qed.

Lemma store_extends_refl st : store_extends st st.
Proof. intros task_id row Hrow. by exists row. Qed.

(** Writing columns of a row that is in the store keeps every row the
    same task. *)
Lemma store_extends_flush (st : gmap Z Task.t) task_id cols task row :
  st !! task_id = Some row ->
  store_extends st (<[task_id := flush cols task row]> st) ∧
  same_task row (flush cols task row).
Proof.
  intros Hrow.
  assert (Hsame : same_task row (flush cols task row)).
  { induction cols as [|c cols IH]; [done|]. destruct IH as [Hty Hpl].
    by destruct c. }
  split; [|done]. intros k r Hk. destruct (decide (k = task_id)) as [->|Hne].
  - exists (flush cols task row). rewrite lookup_insert_eq. by simplify_eq.
  - exists r. by rewrite lookup_insert_ne.
Qed.

Lemma as_created_sound task_id t : as_created t -> row_sound task_id t.
Proof.
  intros (Hst & Hr & He & Hrc & Hc). unfold row_sound.
  rewrite Hst, Hr, He, Hrc, Hc.
  split_and!; try done; try lia;
    try (split; intros H; try lia; by destruct H);
    try (intros H; by destruct H); intros [|]; done.
Qed.

(** The rows each commit of the engine writes are sound. *)
Lemma row_sound_claim task_id task row :
  row_sound task_id row ->
  Task.status task = PROCESSING ->
  row_sound task_id (flush [Task.c_status; Task.c_updated_at] task row).
Proof.
  intros (H0 & Hcr & Hc & Hr & He & Hx & Hf) Hst.
  unfold row_sound. cbn. rewrite Hst.
  split_and!; try done.
  - intros H. split; [by right|]. by apply Hr.
  - by intros [|].
Qed.

Lemma row_sound_pending task_id task row :
  row_sound task_id row ->
  Task.status task = PENDING ->
  (∃ e, execute_task task_id row = Raise e) ->
  row_sound task_id (flush [Task.c_status; Task.c_updated_at] task row).
Proof.
  intros (H0 & Hcr & Hc & Hr & He & Hx & Hf) Hst [e Hraise].
  unfold row_sound. cbn. rewrite Hst.
  split_and!; try done.
  - intros H. destruct (Hr H) as [_ [r Hret]]. congruence.
  - by intros [|].
Qed.

Lemma row_sound_completed task_id task row r :
  row_sound task_id row ->
  Task.status task = COMPLETED ->
  Task.result task = Some r ->
  is_Some (Task.completed_at task) ->
  execute_task task_id row = Return r ->
  row_sound task_id
    (flush [Task.c_status; Task.c_result; Task.c_completed_at; Task.c_updated_at]
       task row).
Proof.
  intros (H0 & Hcr & Hc & Hr & He & Hx & Hf) Hst Hres Hstamp Hret.
  unfold row_sound. cbn. rewrite Hst, Hres.
  split_and!; try done.
  - intros _. split; [by left|]. by exists r.
  - by intros [|].
Qed.

Lemma row_sound_failure task_id task row :
  row_sound task_id row ->
  Task.status task = RETRYING ∨ Task.status task = FAILED ->
  0 < Task.retry_count task ->
  is_Some (Task.error_message task) ->
  (∃ e, execute_task task_id row = Raise e) ->
  row_sound task_id
    (flush [Task.c_retry_count; Task.c_error_message; Task.c_updated_at; Task.c_status]
       task row).
Proof.
  intros (H0 & Hcr & Hc & Hr & He & Hx & Hf) Hst Hrc Herr [e Hraise].
  assert (Hnone : ¬ is_Some (Task.result row)).
  { intros H. destruct (Hr H) as [_ [r Hret]]. congruence. }
  unfold row_sound. cbn.
  split_and!; try done; try lia.
  - intros Hcomp. destruct Hst as [Hst|Hst]; congruence.
  - by intros _; exists e.
Qed.

Lemma handle_task_failure_sound st w task_id task error :
  in_store st task_id task ->
  0 ≤ Task.retry_count task ->
  execute_task task_id task = Raise error ->
  coro_sound st (handle_task_failure settings w task_id task error).
Proof.
  intros Hin Hrc Hex. unfold handle_task_failure.
  destruct (_ <? _); cbn; (split; [exact Hin|]);
    (split_and!; [done|lia|by eexists|by exists error]).
Qed.

(** One step of any coroutine, whatever the others have written in
    between. *)
Ltac same_task_tac :=
  unfold same_task in *; cbn in *; destruct_and?; split; congruence.

Lemma step_sound c w :
  map_Forall row_sound (store w) ->
  coro_sound (store w) c ->
  map_Forall row_sound (store (step settings None c w).1.2) ∧
  coro_sound (store (step settings None c w).1.2) (step settings None c w).1.1 ∧
  store_extends (store w) (store (step settings None c w).1.2).
Proof.
  intros Hrows Hc.
  destruct c as [task_id|task_id task|task_id task p|task_id task|task_id task
                |task_id task|task_id task|task_id task| |];
    cbn [step on_exception failure_log_raises].
  - destruct (store w !! task_id) as [task|] eqn:Hrow;
      [|by auto using store_extends_refl].
    case_decide; cbn; [|by auto using store_extends_refl].
    split_and!; auto using store_extends_refl; [by exists task|].
    by destruct (Hrows _ _ Hrow) as (H0 & _).
  - destruct Hc as ((row & Hrow & Hsame) & Hst & Hrc).
    rewrite (commit_Some _ _ _ row) by done.
    destruct (store_extends_flush (store w) task_id
                [Task.c_status; Task.c_updated_at] task row Hrow) as [Hext Hsame'].
    assert (Hin : in_store (<[task_id := flush [Task.c_status; Task.c_updated_at] task row]>
                              (store w)) task_id task).
    { eexists. rewrite lookup_insert_eq. split; [done|].
      same_task_tac. }
    assert (Hrows' : map_Forall row_sound
              (<[task_id := flush [Task.c_status; Task.c_updated_at] task row]> (store w))).
    { apply map_Forall_insert_2; [|done].
      apply row_sound_claim; [by apply (Hrows task_id)|done]. }
    destruct (json_loads (Task.payload task)) as [p|msg] eqn:Hload; cbn.
    + by split_and!.
    + split_and!; [done| |done]. apply handle_task_failure_sound; [done..|].
      unfold execute_task. by rewrite Hload.
  - destruct Hc as (Hin & Hload & Hrc).
    destruct (handler_result task_id task p) as [r|msg] eqn:Hres; cbn.
    + split_and!; auto using store_extends_refl. exists r.
      split; [done|]. unfold execute_task. cbn. by rewrite Hload.
    + split_and!; auto using store_extends_refl.
      apply handle_task_failure_sound; [done..|].
      unfold execute_task. by rewrite Hload.
  - destruct Hc as ((row & Hrow & Hsame) & Hst & Hstamp & r & Hres & Hex).
    rewrite (commit_Some _ _ _ row) by done. cbn.
    destruct (store_extends_flush (store w) task_id
                [Task.c_status; Task.c_result; Task.c_completed_at; Task.c_updated_at]
                task row Hrow) as [Hext Hsame'].
    split_and!; [|done|done]. apply map_Forall_insert_2; [|done].
    apply (row_sound_completed _ _ _ r); [by apply (Hrows task_id)|done..|].
    by rewrite <-(same_task_execute _ task row).
  - destruct Hc as ((row & Hrow & Hsame) & Hst & Hrc & Herr & e & Hex).
    rewrite (commit_Some _ _ _ row) by done. cbn.
    destruct (store_extends_flush (store w) task_id
                [Task.c_retry_count; Task.c_error_message; Task.c_updated_at; Task.c_status]
                task row Hrow) as [Hext Hsame'].
    split_and!; [| |by exists e|done].
    + apply map_Forall_insert_2; [|done].
      apply row_sound_failure; [by apply (Hrows task_id)|by left|done..|].
      exists e. by rewrite <-(same_task_execute _ task row).
    + eexists. rewrite lookup_insert_eq. split; [done|].
      same_task_tac.
  - destruct Hc as (Hin & e & Hex). cbn.
    split_and!; auto using store_extends_refl. by exists e.
  - destruct Hc as ((row & Hrow & Hsame) & Hst & e & Hex).
    rewrite (commit_Some _ _ _ row) by done. cbn.
    destruct (store_extends_flush (store w) task_id
                [Task.c_status; Task.c_updated_at]
                (Task.set_updated_at (clock w) task) row Hrow) as [Hext Hsame'].
    split_and!; [|done|done]. apply map_Forall_insert_2; [|done].
    apply row_sound_pending; [by apply (Hrows task_id)|done|].
    exists e. by rewrite <-(same_task_execute _ task row).
  - destruct Hc as ((row & Hrow & Hsame) & Hst & Hrc & Herr & e & Hex).
    rewrite (commit_Some _ _ _ row) by done. cbn.
    destruct (store_extends_flush (store w) task_id
                [Task.c_retry_count; Task.c_error_message; Task.c_updated_at; Task.c_status]
                task row Hrow) as [Hext Hsame'].
    split_and!; [|done|done]. apply map_Forall_insert_2; [|done].
    apply row_sound_failure; [by apply (Hrows task_id)|by right|done..|].
    exists e. by rewrite <-(same_task_execute _ task row).
  - cbn. auto using store_extends_refl.
  - cbn. auto using store_extends_refl.
Qed.

Lemma perform_sound a s : system_sound s -> system_sound (perform settings a s).
Proof.
  intros [Hrows Hcoros]. destruct a as [|i|i]; cbn [perform].
  - split; cbn; unfold fetch_pass; by destruct (_ <? _).
  - destruct (coros s !! i) as [c|] eqn:Hi; [|done].
    destruct (task_queue (world s)) as [|task_id rest]; [done|].
    destruct (finished c); [|done]. split; [done|]. cbn.
    by apply Forall_insert.
  - destruct (coros s !! i) as [c|] eqn:Hi; [|done].
    assert (Hc : coro_sound (store (world s)) c).
    { rewrite Forall_lookup in Hcoros. by apply (Hcoros i). }
    destruct (step_sound c (world s) Hrows Hc) as (Hrows' & Hc' & Hext).
    destruct (step settings None c (world s)) as [[c' w'] ev]. cbn in *.
    split; [done|]. cbn. apply Forall_insert; [|done].
    eapply Forall_impl; [done|]. intros c0. by apply coro_sound_extends.
Qed.

Lemma run_schedule_sound schedule s :
  system_sound s -> system_sound (run_schedule settings schedule s).
Proof.
  revert s. induction schedule as [|a schedule IH]; intros s Hs; [done|].
  cbn. apply IH. by apply perform_sound.
Qed.

(** From freshly created tasks and idle workers, under every schedule of
    fetcher passes, takes and worker steps, every stored row is sound. *)
Lemma scheduled_rows_sound schedule s k row :
  map_Forall (λ _ t, as_created t) (store (world s)) ->
  Forall (λ c, finished c = true) (coros s) ->
  store (world (run_schedule settings schedule s)) !! k = Some row ->
  row_sound k row.
Proof.
  intros Hnew Hidle Hrow.
  assert (Hs : system_sound s).
  { split.
    - intros i t Hi. apply as_created_sound. by apply (Hnew i).
    - eapply Forall_impl; [done|]. by intros []. }
  destruct (run_schedule_sound schedule s Hs) as [Hrows _].
  by apply (Hrows k).
Qed.

End InterleavedProperties.

(** ** Outcome fields *)

Section OutcomeProperties.
Context (settings : Settings).

Lemma process_task_other_rows task_id k w :
  k ≠ task_id ->
  store (process_task settings None task_id w).1.2 !! k = store w !! k.
Proof.
  intros Hne.
  destruct (store w !! task_id) as [task|] eqn:Hrow;
    [|by rewrite process_task_missing].
  destruct (decide (Task.status task = PENDING)) as [Hst|Hst];
    [|by rewrite (process_task_not_pending _ _ task)].
  destruct (execute_task task_id task) as [r|error] eqn:He.
  - rewrite (process_task_success settings _ task r) by done. cbn.
    by rewrite lookup_insert_ne.
  - rewrite (process_task_failure settings _ task error) by done.
    unfold failed_attempt. destruct (_ <? _); cbn; by rewrite lookup_insert_ne.
Qed.

Lemma completion_stamped_kept ops w :
  map_Forall (λ _ t, completion_stamped t) (store w) ->
  map_Forall (λ _ t, completion_stamped t) (store (exec settings ops w).1) ∧
  ∀ k row, Persisted k row ∈ (exec settings ops w).2 -> completion_stamped row.
Proof.
  apply (exec_keeps settings (λ _ t, completion_stamped t));
    unfold completion_stamped; cbn.
  - intros _ _ _ _. split; [by intros [? ?]|done].
  - intros _ task _ [H1 H2] Hst. rewrite Hst in *. split; [|done].
    intros H. by specialize (H1 H).
  - intros _ task now r _ _ _. split; [done|by eexists].
  - intros _ task _ _ st [H1 H2] Hst _ Hcase. rewrite Hst in *. split.
    + intros H. by specialize (H1 H).
    + intros ->. by destruct Hcase as [|[|]].
Qed.

(** C10 (as the code has it). [completed_at] is assigned in one place,
    the success path, together with COMPLETED and the result, and holds the
    time of that commit; the failure path, through RETRYING and PENDING or
    to FAILED, never assigns it. Hence:
    - a successful attempt persists the claim with the completion time
      untouched and then the COMPLETED row stamped with the time of its
      commit;
    - a failed attempt leaves the completion time as it found it in every
      row it persists, and ends PENDING or FAILED;
    - in a run of whole operations without faults, every row persisted or
      stored has [completed_at] set exactly when it is COMPLETED, and a
      COMPLETED row is not written again by a later call;
    - under any interleaving of the workers' steps, a COMPLETED row is
      stamped and a stamped row is COMPLETED or PROCESSING, so a FAILED,
      RETRYING or PENDING row has no completion time;
    - when the log write after the COMPLETED commit raises, the stamped row
      goes to the retry controller and ends PENDING or FAILED with its
      completion time in place. *)
Theorem completed_at_iff_completed :
  (∀ task_id task r w,
     store w !! task_id = Some task ->
     Task.status task = PENDING ->
     execute_task task_id task = Return r ->
     ∃ w' claimed row,
       process_task settings None task_id w =
         (Returned, w',
          [Persisted task_id claimed; Slept (handler_delay (Task.task_type task));
           Persisted task_id row]) ∧
       Task.status claimed = PROCESSING ∧
       Task.completed_at claimed = Task.completed_at task ∧
       store w' !! task_id = Some row ∧
       Task.status row = COMPLETED ∧
       Task.completed_at row = Some (clock w')) ∧
  (∀ task_id task error w,
     store w !! task_id = Some task ->
     Task.status task = PENDING ->
     execute_task task_id task = Raise error ->
     (∀ k row, Persisted k row ∈ (process_task settings None task_id w).2 ->
        Task.completed_at row = Task.completed_at task) ∧
     ∃ row, store (process_task settings None task_id w).1.2 !! task_id = Some row ∧
            Task.completed_at row = Task.completed_at task ∧
            (Task.status row = PENDING ∨ Task.status row = FAILED)) ∧
  (∀ ops w,
     map_Forall (λ _ t, completion_stamped t) (store w) ->
     (∀ k row,
        store (exec settings ops w).1 !! k = Some row ∨
        Persisted k row ∈ (exec settings ops w).2 ->
        (is_Some (Task.completed_at row) ↔ Task.status row = COMPLETED) ∧
        (Task.status row = FAILED -> Task.completed_at row = None)) ∧
     (∀ k row task_id,
        store w !! k = Some row -> Task.status row = COMPLETED ->
        store (process_task settings None task_id w).1.2 !! k = Some row)) ∧
  (∀ schedule s k row,
     map_Forall (λ _ t, as_created t) (store (world s)) ->
     Forall (λ c, finished c = true) (coros s) ->
     store (world (run_schedule settings schedule s)) !! k = Some row ->
     (Task.status row = COMPLETED -> is_Some (Task.completed_at row)) ∧
     (is_Some (Task.completed_at row) ->
        Task.status row = COMPLETED ∨ Task.status row = PROCESSING) ∧
     (Task.status row = FAILED ∨ Task.status row = RETRYING ∨
      Task.status row = PENDING -> Task.completed_at row = None)) ∧
  (∀ task_id task r msg w,
     store w !! task_id = Some task ->
     Task.status task = PENDING ->
     execute_task task_id task = Return r ->
     ∃ row,
       store (process_task settings (Some (AfterCompletion msg)) task_id w).1.2
         !! task_id = Some row ∧
       is_Some (Task.completed_at row) ∧
       (Task.status row = PENDING ∨ Task.status row = FAILED)).
Proof.
  split_and!.
  - intros task_id task r w Hrow Hst Hex.
    rewrite (process_task_success settings _ task r) by done.
    eexists _, _, _. split; [reflexivity|]. cbn.
    rewrite lookup_insert_eq. by split_and!.
  - intros task_id task error w Hrow Hst Hex.
    rewrite (process_task_failure settings _ task error) by done.
    unfold failed_attempt, handler_failure_point.
    destruct (_ <? _); cbn; (split;
      [|rewrite lookup_insert_eq; eexists; split; [done|]; cbn; by auto]);
      intros k row H; destruct (json_loads (Task.payload task)); cbn in H;
      repeat first
        [ apply elem_of_nil in H; destruct H
        | apply elem_of_cons in H as [H | H]; [try discriminate H|]
        | apply elem_of_app in H as [H | H] ];
      by simplify_eq.
  - intros ops w Hok. destruct (completion_stamped_kept ops w Hok) as [Hst Hev]. split.
    + intros k row Hrow.
      assert (Hc : completion_stamped row) by (destruct Hrow; eauto).
      split; [exact Hc|]. intros Hf. destruct Hc as [Hc _].
      destruct (Task.completed_at row); [|done].
      rewrite Hf in Hc. by discriminate Hc.
    + intros k row task_id Hrow Hc. destruct (decide (k = task_id)) as [->|Hne].
      * rewrite (process_task_not_pending _ _ row); [done..|]. by rewrite Hc.
      * by rewrite process_task_other_rows.
  - intros schedule s k row Hnew Hidle Hrow.
    destruct (scheduled_rows_sound settings schedule s k row Hnew Hidle Hrow)
      as (_ & Hcr & Hc & Hr & _).
    split_and!.
    + intros Hst. apply Hcr. by apply Hc.
    + intros Hstamp. apply Hcr in Hstamp. by destruct (Hr Hstamp) as [? _].
    + intros Hst. destruct (Task.completed_at row) eqn:Hstamp; [|done].
      assert (Hres : is_Some (Task.result row)) by (apply Hcr; by eexists).
      destruct (Hr Hres) as [[Hs|Hs] _]; rewrite Hs in Hst;
        by destruct Hst as [|[|]].
  - intros task_id task r msg w Hrow Hst Hex.
    rewrite (process_task_fault_after_completion settings _ task r) by done.
    unfold completed_then_failed.
    destruct (_ <? _); cbn; rewrite lookup_insert_eq;
      (eexists; split; [done|]); cbn; (split; [by eexists|by auto]).
Qed.

Lemma as_created_consistent task_id t : as_created t -> outcome_consistent task_id t.
Proof.
  intros (Hst & Hr & He & Hrc & _). unfold outcome_consistent.
  rewrite Hst, Hr, He, Hrc.
  repeat split;
    first [done | lia | by intros [? ?] | by intros [|] | intros; lia].
Qed.

Lemma outcome_consistent_kept ops w :
  map_Forall outcome_consistent (store w) ->
  map_Forall outcome_consistent (store (exec settings ops w).1) ∧
  ∀ k row, Persisted k row ∈ (exec settings ops w).2 -> outcome_consistent k row.
Proof.
  apply (exec_keeps settings outcome_consistent).
  - intros task_id ty pl now. by apply as_created_consistent.
  - intros task_id task now (H0 & Hr & He & Hf & Hc & Hx) Hst.
    unfold outcome_consistent. cbn. rewrite Hst in *.
    repeat split;
      try solve [done | lia | apply He | apply Hx | by intros [|]].
    intros H. by apply Hr in H.
  - intros task_id task now r (H0 & Hr & He & Hf & Hc & Hx) Hst Hex.
    unfold outcome_consistent. cbn.
    repeat split;
      try solve [done | lia | apply He | by intros [|] | by eexists].
  - intros task_id task now error st (H0 & Hr & He & Hf & Hc & Hx) Hst Hex Hcase.
    unfold outcome_consistent. cbn. rewrite Hst in *.
    repeat split; try solve [done | lia | by eexists | intros; lia].
    + intros H. by apply Hr in H.
    + intros ->. by destruct Hcase as [|[|]].
    + intros ->. by destruct Hcase as [|[|]].
Qed.

(** C2 (as the code has it). As long as nothing but the handler
    fails:
    - through any run of whole operations from freshly created tasks, in
      every row persisted or stored, [result] is set exactly when the
      status is COMPLETED; [error_message] is set exactly when a retry has
      been counted, hence in FAILED and RETRYING, and it is never cleared;
      the two are never both set;
    - under any interleaving of the workers' steps, a COMPLETED row has its
      result, a row with a result is COMPLETED or PROCESSING,
      [error_message] is set exactly when a retry has been counted, and the
      two are never both set.
    A task whose first attempt failed for another reason and whose retry
    succeeds ends COMPLETED with both [result] and the earlier
    [error_message] set. *)
Theorem outcome_fields :
  (∀ ops w k row,
     map_Forall (λ _ t, as_created t) (store w) ->
     store (exec settings ops w).1 !! k = Some row ∨
     Persisted k row ∈ (exec settings ops w).2 ->
     (is_Some (Task.result row) ↔ Task.status row = COMPLETED) ∧
     (is_Some (Task.error_message row) ↔ 0 < Task.retry_count row) ∧
     (Task.status row = FAILED ∨ Task.status row = RETRYING ->
        is_Some (Task.error_message row)) ∧
     ¬ (is_Some (Task.result row) ∧ is_Some (Task.error_message row))) ∧
  (∀ schedule s k row,
     map_Forall (λ _ t, as_created t) (store (world s)) ->
     Forall (λ c, finished c = true) (coros s) ->
     store (world (run_schedule settings schedule s)) !! k = Some row ->
     (Task.status row = COMPLETED -> is_Some (Task.result row)) ∧
     (is_Some (Task.result row) ->
        Task.status row = COMPLETED ∨ Task.status row = PROCESSING) ∧
     (is_Some (Task.error_message row) ↔ 0 < Task.retry_count row) ∧
     (Task.status row = FAILED ∨ Task.status row = RETRYING ->
        is_Some (Task.error_message row)) ∧
     ¬ (is_Some (Task.result row) ∧ is_Some (Task.error_message row))) ∧
  (∀ task_id task r msg w,
     store w !! task_id = Some task ->
     Task.status task = PENDING ->
     execute_task task_id task = Return r ->
     Task.retry_count task + 1 < MAX_RETRIES settings ->
     let w1 := (process_task settings (Some (AfterClaim msg)) task_id w).1.2 in
     let w2 := (process_task settings None task_id w1).1.2 in
     ∃ row,
       store w2 !! task_id = Some row ∧
       Task.status row = COMPLETED ∧
       Task.result row = Some r ∧
       Task.error_message row = Some msg).
Proof.
  split_and!.
  - intros ops w k row Hnew Hrow.
    assert (Hok : map_Forall outcome_consistent (store w)).
    { intros i t Hi. apply as_created_consistent. by apply (Hnew i). }
    destruct (outcome_consistent_kept ops w Hok) as [Hst Hev].
    assert (Hc : outcome_consistent k row) by (destruct Hrow; eauto).
    destruct Hc as (H0 & Hr & He & Hf & Hc & Hx).
    repeat split; try apply Hr; try apply He.
    + intros H. apply He. by apply Hf.
    + intros [Hres Herr]. apply Hr in Hres. apply He in Herr.
      destruct (Hc Hres) as [r Hret]. destruct (Hx Herr) as [e Hraise]. congruence.
  - intros schedule s k row Hnew Hidle Hrow.
    destruct (scheduled_rows_sound settings schedule s k row Hnew Hidle Hrow)
      as (_ & _ & Hc & Hr & He & Hx & Hf).
    split_and!; [done| |done| |].
    + intros Hres. by destruct (Hr Hres) as [? _].
    + intros Hst. apply He. by apply Hf.
    + intros [Hres Herr]. destruct (Hr Hres) as [_ [r Hret]].
      apply He in Herr. destruct (Hx Herr) as [e Hraise]. congruence.
  - intros task_id task r msg w Hrow Hst Hex Hlt. cbn zeta.
    rewrite (process_task_fault_after_claim settings _ task) by done.
    unfold failed_attempt. apply Z.ltb_lt in Hlt. rewrite Hlt. cbn [fst snd].
    erewrite (process_task_success settings _ _ r);
      [|cbn; apply lookup_insert_eq|done|exact Hex].
    cbn. rewrite lookup_insert_eq. by eexists.
Qed.

End OutcomeProperties.

Lemma sample_world_stamped :
  map_Forall (λ _ t, completion_stamped t) (store sample_world).
Proof.
  unfold sample_world, completion_stamped. cbn [store].
  repeat (apply map_Forall_insert_2; [cbn; split; [by intros [? ?]|done]|]).
  apply map_Forall_empty.
Defined.

Lemma fresh_world_as_created :
  map_Forall (λ _ t, as_created t) (store fresh_world).
Proof.
  unfold fresh_world, as_created. cbn [store].
  repeat (apply map_Forall_insert_2; [by cbn|]).
  apply map_Forall_empty.
Defined.

Lemma single_task_world_as_created :
  map_Forall (λ _ t, as_created t) (store single_task_world).
Proof.
  unfold single_task_world, as_created. cbn [store].
  repeat (apply map_Forall_insert_2; [by cbn|]).
  apply map_Forall_empty.
Defined.

Lemma completed_at_iff_completed_witness :
  (∃ w' claimed row,
     process_task default_settings None 1 sample_world =
       (Returned, w', [Persisted 1 claimed; Slept 100; Persisted 1 row]) ∧
     Task.status claimed = PROCESSING ∧
     Task.completed_at claimed = None ∧
     store w' !! 1 = Some row ∧
     Task.status row = COMPLETED ∧
     Task.completed_at row = Some (clock w')) ∧
  (∃ row, store (process_task default_settings None 2 sample_world).1.2 !! 2 = Some row ∧
          Task.completed_at row = None ∧
          (Task.status row = PENDING ∨ Task.status row = FAILED)) ∧
  (∀ k row,
     store (exec default_settings
              [FetchPass; WorkerIteration; WorkerIteration; WorkerIteration]
              sample_world).1 !! k = Some row ->
     is_Some (Task.completed_at row) ↔ Task.status row = COMPLETED) ∧
  (∀ k row,
     store (world (run_schedule default_settings
                     [Fetch; Take 0; Resume 0; Resume 0; Resume 0; Resume 0]%nat
                     {| world := single_task_world; coros := [Returned] |}))
       !! k = Some row ->
     Task.status row = COMPLETED -> is_Some (Task.completed_at row)) ∧
  (∃ row,
     store (process_task default_settings (Some (AfterCompletion blocked_write)) 1
              sample_world).1.2 !! 1 = Some row ∧
     is_Some (Task.completed_at row) ∧
     (Task.status row = PENDING ∨ Task.status row = FAILED)).
Proof.
  destruct (completed_at_iff_completed default_settings)
    as (Hsuccess & Hfailure & Hruns & Hschedules & Hfault).
  split_and!.
  - exact (Hsuccess 1 (Task.new "email" email_payload 0)
             (JDict [("status", JStr "email_sent"); ("to", JStr "a@b.com")])
             sample_world eq_refl eq_refl eq_refl).
  - exact (proj2 (Hfailure 2 (Task.new "email" (Json (JList [])) 0) list_has_no_get
                    sample_world eq_refl eq_refl eq_refl)).
  - intros k row Hrow.
    apply (proj1 (Hruns [FetchPass; WorkerIteration; WorkerIteration; WorkerIteration]
                    sample_world sample_world_stamped) k row).
    by left.
  - intros k row Hrow.
    apply (Hschedules [Fetch; Take 0; Resume 0; Resume 0; Resume 0; Resume 0]%nat
             {| world := single_task_world; coros := [Returned] |} k row
             single_task_world_as_created); [by repeat constructor|exact Hrow].
  - exact (Hfault 1 (Task.new "email" email_payload 0)
             (JDict [("status", JStr "email_sent"); ("to", JStr "a@b.com")])
             blocked_write sample_world eq_refl eq_refl eq_refl).
Defined.

(** Both runs reach a COMPLETED row: the third worker iteration completes
    task 1, and so does the single worker of the schedule. *)
Example completions_reached :
  (∃ row, Persisted 1 row ∈
            (exec default_settings
               [FetchPass; WorkerIteration; WorkerIteration; WorkerIteration]
               sample_world).2 ∧
          Task.status row = COMPLETED ∧ is_Some (Task.completed_at row)) ∧
  (Task.status <$>
     store (world (run_schedule default_settings
                     [Fetch; Take 0; Resume 0; Resume 0; Resume 0; Resume 0]%nat
                     {| world := single_task_world; coros := [Returned] |})) !! 1)
    = Some COMPLETED.
Proof.
  split; [|vm_compute; reflexivity].
  eexists. split.
  - apply list_elem_of_lookup. exists 17%nat. vm_compute. reflexivity.
  - split; [reflexivity|by eexists].
Qed.

(** C10, as stated, fails. Two passes of the fetcher put identifier 1 on
    the queue twice and two workers take one entry each; both load the task
    while it is PENDING. The first worker completes it; the claim of the
    second then writes PROCESSING over the stamped row, which has a
    completion time without being COMPLETED; when the second worker
    completes it in turn the row is stamped a second time, with a later
    time. *)
Lemma stamped_row_claimed_again :
  let s0 := {| world := single_task_world; coros := [Returned; Returned] |} in
  let s1 := run_schedule default_settings
              [Fetch; Fetch; Take 0; Take 1; Resume 0; Resume 1;
               Resume 0; Resume 0; Resume 0]%nat s0 in
  let s2 := run_schedule default_settings [Resume 1]%nat s1 in
  let s3 := run_schedule default_settings [Resume 1; Resume 1]%nat s2 in
  ∃ row1 row2 row3,
    store (world s1) !! 1 = Some row1 ∧
    Task.status row1 = COMPLETED ∧ Task.completed_at row1 = Some 2110 ∧
    store (world s2) !! 1 = Some row2 ∧
    Task.status row2 = PROCESSING ∧ Task.completed_at row2 = Some 2110 ∧
    ¬ (is_Some (Task.completed_at row2) ↔ Task.status row2 = COMPLETED) ∧
    store (world s3) !! 1 = Some row3 ∧
    Task.status row3 = COMPLETED ∧ Task.completed_at row3 = Some 2210.
Proof.
  eexists _, _, _.
  split; [vm_compute; reflexivity|]. split; [reflexivity|]. split; [reflexivity|].
  split; [vm_compute; reflexivity|]. split; [reflexivity|]. split; [reflexivity|].
  split; [cbn; intros [H _]; by discriminate H|].
  split; [vm_compute; reflexivity|]. by split.
Qed.

Lemma outcome_fields_witness :
  (∀ k row,
     store (exec default_settings [FetchPass; WorkerIteration; WorkerIteration]
              fresh_world).1 !! k = Some row ->
     (is_Some (Task.result row) ↔ Task.status row = COMPLETED) ∧
     (is_Some (Task.error_message row) ↔ 0 < Task.retry_count row) ∧
     (Task.status row = FAILED ∨ Task.status row = RETRYING ->
        is_Some (Task.error_message row)) ∧
     ¬ (is_Some (Task.result row) ∧ is_Some (Task.error_message row))) ∧
  (∀ k row,
     store (world (run_schedule default_settings
                     [Fetch; Fetch; Take 0; Take 1; Resume 0; Resume 1;
                      Resume 0; Resume 0; Resume 0; Resume 1]%nat
                     {| world := single_task_world; coros := [Returned; Returned] |}))
       !! k = Some row ->
     (Task.status row = COMPLETED -> is_Some (Task.result row)) ∧
     (is_Some (Task.result row) ->
        Task.status row = COMPLETED ∨ Task.status row = PROCESSING) ∧
     (is_Some (Task.error_message row) ↔ 0 < Task.retry_count row) ∧
     (Task.status row = FAILED ∨ Task.status row = RETRYING ->
        is_Some (Task.error_message row)) ∧
     ¬ (is_Some (Task.result row) ∧ is_Some (Task.error_message row))) ∧
  (let w1 := (process_task default_settings (Some (AfterClaim blocked_write)) 1
                fresh_world).1.2 in
   let w2 := (process_task default_settings None 1 w1).1.2 in
   ∃ row,
     store w2 !! 1 = Some row ∧
     Task.status row = COMPLETED ∧
     Task.result row =
       Some (JDict [("status", JStr "email_sent"); ("to", JStr "a@b.com")]) ∧
     Task.error_message row = Some blocked_write).
Proof.
  destruct (outcome_fields default_settings) as (Hruns & Hschedules & Hfault).
  split_and!.
  - intros k row Hrow.
    apply (Hruns [FetchPass; WorkerIteration; WorkerIteration] fresh_world k row
             fresh_world_as_created).
    by left.
  - intros k row Hrow.
    apply (Hschedules [Fetch; Fetch; Take 0; Take 1; Resume 0; Resume 1;
                       Resume 0; Resume 0; Resume 0; Resume 1]%nat
             {| world := single_task_world; coros := [Returned; Returned] |} k row
             single_task_world_as_created); [by repeat constructor|exact Hrow].
  - apply (Hfault 1 (Task.new "email" email_payload 0)
             (JDict [("status", JStr "email_sent"); ("to", JStr "a@b.com")])
             blocked_write fresh_world); first [reflexivity | (cbn; lia)].
Defined.

(** C2, as stated, fails: after its first failure task 2 is back to
    PENDING and still carries the error message of that failure. *)
Lemma error_message_outlives_retrying :
  ∃ row,
    store (process_task default_settings None 2 fresh_world).1.2 !! 2 = Some row ∧
    Task.status row = PENDING ∧
    Task.error_message row = Some list_has_no_get ∧
    ¬ (is_Some (Task.error_message row) ↔
       Task.status row = FAILED ∨ Task.status row = RETRYING).
Proof.
  eexists. split; [vm_compute; reflexivity|]. cbn. repeat split.
  intros [H _]. destruct H as [H|H]; [by eexists|discriminate H..].
Qed.

(** ** Exceptions that are not the handler's *)

Section FaultProperties.
Context (settings : Settings).

(** C4 (as the code has it). [process_task] does not tell errors
    apart. An exception raised by the load leaves the call before any
    task is bound and nothing of the task changes. An exception raised
    once the task is claimed, though not by the handler, is handed to
    the retry controller like any other: the retry is counted, the text
    of the exception becomes the error message, and the task goes
    through RETRYING back to PENDING, or to FAILED. The outcome is the
    one a handler failure with the same text has. *)
Theorem faults_reach_retry_controller task_id task msg w :
  store w !! task_id = Some task ->
  Task.status task = PENDING ->
  process_task settings (Some (DuringLoad msg)) task_id w = (Raised, w, []) ∧
  (∃ w' ev row,
     process_task settings (Some (AfterClaim msg)) task_id w = (Returned, w', ev) ∧
     store w' !! task_id = Some row ∧
     Task.retry_count row = Task.retry_count task + 1 ∧
     Task.error_message row = Some msg ∧
     (Task.status row = FAILED ∨
      Task.status row = PENDING ∧
      ∃ r1, Persisted task_id r1 ∈ ev ∧ Task.status r1 = RETRYING)) ∧
  (json_loads (Task.payload task) = Raise msg ->
     process_task settings (Some (AfterClaim msg)) task_id w =
     process_task settings None task_id w).
Proof.
  intros Hrow Hst. split; [reflexivity|]. split.
  - rewrite (process_task_fault_after_claim settings _ task) by done.
    unfold failed_attempt. destruct (_ <? _).
    + eexists _, _, _. split; [reflexivity|]. cbn. rewrite lookup_insert_eq.
      split; [done|]. cbn. repeat split. right. split; [done|].
      eexists. split; [apply list_elem_of_further, list_elem_of_here|done].
    + eexists _, _, _. split; [reflexivity|]. cbn. rewrite lookup_insert_eq.
      split; [done|]. cbn. repeat split. by left.
  - intros Hload.
    rewrite (process_task_fault_after_claim settings _ task) by done.
    rewrite (process_task_failure settings _ task msg); [|done..|].
    + unfold handler_failure_point. by rewrite Hload.
    + unfold execute_task. by rewrite Hload.
Qed.

End FaultProperties.

Lemma faults_reach_retry_controller_witness :
  process_task default_settings (Some (DuringLoad blocked_write)) 1 sample_world =
    (Raised, sample_world, []) ∧
  ∃ w' ev row,
    process_task default_settings (Some (AfterClaim blocked_write)) 1 sample_world =
      (Returned, w', ev) ∧
    store w' !! 1 = Some row ∧
    Task.retry_count row = 0 + 1 ∧
    Task.error_message row = Some blocked_write ∧
    (Task.status row = FAILED ∨
     Task.status row = PENDING ∧
     ∃ r1, Persisted 1 r1 ∈ ev ∧ Task.status r1 = RETRYING).
Proof.
  destruct (faults_reach_retry_controller default_settings 1
              (Task.new "email" email_payload 0) blocked_write sample_world
              eq_refl eq_refl) as (H1 & H2 & _).
  exact (conj H1 H2).
Defined.

(** C4, as stated, fails: the log write after the claim of task 1 cannot
    complete; the task, whose handler would have succeeded, gets a retry
    counted, the text of that error as its message, and is persisted
    RETRYING before it returns to PENDING. *)
Lemma log_fault_changes_task_state :
  ∃ w' ev row r1,
    execute_task 1 (Task.new "email" email_payload 0) =
      Return (JDict [("status", JStr "email_sent"); ("to", JStr "a@b.com")]) ∧
    process_task default_settings (Some (AfterClaim blocked_write)) 1 sample_world =
      (Returned, w', ev) ∧
    store w' !! 1 = Some row ∧
    Task.retry_count row = 1 ∧
    Task.error_message row = Some blocked_write ∧
    Persisted 1 r1 ∈ ev ∧ Task.status r1 = RETRYING.
Proof.
  eexists _, _, _, _. split; [reflexivity|]. split; [reflexivity|].
  split; [vm_compute; reflexivity|]. cbn.
  split; [done|]. split; [done|].
  split; [apply list_elem_of_further, list_elem_of_here|done].
Qed.

(** A fault after the COMPLETED commit is treated the same way: the row
    keeps its result and its completion time and goes back to PENDING. *)
Example fault_after_completion :
  let w' := (process_task default_settings (Some (AfterCompletion blocked_write)) 1
               single_task_world).1.2 in
  (Task.status <$> store w' !! 1) = Some PENDING ∧
  (Task.retry_count <$> store w' !! 1) = Some 1 ∧
  (Task.completed_at <$> store w' !! 1) = Some (Some 110) ∧
  task_queue w' = [1].
Proof. vm_compute. done. Qed.

(** ** The claim under interleaving *)

Section ClaimProperties.
Context (settings : Settings).

Lemma handle_task_failure_proceeded w task_id task error :
  proceeded (handle_task_failure settings w task_id task error) = true.
Proof. unfold handle_task_failure. by destruct (_ <? _). Qed.

(** A claim commit on a row that exists always goes through, whatever the
    row says by then. *)
Lemma step_claim_commit task_id task row w :
  store w !! task_id = Some row ->
  ∃ c w',
    step settings None (AwaitClaimCommit task_id task) w =
      (c, w', [Persisted task_id (flush [Task.c_status; Task.c_updated_at] task row)]) ∧
    proceeded c = true ∧
    is_Some (store w' !! task_id).
Proof.
  intros Hrow. cbn [step on_exception failure_log_raises]. rewrite (commit_Some _ _ _ row) by done.
  destruct (json_loads (Task.payload task)); eexists _, _;
    (split; [reflexivity|]); cbn; rewrite lookup_insert_eq;
    (split; [|by eexists]); [done|apply handle_task_failure_proceeded].
Qed.

Lemma step_load_pending task_id task w :
  store w !! task_id = Some task -> Task.status task = PENDING ->
  step settings None (AwaitLoad task_id) w =
    (AwaitClaimCommit task_id
       (Task.set_updated_at (clock w) (Task.set_status PROCESSING task)), w, []).
Proof. intros Hrow Hst. cbn [step on_exception failure_log_raises]. by rewrite Hrow, decide_True. Qed.

(** C5 (as the code has it). The claim is a check followed by a write
    with a suspension point in between. Of two workers holding the same
    identifier, the one that loads the task after the other has
    committed PROCESSING discards it and writes nothing; when both load
    before either commits, both claims go through and both workers go on
    to execute the task. *)
Theorem claim_is_check_then_act task_id task w :
  store w !! task_id = Some task ->
  Task.status task = PENDING ->
  let s0 := {| world := w; coros := [AwaitLoad task_id; AwaitLoad task_id] |} in
  (∃ c, coros (run_schedule settings [Resume 0; Resume 0; Resume 1]%nat s0)
          = [c; Returned] ∧
        proceeded c = true ∧
        world (run_schedule settings [Resume 0; Resume 0; Resume 1]%nat s0)
          = world (run_schedule settings [Resume 0; Resume 0]%nat s0)) ∧
  (∃ c0 c1, coros (run_schedule settings
                     [Resume 0; Resume 1; Resume 0; Resume 1]%nat s0) = [c0; c1] ∧
            proceeded c0 = true ∧ proceeded c1 = true).
Proof.
  intros Hrow Hst. cbn zeta. split.
  - cbn [run_schedule foldl perform coros world lookup list_lookup].
    rewrite (step_load_pending _ task) by done.
    cbn [list_insert insert coros world lookup list_lookup].
    destruct (step_claim_commit task_id
                (Task.set_updated_at (clock w) (Task.set_status PROCESSING task))
                task w Hrow) as (c & w' & Hstep & Hc & _).
    rewrite Hstep. cbn [list_insert insert coros world lookup list_lookup].
    assert (Hw' : ∃ row, store w' !! task_id = Some row ∧ Task.status row ≠ PENDING).
    { revert Hstep. cbn [step on_exception failure_log_raises]. rewrite (commit_Some _ _ _ task) by done.
      destruct (json_loads _); intros [= _ <-]; cbn;
        rewrite lookup_insert_eq; by eexists. }
    destruct Hw' as (row & Hrow' & Hne).
    cbn [step on_exception failure_log_raises]. rewrite Hrow', decide_False by done. cbn. by exists c.
  - cbn [run_schedule foldl perform coros world lookup list_lookup].
    rewrite (step_load_pending _ task) by done.
    cbn [list_insert insert coros world lookup list_lookup].
    rewrite (step_load_pending _ task) by done.
    cbn [list_insert insert coros world lookup list_lookup].
    destruct (step_claim_commit task_id
                (Task.set_updated_at (clock w) (Task.set_status PROCESSING task))
                task w Hrow) as (c0 & w0 & Hstep0 & Hc0 & [row0 Hrow0]).
    rewrite Hstep0. cbn [list_insert insert coros world lookup list_lookup].
    destruct (step_claim_commit task_id
                (Task.set_updated_at (clock w) (Task.set_status PROCESSING task))
                row0 w0 Hrow0) as (c1 & w1 & Hstep1 & Hc1 & _).
    rewrite Hstep1. cbn [list_insert insert coros world lookup list_lookup].
    by exists c0, c1.
Qed.

End ClaimProperties.

Lemma claim_is_check_then_act_witness :
  let s0 := {| world := single_task_world; coros := [AwaitLoad 1; AwaitLoad 1] |} in
  (∃ c, coros (run_schedule default_settings [Resume 0; Resume 0; Resume 1]%nat s0)
          = [c; Returned] ∧
        proceeded c = true ∧
        world (run_schedule default_settings [Resume 0; Resume 0; Resume 1]%nat s0)
          = world (run_schedule default_settings [Resume 0; Resume 0]%nat s0)) ∧
  (∃ c0 c1, coros (run_schedule default_settings
                     [Resume 0; Resume 1; Resume 0; Resume 1]%nat s0) = [c0; c1] ∧
            proceeded c0 = true ∧ proceeded c1 = true).
Proof.
  apply (claim_is_check_then_act default_settings 1
           (Task.new "email" email_payload 0) single_task_world); reflexivity.
Defined.

(** C5, as stated, fails: two passes of the fetcher put identifier 1 on
    the queue twice, two idle workers take one entry each, both load the
    task while it is PENDING, both commit PROCESSING, and both are then
    running the handler on task 1. *)
Lemma two_workers_execute_one_task :
  let s0 := {| world := single_task_world; coros := [Returned; Returned] |} in
  let queued := run_schedule default_settings [Fetch; Fetch] s0 in
  let raced := run_schedule default_settings
                 [Take 0; Take 1; Resume 0; Resume 1; Resume 0; Resume 1]%nat queued in
  task_queue (world queued) = [1; 1] ∧
  ∃ task payload,
    coros raced = [AwaitHandler 1 task payload; AwaitHandler 1 task payload] ∧
    (Task.status <$> store (world raced) !! 1) = Some PROCESSING.
Proof.
  split; [vm_compute; reflexivity|].
  eexists _, _. split; vm_compute; reflexivity.
Qed.



(** * Further properties of the engine and of the endpoints *)


(** ** What one call may change *)

Section CallProperties.
Context (settings : Settings).
Implicit Types (w : World) (task row : Task.t) (task_id : Z).

(** The store after a call: as it was, or with the row of the identifier,
    which was PENDING, replaced by a row of the same task. *)
Lemma process_task_store_cases fault task_id w :
  store (process_task settings fault task_id w).1.2 = store w ∨
  ∃ row row',
    store w !! task_id = Some row ∧ Task.status row = PENDING ∧
    store (process_task settings fault task_id w).1.2 = <[task_id := row']> (store w) ∧
    same_identity row row'.
Proof.
  apply process_task_cases.
  - by left.
  - by left.
  - intros task r Hrow Hst Hex. right. by exists task, (completed_row (clock w + handler_delay (Task.task_type task)) r task).
  - intros task error pre now Hrow Hst _. right. unfold failed_attempt.
    destruct (_ <? _); cbn; exists task; eexists; by split_and!.
  - intros task r msg _ Hrow Hst Hex. right. unfold completed_then_failed.
    destruct (_ <? _); cbn; exists task; eexists; by split_and!.
  - intros task pre now _ Hrow Hst _. right. exists task; eexists; by split_and!.
  - intros task r _ Hrow Hst Hex. right. exists task; eexists; by split_and!.
Qed.

(** X1. Whatever the fault, a call of [process_task] neither adds nor
    removes a row, leaves every row but the one of its identifier as it is,
    and in that row never changes the task type, the payload or the
    creation time. *)
Theorem process_task_touches_one_row fault task_id w :
  let w' := (process_task settings fault task_id w).1.2 in
  dom (store w') = dom (store w) ∧
  (∀ k, k ≠ task_id -> store w' !! k = store w !! k) ∧
  (∀ row, store w !! task_id = Some row ->
     ∃ row', store w' !! task_id = Some row' ∧ same_identity row row').
Proof.
  cbn zeta.
  destruct (process_task_store_cases fault task_id w)
    as [-> | (row0 & row' & Hrow & Hst & -> & Hsame)].
  - split_and!; [done..|]. intros row Hrow. by exists row.
  - split_and!.
    + apply dom_insert_lookup_L. by eexists.
    + intros k Hne. by rewrite lookup_insert_ne.
    + intros row Hrow'. simplify_eq. rewrite lookup_insert_eq. by eexists.
Qed.

(** X2. Whatever the fault, a call either leaves the retry count and the
    error message of its task as they are, or counts exactly one retry and
    records an error; after a counted retry the task is FAILED exactly
    when the new count has reached [MAX_RETRIES] and PENDING exactly when
    it has not. *)
Theorem retry_counted_at_most_once fault task_id row w :
  store w !! task_id = Some row ->
  ∃ row',
    store (process_task settings fault task_id w).1.2 !! task_id = Some row' ∧
    ((Task.retry_count row' = Task.retry_count row ∧
      Task.error_message row' = Task.error_message row) ∨
     (Task.retry_count row' = Task.retry_count row + 1 ∧
      is_Some (Task.error_message row') ∧
      (Task.status row' = FAILED ↔ MAX_RETRIES settings ≤ Task.retry_count row') ∧
      (Task.status row' = PENDING ↔ Task.retry_count row' < MAX_RETRIES settings))).
Proof.
  intros Hrow. apply process_task_cases.
  - intros _ _. exists row. by auto.
  - exists row. by auto.
  - intros task r Hrow' Hst Hex. simplify_eq. cbn. rewrite lookup_insert_eq.
    eexists. split; [done|]. left. done.
  - intros task error pre now Hrow' Hst _. simplify_eq. unfold failed_attempt.
    destruct (_ <? _) eqn:Hlt; cbn; rewrite lookup_insert_eq;
      (eexists; split; [done|]); right; cbn;
      [apply Z.ltb_lt in Hlt|apply Z.ltb_ge in Hlt];
      (split_and!; [done|by eexists|split|split]); try done; intros; lia.
  - intros task r msg _ Hrow' Hst Hex. simplify_eq. unfold completed_then_failed.
    destruct (_ <? _) eqn:Hlt; cbn; rewrite lookup_insert_eq;
      (eexists; split; [done|]); right; cbn;
      [apply Z.ltb_lt in Hlt|apply Z.ltb_ge in Hlt];
      (split_and!; [done|by eexists|split|split]); try done; intros; lia.
  - intros task pre now _ Hrow' Hst _. simplify_eq. cbn. rewrite lookup_insert_eq.
    eexists. split; [done|]. left. done.
  - intros task r _ Hrow' Hst Hex. simplify_eq. cbn. rewrite lookup_insert_eq.
    eexists. split; [done|]. left. done.
Qed.

(** X3. The statuses a call commits, all into the row of its own task.
    Whatever runs between its suspension points and whichever of the load
    and of its log writes raises, they are the beginning of one of four
    paths: PROCESSING, COMPLETED, RETRYING, PENDING; PROCESSING, COMPLETED,
    FAILED; PROCESSING, RETRYING, PENDING; PROCESSING, FAILED. For a call
    that nothing interleaves with they are: none; PROCESSING then
    COMPLETED; PROCESSING, RETRYING then PENDING; PROCESSING then FAILED;
    only when just the log write after the COMPLETED commit raises,
    PROCESSING, COMPLETED and then RETRYING, PENDING or FAILED; and only
    when the log write of the retry controller raises, PROCESSING alone or
    PROCESSING then COMPLETED, the call ending with that exception. *)
Theorem status_path :
  (∀ fault worlds task_id,
     let ev := (resume_at settings fault worlds (AwaitLoad task_id)).2 in
     (∀ k row, Persisted k row ∈ ev -> k = task_id) ∧
     ∃ path, path ∈ status_paths ∧ persisted_statuses ev `prefix_of` path) ∧
  (∀ fault task_id w,
     let ev := (process_task settings fault task_id w).2 in
     (persisted_statuses ev = [] ∨
      persisted_statuses ev = [PROCESSING; COMPLETED] ∨
      persisted_statuses ev = [PROCESSING; RETRYING; PENDING] ∨
      persisted_statuses ev = [PROCESSING; FAILED]) ∨
     ((∃ msg, fault = Some (AfterCompletion msg)) ∧
      (persisted_statuses ev = [PROCESSING; COMPLETED; RETRYING; PENDING] ∨
       persisted_statuses ev = [PROCESSING; COMPLETED; FAILED])) ∨
     (failure_log_raises fault = true ∧
      (process_task settings fault task_id w).1.1 = Raised ∧
      (persisted_statuses ev = [PROCESSING] ∨
       persisted_statuses ev = [PROCESSING; COMPLETED]))).
Proof.
  split; [intros fault worlds task_id; apply resume_at_status_path|].
  intros fault task_id w. cbn zeta. apply process_task_cases.
  - intros _ _. by auto.
  - by auto.
  - intros task r _ _ _. cbn. by auto.
  - intros task error pre now _ _ Hpre. unfold failed_attempt.
    destruct Hpre as [-> | [d ->]]; destruct (_ <? _); cbn; by auto 6.
  - intros task r msg -> _ _ _. unfold completed_then_failed.
    destruct (_ <? _); cbn; right; left; (split; [by eexists|by auto]).
  - intros task pre now Hlog _ _ Hpre. right. right.
    destruct Hpre as [-> | [d ->]]; cbn; by auto.
  - intros task r Hlog _ _ _. right. right. cbn. by auto.
Qed.

(** X4. Whatever the fault, an iteration of a worker leaves every task
    that is not PENDING exactly as it is: a COMPLETED, FAILED, PROCESSING
    or RETRYING row is never written by a worker that did not claim it. *)
Theorem worker_iteration_skips_settled fault w k row :
  store w !! k = Some row ->
  Task.status row ≠ PENDING ->
  store (worker_iteration settings fault w).1 !! k = Some row.
Proof.
  intros Hrow Hst. unfold worker_iteration.
  destruct (task_queue w) as [|task_id rest]; [done|].
  pose proof (process_task_store_cases fault task_id (with_queue rest w)) as Hcases.
  destruct (process_task settings fault task_id (with_queue rest w)) as [[c w'] ev].
  cbn in *. destruct Hcases as [-> | (row0 & row' & Hrow0 & Hst0 & -> & _)]; [done|].
  rewrite lookup_insert_ne; [done|]. intros ->. by simplify_eq.
Qed.

(** The queue after a call: as it was, or with the identifier appended,
    and then the task is PENDING with an error recorded. *)
Lemma process_task_queue_cases fault task_id w :
  task_queue (process_task settings fault task_id w).1.2 = task_queue w ∨
  (task_queue (process_task settings fault task_id w).1.2 = task_queue w ++ [task_id] ∧
   ∃ row', store (process_task settings fault task_id w).1.2 !! task_id = Some row' ∧
           Task.status row' = PENDING ∧ is_Some (Task.error_message row')).
Proof.
  apply process_task_cases.
  - by left.
  - by left.
  - intros. by left.
  - intros task error pre now _ _ _. unfold failed_attempt.
    destruct (_ <? _); cbn; [right|by left].
    split; [done|]. rewrite lookup_insert_eq. eexists. by split_and!.
  - intros task r msg _ _ _ _. unfold completed_then_failed.
    destruct (_ <? _); cbn; [right|by left].
    split; [done|]. rewrite lookup_insert_eq. eexists. by split_and!.
  - intros. by left.
  - intros. by left.
Qed.

(** X5. An iteration of a worker takes the head of the queue and nothing
    else. Whatever the fault, the queue afterwards is the rest of it, or
    the rest with the same identifier appended at the tail, and then the
    task is PENDING again with an error recorded: a worker enqueues
    nothing but the retry of the task it just ran. *)
Theorem worker_iteration_queue fault w task_id rest :
  task_queue w = task_id :: rest ->
  let w' := (worker_iteration settings fault w).1 in
  task_queue w' = rest ∨
  (task_queue w' = rest ++ [task_id] ∧
   ∃ row', store w' !! task_id = Some row' ∧
           Task.status row' = PENDING ∧ is_Some (Task.error_message row')).
Proof.
  intros Hq. cbn zeta. unfold worker_iteration. rewrite Hq.
  pose proof (process_task_queue_cases fault task_id (with_queue rest w)) as Hcall.
  by destruct (process_task settings fault task_id (with_queue rest w)) as [[c w'] ev].
Qed.

(** X20. When the attempt fails and the log write of the retry controller
    raises in turn, the task is stranded: the call ends with that
    exception, the row keeps the PROCESSING of the claim with its retry
    count and error message as they were, nothing is enqueued, no pass of
    the fetcher selects the task again, and a worker that finds an older
    entry for it discards the entry. *)
Theorem failure_log_fault_strands_task fault task_id task w :
  failure_log_raises fault = true ->
  store w !! task_id = Some task ->
  Task.status task = PENDING ->
  (∃ error, execute_task task_id task = Raise error) ∨
  (∃ msg, fault = Some (AfterClaimAndInFailureHandler msg)) ->
  let w' := (process_task settings fault task_id w).1.2 in
  (process_task settings fault task_id w).1.1 = Raised ∧
  task_queue w' = task_queue w ∧
  (∃ row, store w' !! task_id = Some row ∧
          Task.status row = PROCESSING ∧
          Task.retry_count row = Task.retry_count task ∧
          Task.error_message row = Task.error_message task) ∧
  (∀ limit, task_id ∉ (select_pending limit (store w')).*1) ∧
  process_task settings None task_id w' = (Returned, w', []).
Proof.
  intros Hlog Hrow Hst Hcase. cbn zeta.
  assert (Hcall : ∃ pre now,
            process_task settings fault task_id w =
              abandoned_attempt w task_id task pre now).
  { destruct fault as [[msg|msg|msg|msg|msg|msg]|]; try discriminate Hlog.
    - destruct Hcase as [[error Hex]|[msg' [=]]].
      eexists _, _. apply (process_task_fault_in_failure_handler settings _ _ task error);
        by eauto.
    - eexists _, _. by apply process_task_fault_after_claim_twice.
    - destruct Hcase as [[error Hex]|[msg' [=]]].
      eexists _, _. apply (process_task_fault_in_failure_handler settings _ _ task error);
        by eauto. }
  destruct Hcall as (pre & now & ->). unfold abandoned_attempt. cbn [fst snd].
  assert (Hstored : store {| store := <[task_id := claimed_row (clock w) task]> (store w);
                             task_queue := task_queue w; clock := now |} !! task_id =
                    Some (claimed_row (clock w) task)) by apply lookup_insert_eq.
  split_and!; [done..| | |].
  - eexists. by split_and!.
  - intros limit ([k row] & Hk & Hin)%list_elem_of_fmap. cbn in Hk. subst k.
    apply select_pending_spec in Hin as [Hk Hpending].
    rewrite Hstored in Hk. by simplify_eq.
  - by apply (process_task_not_pending _ _ (claimed_row (clock w) task)).
Qed.

End CallProperties.

Lemma failure_log_fault_strands_task_witness :
  let w' := (process_task default_settings (Some (InFailureHandler blocked_write)) 2
               sample_world).1.2 in
  (process_task default_settings (Some (InFailureHandler blocked_write)) 2
     sample_world).1.1 = Raised ∧
  task_queue w' = task_queue sample_world ∧
  (∃ row, store w' !! 2 = Some row ∧
          Task.status row = PROCESSING ∧
          Task.retry_count row = 0 ∧
          Task.error_message row = None) ∧
  (∀ limit, 2 ∉ (select_pending limit (store w')).*1) ∧
  process_task default_settings None 2 w' = (Returned, w', []).
Proof.
  apply (failure_log_fault_strands_task default_settings
           (Some (InFailureHandler blocked_write)) 2
           (Task.new "email" (Json (JList [])) 0) sample_world);
    [reflexivity..|].
  left. by exists list_has_no_get.
Defined.

Lemma retry_counted_at_most_once_witness :
  ∃ row',
    store (process_task default_settings (Some (AfterCompletion blocked_write)) 1
             sample_world).1.2 !! 1 = Some row' ∧
    ((Task.retry_count row' = 0 ∧ Task.error_message row' = None) ∨
     (Task.retry_count row' = 0 + 1 ∧
      is_Some (Task.error_message row') ∧
      (Task.status row' = FAILED ↔ MAX_RETRIES default_settings ≤ Task.retry_count row') ∧
      (Task.status row' = PENDING ↔ Task.retry_count row' < MAX_RETRIES default_settings))).
Proof.
  exact (retry_counted_at_most_once default_settings
           (Some (AfterCompletion blocked_write)) 1
           (Task.new "email" email_payload 0) sample_world eq_refl).
Defined.

Lemma worker_iteration_skips_settled_witness :
  store (worker_iteration default_settings None
           (with_queue [2; 4] sample_world)).1 !! 4 = Some retrying_task.
Proof.
  apply (worker_iteration_skips_settled default_settings None
           (with_queue [2; 4] sample_world) 4 retrying_task);
    [reflexivity | discriminate].
Defined.

Lemma worker_iteration_queue_witness :
  let w' := (worker_iteration default_settings None
               (with_queue [2; 1] sample_world)).1 in
  task_queue w' = [1] ∨
  (task_queue w' = [1] ++ [2] ∧
   ∃ row', store w' !! 2 = Some row' ∧
           Task.status row' = PENDING ∧ is_Some (Task.error_message row')).
Proof.
  apply (worker_iteration_queue default_settings None
           (with_queue [2; 1] sample_world) 2 [1]). reflexivity.
Defined.

(** ** The retry loop as a whole *)

Section RetryLoop.
Context (settings : Settings).

(** Once the task is no longer PENDING, further attempts are discarded. *)
Lemma attempts_settled n m task_id row w :
  store (attempts settings n task_id w) !! task_id = Some row ->
  Task.status row ≠ PENDING ->
  (n ≤ m)%nat ->
  attempts settings m task_id w = attempts settings n task_id w.
Proof.
  intros Hrow Hst Hle. induction Hle as [|m Hle IH]; [done|].
  rewrite attempts_S, IH. by rewrite (process_task_not_pending _ _ row).
Qed.

Lemma attempts_allowed_pos : (1 ≤ attempts_allowed settings)%nat.
Proof. unfold attempts_allowed. lia. Qed.

(** X6. The retry loop ends. A task created PENDING with no retry counted
    is COMPLETED after its first attempt, or FAILED after exactly
    [max(1, MAX_RETRIES)] attempts with that many retries counted; from then
    on every further attempt leaves the whole world as it is. *)
Theorem retries_come_to_an_end task_id task w :
  store w !! task_id = Some task ->
  Task.status task = PENDING ->
  Task.retry_count task = 0 ->
  ∃ (n : nat) row,
    store (attempts settings n task_id w) !! task_id = Some row ∧
    ((n = 1%nat ∧ Task.status row = COMPLETED) ∨
     (n = attempts_allowed settings ∧ Task.status row = FAILED ∧
      Task.retry_count row = Z.max 1 (MAX_RETRIES settings))) ∧
    ∀ m, (n ≤ m)%nat ->
      attempts settings m task_id w = attempts settings n task_id w.
Proof.
  intros Hrow Hst Hrc. destruct (execute_task task_id task) as [r|error] eqn:Hex.
  - assert (H1 : store (attempts settings 1 task_id w) !! task_id =
              Some (completed_row (clock w + handler_delay (Task.task_type task)) r task)).
    { rewrite attempts_S. cbn [attempts Nat.iter nat_rect].
      rewrite (process_task_success settings _ task r) by done.
      cbn. apply lookup_insert_eq. }
    eexists 1%nat, _. split; [exact H1|]. split; [by left|].
    intros m Hm. by eapply attempts_settled.
  - pose proof attempts_allowed_pos as Hpos.
    destruct (attempts_allowed settings) as [|k] eqn:Hn; [lia|].
    destruct (attempts_still_pending settings task_id task error w k Hrow Hst Hrc Hex)
      as (row & Hrow' & Hst' & Hrc' & Hty & Hpl).
    { unfold attempts_allowed in Hn. lia. }
    assert (He' : execute_task task_id row = Raise error)
      by (by rewrite (execute_task_ext _ row task)).
    assert (HS : store (attempts settings (S k) task_id w) !! task_id =
              Some (failed_attempt_row FAILED
                      (handler_failure_point (attempts settings k task_id w) row).2
                      error row row)).
    { rewrite attempts_S. rewrite (process_task_failure settings _ row error) by done.
      unfold failed_attempt.
      destruct (Task.retry_count row + 1 <? MAX_RETRIES settings) eqn:Hlt.
      - apply Z.ltb_lt in Hlt. unfold attempts_allowed in Hn. lia.
      - cbn. apply lookup_insert_eq. }
    eexists (S k), _. split; [exact HS|]. split.
    + right. split_and!; [done..|]. cbn. unfold attempts_allowed in Hn. lia.
    + intros m Hm. by eapply attempts_settled.
Qed.

End RetryLoop.

Lemma retries_come_to_an_end_witness :
  ∃ (n : nat) row,
    store (attempts default_settings n 2 sample_world) !! 2 = Some row ∧
    ((n = 1%nat ∧ Task.status row = COMPLETED) ∨
     (n = attempts_allowed default_settings ∧ Task.status row = FAILED ∧
      Task.retry_count row = Z.max 1 (MAX_RETRIES default_settings))) ∧
    ∀ m, (n ≤ m)%nat ->
      attempts default_settings m 2 sample_world =
      attempts default_settings n 2 sample_world.
Proof.
  apply (retries_come_to_an_end default_settings 2
           (Task.new "email" (Json (JList [])) 0) sample_world); reflexivity.
Defined.

(** ** The handlers *)

Section HandlerProperties.

Lemma payload_get_dict items key default :
  payload_get (JDict items) key default = Return (dict_get key items default).
Proof. reflexivity. Qed.

Lemma payload_get_not_dict v key default :
  is_dict v = false ->
  payload_get v key default =
    Raise ("'" +:+ py_type_name v +:+ "' object has no attribute 'get'").
Proof. by destruct v. Qed.

(** X7. [execute_task] raises in two cases only: the payload is not JSON,
    and the error is the decoder's; or the task is an email or a data
    processing task whose payload is JSON but not an object, and the error
    is that of the missing [get]. Report generation and unknown task types
    accept any JSON payload. *)
Theorem execute_task_raises_iff task_id task error :
  execute_task task_id task = Raise error ↔
  Task.payload task = NotJson error ∨
  ∃ v, Task.payload task = Json v ∧ is_dict v = false ∧
       (Task.task_type task = "email" ∨ Task.task_type task = "data_processing") ∧
       error = "'" +:+ py_type_name v +:+ "' object has no attribute 'get'".
Proof.
  unfold execute_task, handler_result.
  destruct (Task.payload task) as [v|e] eqn:Hpl; cbn.
  - destruct (String.eqb_spec (Task.task_type task) "email") as [Hty|Hty].
    + destruct (is_dict v) eqn:Hd.
      * destruct v; try discriminate Hd. cbn. split; [done|].
        intros [|(v' & ? & ? & _)]; [done|]. by simplify_eq.
      * rewrite payload_get_not_dict by done. split.
        -- intros [= <-]. right. exists v. by auto.
        -- intros [|(v' & ? & _ & _ & ->)]; [done|]. by simplify_eq.
    + destruct (String.eqb_spec (Task.task_type task) "data_processing") as [Hty'|Hty'].
      * destruct (is_dict v) eqn:Hd.
        -- destruct v; try discriminate Hd. cbn. split; [done|].
           intros [|(v' & ? & ? & _)]; [done|]. by simplify_eq.
        -- rewrite payload_get_not_dict by done. split.
           ++ intros [= <-]. right. exists v. by auto.
           ++ intros [|(v' & ? & _ & _ & ->)]; [done|]. by simplify_eq.
      * destruct (String.eqb (Task.task_type task) "report_generation");
          (split; [done|]); by intros [|(v' & _ & _ & [|] & _)].
  - split.
    + intros [= ->]. by left.
    + intros [[= ->]|(v' & ? & _)]; done.
Qed.

Lemma execute_task_on_dict task_id task items :
  Task.payload task = Json (JDict items) ->
  ∃ r, execute_task task_id task = Return r.
Proof.
  intros Hpl. unfold execute_task, handler_result. rewrite Hpl. cbn.
  repeat (destruct (String.eqb _ _)); by eexists.
Qed.

End HandlerProperties.

(** ** Submission *)

Section SubmitProperties.
Context (settings : Settings).

Lemma foldr_max_ge (l : list Z) k : k ∈ l -> k ≤ foldr Z.max 0 l.
Proof.
  induction l as [|x l IH]; [by intros ?%elem_of_nil|].
  intros [->|Hin]%elem_of_cons; cbn; [lia|]. specialize (IH Hin). lia.
Qed.

Lemma fresh_id_unused (st : gmap Z Task.t) : st !! fresh_id st = None.
Proof.
  destruct (st !! fresh_id st) as [row|] eqn:Hrow; [|done].
  assert (Hin : fresh_id st ∈ (map_to_list st).*1).
  { apply list_elem_of_fmap. exists (fresh_id st, row). split; [done|].
    by apply elem_of_map_to_list. }
  apply foldr_max_ge in Hin. unfold fresh_id in Hin. lia.
Qed.

(** X8. A task submitted through [POST /tasks] never fails in its handler:
    whatever its payload and its type (of at most the 50 characters of the
    column), the submission leaves the tasks already stored as they are and
    puts nothing on the queue, and the first attempt on the new task writes
    PROCESSING then COMPLETED and stores the value the handler returned,
    with no retry counted and no error. *)
Theorem submitted_task_completes task_type payload w :
  (String.length task_type ≤ 50)%nat ->
  let task_id := fresh_id (store w) in
  let task := Task.new task_type (Json (JDict payload)) (clock w) in
  let w1 := (submit_task task_type payload w).2 in
  (submit_task task_type payload w).1 = Ok (task_id, task) ∧
  (∀ k row, store w !! k = Some row -> store w1 !! k = Some row) ∧
  task_queue w1 = task_queue w ∧
  ∃ r w2 ev row,
    execute_task task_id task = Return r ∧
    process_task settings None task_id w1 = (Returned, w2, ev) ∧
    persisted_statuses ev = [PROCESSING; COMPLETED] ∧
    store w2 !! task_id = Some row ∧
    Task.status row = COMPLETED ∧
    Task.result row = Some r ∧
    Task.retry_count row = 0 ∧
    Task.error_message row = None.
Proof.
  intros Hlen. cbn zeta. unfold submit_task.
  destruct (Nat.ltb_spec 50 (String.length task_type)) as [Hlong|_]; [lia|].
  split; [done|]. split; [|split; [done|]].
  - intros k row Hrow. cbn. rewrite lookup_insert_ne; [done|].
    intros <-. by rewrite fresh_id_unused in Hrow.
  - destruct (execute_task_on_dict (fresh_id (store w))
                (Task.new task_type (Json (JDict payload)) (clock w)) payload eq_refl)
      as [r Hex].
    exists r. eexists _, _, _. split; [done|].
    rewrite (process_task_success settings _
               (Task.new task_type (Json (JDict payload)) (clock w)) r);
      [|cbn; apply lookup_insert_eq|done|done].
    split; [reflexivity|]. cbn. rewrite lookup_insert_eq. by split_and!.
Qed.

End SubmitProperties.

Lemma submitted_task_completes_witness :
  let task_id := fresh_id (store sample_world) in
  let task := Task.new "unknown" (Json (JDict [("n", JInt 1)])) (clock sample_world) in
  let w1 := (submit_task "unknown" [("n", JInt 1)] sample_world).2 in
  (submit_task "unknown" [("n", JInt 1)] sample_world).1 = Ok (task_id, task) ∧
  (∀ k row, store sample_world !! k = Some row -> store w1 !! k = Some row) ∧
  task_queue w1 = task_queue sample_world ∧
  ∃ r w2 ev row,
    execute_task task_id task = Return r ∧
    process_task default_settings None task_id w1 = (Returned, w2, ev) ∧
    persisted_statuses ev = [PROCESSING; COMPLETED] ∧
    store w2 !! task_id = Some row ∧
    Task.status row = COMPLETED ∧
    Task.result row = Some r ∧
    Task.retry_count row = 0 ∧
    Task.error_message row = None.
Proof.
  apply (submitted_task_completes default_settings "unknown" [("n", JInt 1)]
           sample_world). cbn. lia.
Defined.

(** ** The fetcher, pass after pass *)

Section FetcherPasses.
Context (settings : Settings).

Lemma select_pending_NoDup limit (st : gmap Z Task.t) :
  NoDup (select_pending limit st).*1.
Proof.
  unfold select_pending.
  eapply sublist_NoDup; [apply (NoDup_fst_map_to_list st)|].
  apply fmap_sublist. etrans; [apply sublist_take|apply sublist_filter].
Qed.

(** X9. When the PENDING tasks are no more than [2 * pool_size], one pass
    of the fetcher enqueues every one of them, each exactly once: no
    PENDING task is left out of a pass that has room for it. *)
Theorem fetch_pass_takes_every_pending w :
  Z.of_nat (count_status PENDING (store w)) ≤ 2 * WORKER_POOL_SIZE settings ->
  ∃ ids,
    task_queue (fetch_pass settings w).1 = task_queue w ++ ids ∧
    NoDup ids ∧
    ∀ task_id,
      task_id ∈ ids ↔
      ∃ task, store w !! task_id = Some task ∧ Task.status task = PENDING.
Proof.
  intros Hroom. unfold fetch_pass.
  destruct (WORKER_POOL_SIZE settings * 2 <? 0) eqn:Hneg; [lia|].
  exists (select_pending (WORKER_POOL_SIZE settings * 2) (store w)).*1.
  split; [done|]. split; [apply select_pending_NoDup|].
  intros task_id. split.
  - intros ([k task] & -> & Hin)%list_elem_of_fmap.
    exists task. by apply select_pending_spec in Hin.
  - intros (task & Hrow & Hst). apply list_elem_of_fmap. exists (task_id, task).
    split; [done|]. unfold select_pending. rewrite take_ge.
    + apply list_elem_of_filter. split; [done|]. by apply elem_of_map_to_list.
    + unfold count_status in Hroom. lia.
Qed.

(** X10. The fetcher does not remember what it has enqueued: as long as no
    worker has claimed anything, every pass appends the same identifiers
    again, so after [n] passes the queue holds [n] copies of them. No pass
    changes the store. *)
Theorem fetch_passes_repeat w :
  ∃ ids,
    task_queue (fetch_pass settings w).1 = task_queue w ++ ids ∧
    ∀ n : nat,
      let w' := Nat.iter n (λ w, (fetch_pass settings w).1) w in
      store w' = store w ∧
      task_queue w' = task_queue w ++ concat (replicate n ids).
Proof.
  pose (fetched := λ st : gmap Z Task.t,
          if WORKER_POOL_SIZE settings * 2 <? 0 then []
          else (select_pending (WORKER_POOL_SIZE settings * 2) st).*1).
  assert (Hpass : ∀ w0, store (fetch_pass settings w0).1 = store w0 ∧
            task_queue (fetch_pass settings w0).1 = task_queue w0 ++ fetched (store w0)).
  { intros w0. unfold fetch_pass, fetched. destruct (_ <? _); cbn; [|done].
    by rewrite app_nil_r. }
  exists (fetched (store w)). split; [apply Hpass|].
  intros n. cbn zeta. induction n as [|n [IHs IHq]].
  - cbn. by rewrite app_nil_r.
  - change (Nat.iter (S n) ?f w) with (f (Nat.iter n f w)). cbn beta.
    destruct (Hpass (Nat.iter n (λ w, (fetch_pass settings w).1) w)) as [Hs Hq].
    split; [congruence|]. rewrite Hq, IHq, IHs.
    rewrite <-(assoc_L (++)). f_equal.
    generalize (fetched (store w)). clear. intros ids.
    induction n as [|n IH]; cbn; [by rewrite app_nil_r|].
    by rewrite <-(assoc_L (++)), IH.
Qed.

End FetcherPasses.

Lemma fetch_pass_takes_every_pending_witness :
  ∃ ids,
    task_queue (fetch_pass default_settings sample_world).1 =
      task_queue sample_world ++ ids ∧
    NoDup ids ∧
    ∀ task_id,
      task_id ∈ ids ↔
      ∃ task, store sample_world !! task_id = Some task ∧ Task.status task = PENDING.
Proof.
  apply (fetch_pass_takes_every_pending default_settings sample_world).
  vm_compute. discriminate.
Defined.

(** ** Listing and counting *)

Section ListingProperties.

#[local] Instance newest_first_total : Total newest_first.
Proof. intros a b. unfold newest_first. lia. Qed.

#[local] Instance newest_first_trans : Transitive newest_first.
Proof. intros a b c. unfold newest_first. lia. Qed.

(** X11. [GET /tasks] with a limit [>= 0] answers with at most [limit]
    tasks, each one stored and of the requested status, none twice, newest
    first; and it keeps the newest: a stored task of the requested status
    that is left out was created no later than any task in the answer. *)
Theorem get_all_tasks_newest status limit w :
  0 ≤ limit ->
  ∃ tasks,
    get_all_tasks status limit w = Ok tasks ∧
    Z.of_nat (length tasks) ≤ limit ∧
    (∀ task_id task, (task_id, task) ∈ tasks ->
       store w !! task_id = Some task ∧ has_status status task) ∧
    NoDup tasks.*1 ∧
    StronglySorted newest_first tasks ∧
    (∀ task_id task kept,
       store w !! task_id = Some task -> has_status status task ->
       (task_id, task) ∉ tasks -> kept ∈ tasks ->
       Task.created_at task ≤ Task.created_at kept.2).
Proof.
  intros Hlimit. unfold get_all_tasks.
  destruct (limit <? 0) eqn:Hneg; [lia|].
  set (matching := filter (λ kt : Z * Task.t, has_status status kt.2)
                     (map_to_list (store w))).
  set (sorted := merge_sort newest_first matching).
  assert (Hperm : sorted ≡ₚ matching) by apply merge_sort_Permutation.
  assert (Hsorted : StronglySorted newest_first sorted)
    by apply (StronglySorted_merge_sort _).
  assert (Hin : ∀ task_id task, (task_id, task) ∈ sorted ↔
            store w !! task_id = Some task ∧ has_status status task).
  { intros task_id task. rewrite Hperm. unfold matching.
    rewrite list_elem_of_filter, elem_of_map_to_list. cbn. tauto. }
  eexists. split; [reflexivity|]. split_and!.
  - rewrite length_take. lia.
  - intros task_id task Htake. apply Hin. by apply subseteq_take in Htake.
  - eapply sublist_NoDup; [|apply fmap_sublist, sublist_take].
    rewrite Hperm. unfold matching.
    eapply sublist_NoDup; [apply (NoDup_fst_map_to_list (store w))|].
    apply fmap_sublist, sublist_filter.
  - rewrite <-(take_drop (Z.to_nat limit) sorted) in Hsorted.
    by apply StronglySorted_app_1_l in Hsorted.
  - intros task_id task kept Hrow Hst Hout Hkept.
    assert (Hhere : (task_id, task) ∈ sorted) by (by apply Hin).
    rewrite <-(take_drop (Z.to_nat limit) sorted) in Hhere, Hsorted.
    apply elem_of_app in Hhere as [Hhere|Hhere]; [done|].
    by apply (StronglySorted_app_1_elem_of _ _ _ kept (task_id, task)) in Hsorted.
Qed.

Lemma count_by_status (l : list (Z * Task.t)) :
  (length (filter (λ kt, Task.status kt.2 = PENDING) l) +
   length (filter (λ kt, Task.status kt.2 = PROCESSING) l) +
   length (filter (λ kt, Task.status kt.2 = COMPLETED) l) +
   length (filter (λ kt, Task.status kt.2 = FAILED) l) +
   length (filter (λ kt, Task.status kt.2 = RETRYING) l))%nat = length l.
Proof.
  induction l as [|kt l IH]; [done|].
  rewrite !filter_cons. destruct (Task.status kt.2);
    repeat case_decide; try done; cbn; lia.
Qed.

(** X12. The five counts of [GET /stats], listed under the values of the
    statuses in the order of the enumeration, add up to the number of
    stored tasks: every task is counted under exactly one status. *)
Theorem get_stats_counts_every_task worker_pool w :
  (statistics (get_stats worker_pool w)).*1 =
    ["pending"; "processing"; "completed"; "failed"; "retrying"] ∧
  sum_list (statistics (get_stats worker_pool w)).*2 = size (store w).
Proof.
  split; [done|]. cbn. unfold count_status.
  rewrite <-length_map_to_list, <-(count_by_status (map_to_list (store w))). lia.
Qed.

End ListingProperties.

Lemma get_all_tasks_newest_witness :
  ∃ tasks,
    get_all_tasks (Some PENDING) 2 sample_world = Ok tasks ∧
    Z.of_nat (length tasks) ≤ 2 ∧
    (∀ task_id task, (task_id, task) ∈ tasks ->
       store sample_world !! task_id = Some task ∧ has_status (Some PENDING) task) ∧
    NoDup tasks.*1 ∧
    StronglySorted newest_first tasks ∧
    (∀ task_id task kept,
       store sample_world !! task_id = Some task -> has_status (Some PENDING) task ->
       (task_id, task) ∉ tasks -> kept ∈ tasks ->
       Task.created_at task ≤ Task.created_at kept.2).
Proof. apply (get_all_tasks_newest (Some PENDING) 2 sample_world). lia. Defined.

(** ** What the result endpoint answers after a run *)

Section ResultProperties.
Context (settings : Settings).

Lemma as_created_history task_id t :
  as_created t -> history_consistent settings task_id t.
Proof.
  intros (Hst & _ & _ & Hrc & _). unfold history_consistent.
  rewrite Hst, Hrc. split_and!; [by left|done..].
Qed.

Lemma process_task_keeps_history task_id w :
  map_Forall (history_consistent settings) (store w) ->
  map_Forall (history_consistent settings)
    (store (process_task settings None task_id w).1.2).
Proof.
  intros Hok.
  destruct (store w !! task_id) as [task|] eqn:Hrow;
    [|by rewrite process_task_missing].
  destruct (decide (Task.status task = PENDING)) as [Hst|Hst];
    [|by rewrite (process_task_not_pending _ _ task)].
  destruct (Hok _ _ Hrow) as (Hpending & _ & _). specialize (Hpending Hst).
  destruct (execute_task task_id task) as [r|error] eqn:Hex.
  - rewrite (process_task_success settings _ task r) by done. cbn.
    apply map_Forall_insert_2; [|done]. unfold history_consistent. cbn.
    split_and!; [done..|]. intros _. by eexists _, _.
  - rewrite (process_task_failure settings _ task error) by done.
    unfold failed_attempt.
    destruct (_ <? _) eqn:Hlt; cbn; (apply map_Forall_insert_2; [|done]);
      unfold history_consistent; cbn;
      [apply Z.ltb_lt in Hlt|apply Z.ltb_ge in Hlt]; split_and!; try done.
    + intros _. lia.
    + intros _. split; [lia|]. by exists error.
Qed.

Lemma exec_keeps_history ops w :
  map_Forall (history_consistent settings) (store w) ->
  map_Forall (history_consistent settings) (store (exec settings ops w).1).
Proof.
  revert w. induction ops as [|op ops IH]; intros w Hok; [done|]. cbn.
  assert (Hop : map_Forall (history_consistent settings)
                  (store (exec_op settings op w).1)).
  { destruct op as [ty pl| | |task_id]; cbn.
    - unfold submit_task. destruct (_ <? _)%nat; [done|].
      apply map_Forall_insert_2; [|done]. by apply as_created_history.
    - unfold fetch_pass. by destruct (_ <? _).
    - unfold worker_iteration. destruct (task_queue w) as [|task_id rest]; [done|].
      pose proof (process_task_keeps_history task_id (with_queue rest w) Hok) as Hk.
      by destruct (process_task settings None task_id (with_queue rest w)) as [[c w'] ev].
    - unfold delete_task. destruct (store w !! task_id) as [task|]; [|done].
      destruct (bool_decide _); [done|]. cbn.
      intros k row Hk. apply lookup_delete_Some in Hk as [_ Hk]. by apply Hok in Hk. }
  destruct (exec_op settings op w) as [w1 ev1]. specialize (IH w1 Hop).
  by destruct (exec settings ops w1) as [w2 ev2].
Qed.

(** X13. After any run of the engine from freshly created tasks,
    [GET /tasks/{id}/result] answers for a COMPLETED task with the value
    its handler returns and a completion time; for a FAILED task with the
    error its handler raises and a retry count of [max(1, MAX_RETRIES)];
    and for a PENDING task with the still-processing message. *)
Theorem result_endpoint_after_run ops w task_id row :
  map_Forall (λ _ t, as_created t) (store w) ->
  store (exec settings ops w).1 !! task_id = Some row ->
  (Task.status row = COMPLETED ->
     ∃ r c, execute_task task_id row = Return r ∧
            get_task_result task_id (exec settings ops w).1 =
              Ok (ResultOutcome "completed" (Some r) (Some c))) ∧
  (Task.status row = FAILED ->
     ∃ e, execute_task task_id row = Raise e ∧
          get_task_result task_id (exec settings ops w).1 =
            Ok (ResultFailed "failed" (Some e) (Z.max 1 (MAX_RETRIES settings)))) ∧
  (Task.status row = PENDING ->
     get_task_result task_id (exec settings ops w).1 =
       Ok (StillProcessing "pending" "Task is still processing")).
Proof.
  intros Hnew Hrow.
  assert (Hok : map_Forall (history_consistent settings) (store w)).
  { intros k t Hk. apply as_created_history. by apply (Hnew k). }
  destruct (exec_keeps_history ops w Hok _ _ Hrow) as (_ & Hfailed & Hcompleted).
  unfold get_task_result. rewrite Hrow. split_and!.
  - intros Hst. destruct (Hcompleted Hst) as (r & c & Hres & Hc & Hex).
    exists r, c. split; [done|]. rewrite Hst, Hres, Hc.
    rewrite bool_decide_eq_false_2 by (by intros [|]).
    by rewrite bool_decide_eq_false_2.
  - intros Hst. destruct (Hfailed Hst) as (Hrc & e & He & Hex).
    exists e. split; [done|]. rewrite Hst, He, Hrc.
    rewrite bool_decide_eq_false_2 by (by intros [|]).
    by rewrite bool_decide_eq_true_2.
  - intros Hst. rewrite Hst. by rewrite bool_decide_eq_true_2 by (by left).
Qed.

(** X14. A task in its retry delay is neither reported as still
    processing nor as failed: for a RETRYING row that a run from freshly
    created tasks has persisted, the result endpoint answers in the shape
    of a finished task, with status [retrying], no result and no
    completion time; the error of the failed attempt is not shown. *)
Theorem result_endpoint_while_retrying ops w w' task_id row :
  map_Forall (λ _ t, as_created t) (store w) ->
  Persisted task_id row ∈ (exec settings ops w).2 ->
  Task.status row = RETRYING ->
  store w' !! task_id = Some row ->
  is_Some (Task.error_message row) ∧
  get_task_result task_id w' = Ok (ResultOutcome "retrying" None None).
Proof.
  intros Hnew Hev Hst Hrow.
  assert (Hok : map_Forall outcome_consistent (store w)).
  { intros k t Hk. apply as_created_consistent. by apply (Hnew k). }
  assert (Hok' : map_Forall (λ _ t, completion_stamped t) (store w)).
  { intros k t Hk. destruct (Hnew k t Hk) as (Hs & _ & _ & _ & Hc).
    unfold completion_stamped. rewrite Hs, Hc. split; [by intros [? ?]|done]. }
  destruct (outcome_consistent_kept settings ops w Hok) as [_ Hev1].
  destruct (completion_stamped_kept settings ops w Hok') as [_ Hev2].
  destruct (Hev1 _ _ Hev) as (_ & Hres & Herr & Hf & _).
  pose proof (Hev2 _ _ Hev) as Hc. unfold completion_stamped in Hc.
  rewrite Hst in *. split; [apply Herr, Hf; by right|].
  unfold get_task_result. rewrite Hrow, Hst.
  rewrite bool_decide_eq_false_2 by (by intros [|]).
  rewrite bool_decide_eq_false_2 by done.
  destruct (Task.result row) as [r|]; [by destruct Hres as [Hres _]; discriminate Hres|].
  destruct (Task.completed_at row) as [c|]; [by destruct Hc as [Hc _]; discriminate Hc|].
  done.
Qed.

End ResultProperties.

Lemma result_endpoint_after_run_witness :
  let w' := (exec default_settings [FetchPass; WorkerIteration; WorkerIteration]
               fresh_world).1 in
  ∃ row,
    store w' !! 1 = Some row ∧
    (Task.status row = COMPLETED ->
       ∃ r c, execute_task 1 row = Return r ∧
              get_task_result 1 w' = Ok (ResultOutcome "completed" (Some r) (Some c))) ∧
    (Task.status row = FAILED ->
       ∃ e, execute_task 1 row = Raise e ∧
            get_task_result 1 w' =
              Ok (ResultFailed "failed" (Some e) (Z.max 1 (MAX_RETRIES default_settings)))) ∧
    (Task.status row = PENDING ->
       get_task_result 1 w' = Ok (StillProcessing "pending" "Task is still processing")).
Proof.
  cbn zeta. eexists. split; [vm_compute; reflexivity|].
  apply (result_endpoint_after_run default_settings
           [FetchPass; WorkerIteration; WorkerIteration] fresh_world 1 _
           fresh_world_as_created).
  vm_compute. reflexivity.
Defined.

Lemma result_endpoint_while_retrying_witness :
  is_Some (Task.error_message retrying_task) ∧
  get_task_result 2 (with_store {[ 2 := retrying_task ]} fresh_world) =
    Ok (ResultOutcome "retrying" None None).
Proof.
  apply (result_endpoint_while_retrying default_settings [WorkerIteration]
           (with_queue [2] fresh_world)
           (with_store {[ 2 := retrying_task ]} fresh_world) 2 retrying_task).
  - exact fresh_world_as_created.
  - apply list_elem_of_lookup. exists 2%nat. vm_compute. reflexivity.
  - reflexivity.
  - reflexivity.
Defined.

(** ** Deletion, afterwards *)

Section DeleteProperties.
Context (settings : Settings).

(** X15. Once [DELETE /tasks/{id}] has succeeded the task is gone for
    every endpoint and for the workers: its status is answered with 404, a
    second deletion with 404, no other task and no queue entry has
    changed, and when a worker later takes a queue entry left for the
    deleted task it discards it without writing anything. *)
Theorem delete_task_afterwards task_id w body w' :
  delete_task task_id w = (Ok body, w') ->
  get_task_status task_id w' = HTTPException 404 "Task not found" ∧
  delete_task task_id w' = (HTTPException 404 "Task not found", w') ∧
  (∀ k, k ≠ task_id -> store w' !! k = store w !! k) ∧
  task_queue w' = task_queue w ∧
  (∀ rest, task_queue w' = task_id :: rest ->
     worker_iteration settings None w' = (with_queue rest w', [])).
Proof.
  unfold delete_task. destruct (store w !! task_id) as [task|] eqn:Hrow; [|done].
  destruct (bool_decide _); [done|]. intros [= _ <-].
  assert (Hgone : store (with_store (delete task_id (store w)) w) !! task_id = None)
    by apply lookup_delete_eq.
  unfold get_task_status. rewrite Hgone. split_and!; [done..| |done|].
  - intros k Hne. cbn. by rewrite lookup_delete_ne.
  - intros rest Hq. unfold worker_iteration. rewrite Hq.
    by rewrite process_task_missing.
Qed.

End DeleteProperties.

Lemma delete_task_afterwards_witness :
  let w' := with_store (delete 4 (store sample_world)) (with_queue [4; 1] sample_world) in
  get_task_status 4 w' = HTTPException 404 "Task not found" ∧
  delete_task 4 w' = (HTTPException 404 "Task not found", w') ∧
  (∀ k, k ≠ 4 -> store w' !! k = store (with_queue [4; 1] sample_world) !! k) ∧
  task_queue w' = task_queue (with_queue [4; 1] sample_world) ∧
  (∀ rest, task_queue w' = 4 :: rest ->
     worker_iteration default_settings None w' = (with_queue rest w', [])).
Proof.
  apply (delete_task_afterwards default_settings 4 (with_queue [4; 1] sample_world)
           "Task 4 deleted successfully"). reflexivity.
Defined.

(** ** The pool object *)

Section PoolProperties.

Lemma cancel_all (l : list AsyncTask) :
  Forall (λ t, cancelled t = true) (cancel <$> l).
Proof. apply Forall_fmap, Forall_true. done. Qed.

(** X16. [stop] after [start] cancels every worker and the fetcher and
    clears [running], but it removes nothing from [workers]: the list has
    grown by [max(0, pool_size)] workers numbered from 0, on top of those
    of an earlier [start], and [GET /stats] goes on reporting all of them
    as active. *)
Theorem stop_keeps_workers_listed p w :
  let p' := stop (start p) in
  running p' = false ∧
  Forall (λ t, cancelled t = true) (workers p') ∧
  (cancelled <$> task_fetcher p') = Some true ∧
  job <$> workers p' = (job <$> workers p) ++ (WorkerJob <$> seqZ 0 (pool_size p)) ∧
  active_workers (get_stats (Some p') w) =
    (length (workers p) + Z.to_nat (pool_size p))%nat ∧
  worker_pool_size (get_stats (Some p') w) = pool_size p.
Proof.
  cbn. split_and!; [done|apply cancel_all|done| | |done].
  - rewrite <-!list_fmap_compose, fmap_app, <-!list_fmap_compose. done.
  - by rewrite length_fmap, length_app, length_fmap, length_seqZ.
Qed.

End PoolProperties.

(** ** Two workers on one failing task *)

Section RaceProperties.
Context (settings : Settings).

Lemma run_schedule_app l1 l2 s :
  run_schedule settings (l1 ++ l2) s =
  run_schedule settings l2 (run_schedule settings l1 s).
Proof. apply foldl_app. Qed.

(** Resuming one worker [n] times in a row is running its coroutine for
    [n] steps. *)
Lemma resume_n_times n i c s :
  coros s !! i = Some c ->
  run_schedule settings (replicate n (Resume i)) s =
    {| world := (run settings None n c (world s)).1.2;
       coros := <[i := (run settings None n c (world s)).1.1]> (coros s) |}.
Proof.
  revert c s. induction n as [|n IH]; intros c s Hi.
  - cbn. rewrite list_insert_id by done. by destruct s.
  - cbn [replicate run_schedule foldl]. rewrite run_S.
    change (foldl _ ?s0 ?l) with (run_schedule settings l s0).
    destruct (finished c) eqn:Hc.
    + assert (Hstep : perform settings (Resume i) s = s).
      { cbn. rewrite Hi. destruct c; try discriminate Hc; cbn;
          rewrite list_insert_id by done; by destruct s. }
      rewrite Hstep, (IH c s Hi), run_finished by done. done.
    + cbn [perform]. rewrite Hi.
      destruct (step settings None c (world s)) as [[c1 w1] ev1] eqn:Hstep.
      erewrite IH;
        last by (cbn; apply list_lookup_insert_eq; eapply lookup_lt_Some; exact Hi).
      cbn. destruct (run settings None n c1 w1) as [[c2 w2] ev2]. cbn.
      by rewrite list_insert_insert_eq.
Qed.

(** A coroutine that has loaded [task] and whose handler raises, run from
    its claim on whatever row the store holds by then: the retry count it
    writes is the one it loaded plus one. *)
Lemma run_claimed_failure n task_id task row error w :
  store w !! task_id = Some row ->
  execute_task task_id task = Raise error ->
  ∃ now,
    (run settings None (5 + n) (AwaitClaimCommit task_id task) w).1 =
      if Task.retry_count task + 1 <? MAX_RETRIES settings then
        (Returned,
         {| store := <[task_id := failed_attempt_row PENDING
                                    (now + 1000 * RETRY_DELAY settings) error task row]>
                       (store w);
            task_queue := task_queue w ++ [task_id];
            clock := now + 1000 * RETRY_DELAY settings |})
      else
        (Returned,
         {| store := <[task_id := failed_attempt_row FAILED now error task row]> (store w);
            task_queue := task_queue w;
            clock := now |}).
Proof.
  intros Hrow Hex. unfold execute_task in Hex.
  change (5 + n)%nat with (S (S (S (S (S n))))).
  rewrite run_S. cbn [finished step on_exception failure_log_raises]. rewrite (commit_Some _ _ _ row) by done.
  destruct (json_loads (Task.payload task)) as [p|] eqn:Hp.
  - rewrite run_S. cbn [finished step on_exception failure_log_raises]. rewrite Hex.
    erewrite run_handle_task_failure; last by (cbn; apply lookup_insert_eq).
    eexists. cbn. destruct (_ <? _); cbn; rewrite insert_insert_eq; reflexivity.
  - simplify_eq.
    erewrite run_handle_task_failure; last by (cbn; apply lookup_insert_eq).
    eexists. cbn. destruct (_ <? _); cbn; rewrite insert_insert_eq; reflexivity.
Qed.

(** X17. Two workers that hold the same identifier and both load the task
    while it is PENDING both go through the failure path when the handler
    raises, yet only one retry is counted: each writes the count it loaded
    plus one. If a retry is left the task ends PENDING with its identifier
    on the queue twice; if not it ends FAILED with nothing enqueued. *)
Theorem racing_failures_count_once task_id task error w :
  store w !! task_id = Some task ->
  Task.status task = PENDING ->
  execute_task task_id task = Raise error ->
  let s := run_schedule settings
             ([Resume 0; Resume 1] ++ replicate 5 (Resume 0) ++ replicate 5 (Resume 1))%nat
             {| world := w; coros := [AwaitLoad task_id; AwaitLoad task_id] |} in
  coros s = [Returned; Returned] ∧
  ∃ row,
    store (world s) !! task_id = Some row ∧
    Task.retry_count row = Task.retry_count task + 1 ∧
    Task.error_message row = Some error ∧
    (Task.retry_count task + 1 < MAX_RETRIES settings ->
       Task.status row = PENDING ∧
       task_queue (world s) = task_queue w ++ [task_id; task_id]) ∧
    (MAX_RETRIES settings ≤ Task.retry_count task + 1 ->
       Task.status row = FAILED ∧ task_queue (world s) = task_queue w).
Proof.
  intros Hrow Hst Hex. cbn zeta. rewrite !run_schedule_app.
  set (inflight := Task.set_updated_at (clock w) (Task.set_status PROCESSING task)).
  assert (Hloaded : run_schedule settings [Resume 0; Resume 1]%nat
            {| world := w; coros := [AwaitLoad task_id; AwaitLoad task_id] |} =
            {| world := w;
               coros := [AwaitClaimCommit task_id inflight;
                         AwaitClaimCommit task_id inflight] |}).
  { cbn [run_schedule foldl perform coros world lookup list_lookup].
    rewrite (step_load_pending settings _ task) by done.
    cbn [list_insert insert coros world lookup list_lookup].
    by rewrite (step_load_pending settings _ task) by done. }
  rewrite Hloaded.
  rewrite (resume_n_times 5 0 (AwaitClaimCommit task_id inflight)) by done.
  destruct (run_claimed_failure 0 task_id inflight task error w Hrow Hex)
    as (now0 & Hrun0).
  change (5 + 0)%nat with 5%nat in Hrun0. cbn [world coros].
  destruct (run settings None 5 (AwaitClaimCommit task_id inflight) w)
    as [[c0 w0] ev0]. cbn [fst snd] in *.
  destruct (Task.retry_count inflight + 1 <? MAX_RETRIES settings) eqn:Hlt;
    injection Hrun0 as -> ->; cbn [list_insert insert].
  - rewrite (resume_n_times 5 1 (AwaitClaimCommit task_id inflight)) by done.
    cbn [world coros].
    match goal with
    | |- context [run settings None 5 (AwaitClaimCommit task_id inflight) ?w1] =>
        destruct (run_claimed_failure 0 task_id inflight _ error w1
                    (lookup_insert_eq _ _ _) Hex) as (now1 & Hrun1)
    end.
    change (5 + 0)%nat with 5%nat in Hrun1. rewrite Hlt in Hrun1.
    destruct (run settings None 5 (AwaitClaimCommit task_id inflight) _)
      as [[c1 w1] ev1]. cbn [fst snd] in *. injection Hrun1 as -> ->.
    cbn [list_insert insert]. split; [done|].
    cbn. rewrite lookup_insert_eq. eexists. split; [done|]. cbn.
    apply Z.ltb_lt in Hlt. cbn in Hlt.
    split_and!; [done|done| |intros; lia].
    intros _. split; [done|]. by rewrite <-(assoc_L (++)).
  - rewrite (resume_n_times 5 1 (AwaitClaimCommit task_id inflight)) by done.
    cbn [world coros].
    match goal with
    | |- context [run settings None 5 (AwaitClaimCommit task_id inflight) ?w1] =>
        destruct (run_claimed_failure 0 task_id inflight _ error w1
                    (lookup_insert_eq _ _ _) Hex) as (now1 & Hrun1)
    end.
    change (5 + 0)%nat with 5%nat in Hrun1. rewrite Hlt in Hrun1.
    destruct (run settings None 5 (AwaitClaimCommit task_id inflight) _)
      as [[c1 w1] ev1]. cbn [fst snd] in *. injection Hrun1 as -> ->.
    cbn [list_insert insert]. split; [done|].
    cbn. rewrite lookup_insert_eq. eexists. split; [done|]. cbn.
    apply Z.ltb_ge in Hlt. cbn in Hlt.
    split_and!; [done|done|intros; lia|done].
Qed.

End RaceProperties.

Lemma racing_failures_count_once_witness :
  let s := run_schedule default_settings
             ([Resume 0; Resume 1] ++ replicate 5 (Resume 0) ++ replicate 5 (Resume 1))%nat
             {| world := fresh_world; coros := [AwaitLoad 2; AwaitLoad 2] |} in
  coros s = [Returned; Returned] ∧
  ∃ row,
    store (world s) !! 2 = Some row ∧
    Task.retry_count row = 0 + 1 ∧
    Task.error_message row = Some list_has_no_get ∧
    (0 + 1 < MAX_RETRIES default_settings ->
       Task.status row = PENDING ∧
       task_queue (world s) = task_queue fresh_world ++ [2; 2]) ∧
    (MAX_RETRIES default_settings ≤ 0 + 1 ->
       Task.status row = FAILED ∧ task_queue (world s) = task_queue fresh_world).
Proof.
  apply (racing_failures_count_once default_settings 2
           (Task.new "email" (Json (JList [])) 0) list_has_no_get fresh_world);
    reflexivity.
Defined.

(** ** The batches of the performance test *)

Section BatchProperties.

Lemma batch_fold concurrency (l : list Z) tasks gathered :
  let m := Z.to_nat (Z.max 1 concurrency) in
  (length tasks < m)%nat ->
  Forall (λ b, length b = m) gathered ->
  let st := foldl (batch_step concurrency) (tasks, gathered) l in
  concat st.2 ++ st.1 = concat gathered ++ tasks ++ l ∧
  (length st.1 < m)%nat ∧
  Forall (λ b, length b = m) st.2.
Proof.
  cbn zeta. revert tasks gathered.
  induction l as [|i l IH]; intros tasks gathered Hlen Hfull.
  - cbn. by rewrite app_nil_r.
  - cbn [foldl].
    destruct (batch_step concurrency (tasks, gathered) i) as [tasks' gathered'] eqn:Hstep.
    unfold batch_step in Hstep. cbn [fst snd] in Hstep.
    rewrite length_app in Hstep. cbn [length] in Hstep.
    destruct (concurrency <=? Z.of_nat (length tasks + 1)) eqn:Hc;
      injection Hstep as <- <-.
    + apply Z.leb_le in Hc.
      destruct (IH [] (gathered ++ [tasks ++ [i]])) as (Hcat & Hlt & Hall).
      * cbn. lia.
      * apply Forall_app. split; [done|]. apply Forall_singleton.
        rewrite length_app. cbn. lia.
      * split_and!; [|done..]. rewrite Hcat, concat_app. cbn.
        by rewrite app_nil_r, <-!(assoc_L (++)).
    + apply Z.leb_gt in Hc.
      destruct (IH (tasks ++ [i]) gathered) as (Hcat & Hlt & Hall).
      * rewrite length_app. cbn. lia.
      * done.
      * split_and!; [|done..]. by rewrite Hcat, <-!(assoc_L (++)).
Qed.

(** X18. [run_concurrent_test] sends every request exactly once and in
    order: its batches, put end to end, are the numbers [0 .. num_tasks-1].
    No batch is empty, every batch but the last holds exactly
    [max(1, concurrency)] requests and the last holds no more; a
    concurrency of zero or less therefore sends the requests one by one. *)
Theorem run_concurrent_test_batches num_tasks concurrency :
  let m := Z.to_nat (Z.max 1 concurrency) in
  let batches := run_concurrent_test num_tasks concurrency in
  concat batches = seqZ 0 num_tasks ∧
  Forall (λ b, (1 ≤ length b ≤ m)%nat) batches ∧
  (∀ (i : nat) b, (S i < length batches)%nat -> batches !! i = Some b -> length b = m).
Proof.
  cbn zeta. unfold run_concurrent_test.
  destruct (batch_fold concurrency (seqZ 0 num_tasks) [] [])
    as (Hcat & Hlt & Hall); [cbn; lia|done|].
  destruct (foldl (batch_step concurrency) ([], []) (seqZ 0 num_tasks))
    as [tasks gathered]. cbn [fst snd] in *.
  destruct tasks as [|t tasks].
  - rewrite app_nil_r in Hcat. split_and!; [done| |].
    + eapply Forall_impl; [done|]. cbn. intros b ->. lia.
    + intros i b _ Hb. by eapply Forall_lookup_1 in Hall.
  - split_and!.
    + rewrite concat_app. cbn. by rewrite app_nil_r.
    + apply Forall_app. split.
      * eapply Forall_impl; [done|]. cbn. intros b ->. lia.
      * apply Forall_singleton. cbn in *. lia.
    + intros i b Hi Hb. rewrite length_app in Hi. cbn in Hi.
      rewrite lookup_app_l in Hb by lia. by eapply Forall_lookup_1 in Hall.
Qed.

End BatchProperties.

(** ** One round of the engine *)

Section RoundProperties.
Context (settings : Settings).

(** The worker loop over the identifiers [ids] at the head of the queue,
    all distinct and all PENDING, with retries of earlier tasks behind
    them. *)
Lemma worker_round ids : ∀ w extra,
  NoDup ids ->
  task_queue w = ids ++ extra ->
  (∀ k, k ∈ ids -> ∃ task, store w !! k = Some task ∧ Task.status task = PENDING) ->
  (∀ k, k ∈ extra ->
     (k ∉ ids) ∧ ∃ row, store w !! k = Some row ∧ Task.status row = PENDING ∧
                      is_Some (Task.error_message row)) ->
  let w' := Nat.iter (length ids) (λ w, (worker_iteration settings None w).1) w in
  (∀ k, k ∈ ids ->
     ∃ wk, store wk !! k = store w !! k ∧
           store w' !! k = store (process_task settings None k wk).1.2 !! k) ∧
  (∀ k, k ∉ ids -> store w' !! k = store w !! k) ∧
  (∀ k, k ∈ task_queue w' ->
     ∃ row, store w' !! k = Some row ∧ Task.status row = PENDING ∧
            is_Some (Task.error_message row)).
Proof.
  induction ids as [|task_id rest IH]; intros w extra Hnd Hq Hids Hextra; cbn zeta.
  - cbn. split_and!; [by intros k ?%elem_of_nil|done|].
    intros k Hk. rewrite Hq in Hk. by destruct (Hextra k Hk) as [_ ?].
  - apply NoDup_cons in Hnd as [Hfresh Hnd].
    cbn [length]. rewrite Nat.iter_succ_r.
    set (wk := with_queue (rest ++ extra) w).
    assert (Hiter : (worker_iteration settings None w).1 =
                    (process_task settings None task_id wk).1.2).
    { unfold worker_iteration. rewrite Hq. cbn [app].
      fold wk. by destruct (process_task settings None task_id wk) as [[c w1] ev]. }
    rewrite Hiter. clear Hiter.
    set (wa := (process_task settings None task_id wk).1.2).
    assert (Hframe : ∀ k, k ≠ task_id -> store wa !! k = store w !! k).
    { intros k Hne. unfold wa. by rewrite process_task_other_rows. }
    assert (Hqa : ∃ extra', task_queue wa = rest ++ extra' ∧
              ∀ k, k ∈ extra' ->
                (k ∉ rest) ∧ ∃ row, store wa !! k = Some row ∧
                  Task.status row = PENDING ∧ is_Some (Task.error_message row)).
    { destruct (process_task_queue_cases settings None task_id wk)
        as [Hsame | (Happ & row' & Hrow' & Hst' & Herr')]; fold wa in Hsame || fold wa in Happ, Hrow'.
      - exists extra. split; [done|]. intros k Hk.
        destruct (Hextra k Hk) as (Hout & row & Hrow & Hst & Herr).
        apply not_elem_of_cons in Hout as [Hne Hout]. split; [done|].
        exists row. by rewrite Hframe.
      - exists (extra ++ [task_id]). split; [by rewrite Happ; cbn; rewrite (assoc_L (++))|].
        intros k [Hk | ->%list_elem_of_singleton]%elem_of_app.
        + destruct (Hextra k Hk) as (Hout & row & Hrow & Hst & Herr).
          apply not_elem_of_cons in Hout as [Hne Hout]. split; [done|].
          exists row. by rewrite Hframe.
        + split; [done|]. by exists row'. }
    destruct Hqa as (extra' & Hqa & Hextra').
    destruct (IH wa extra' Hnd Hqa) as (Hdone & Hrest & Hqueue); [|done|].
    { intros k Hk. rewrite Hframe by (by intros ->).
      apply Hids. by apply list_elem_of_further. }
    split_and!; [| |done].
    + intros k [-> | Hk]%elem_of_cons.
      * exists wk. split; [done|]. by rewrite Hrest.
      * destruct (Hdone k Hk) as (wk' & Hwk' & Hfin). exists wk'.
        split; [|done]. rewrite Hwk'. apply Hframe. by intros ->.
    + intros k [Hne Hout]%not_elem_of_cons. by rewrite Hrest, Hframe.
Qed.

(** X19. One round of the engine. From an empty queue and no more PENDING
    tasks than a pass fetches, a pass of the fetcher followed by one worker
    iteration per queue entry attempts every PENDING task exactly once: the
    row of each ends as one call of [process_task] on that row leaves it,
    every other row is untouched, and what is left on the queue are
    retries, of tasks that are PENDING again with an error recorded. *)
Theorem one_round w :
  task_queue w = [] ->
  Z.of_nat (count_status PENDING (store w)) ≤ 2 * WORKER_POOL_SIZE settings ->
  let w1 := (fetch_pass settings w).1 in
  let w2 := Nat.iter (length (task_queue w1))
              (λ w, (worker_iteration settings None w).1) w1 in
  (∀ k task, store w !! k = Some task -> Task.status task = PENDING ->
     ∃ wk, store wk !! k = Some task ∧
           store w2 !! k = store (process_task settings None k wk).1.2 !! k) ∧
  (∀ k task, store w !! k = Some task -> Task.status task ≠ PENDING ->
     store w2 !! k = Some task) ∧
  (∀ k, k ∈ task_queue w2 ->
     ∃ row, store w2 !! k = Some row ∧ Task.status row = PENDING ∧
            is_Some (Task.error_message row)).
Proof.
  intros Hempty Hroom. cbn zeta.
  assert (Hpass : ∃ ids,
    store (fetch_pass settings w).1 = store w ∧
    task_queue (fetch_pass settings w).1 = ids ++ [] ∧ NoDup ids ∧
    ∀ k, k ∈ ids ↔ ∃ task, store w !! k = Some task ∧ Task.status task = PENDING).
  { unfold fetch_pass.
    destruct (WORKER_POOL_SIZE settings * 2 <? 0) eqn:Hneg; [lia|].
    exists (select_pending (WORKER_POOL_SIZE settings * 2) (store w)).*1.
    cbn. rewrite Hempty, app_nil_r. split_and!; [done..|apply select_pending_NoDup|].
    intros k. split.
    - intros ([k' task] & -> & Hin)%list_elem_of_fmap.
      exists task. by apply select_pending_spec in Hin.
    - intros (task & Hrow & Hst). apply list_elem_of_fmap. exists (k, task).
      split; [done|]. unfold select_pending. rewrite take_ge.
      + apply list_elem_of_filter. split; [done|]. by apply elem_of_map_to_list.
      + unfold count_status in Hroom. lia. }
  destruct Hpass as (ids & Hstore & Hq & Hnd & Hids).
  rewrite Hq, app_nil_r.
  destruct (worker_round ids (fetch_pass settings w).1 [] Hnd Hq)
    as (Hdone & Hrest & Hqueue).
  { intros k Hk. rewrite Hstore. by apply Hids. }
  { by intros k ?%elem_of_nil. }
  split_and!; [| |done].
  - intros k task Hrow Hst.
    destruct (Hdone k) as (wk & Hwk & Hfin); [apply Hids; by exists task|].
    exists wk. split; [|done]. by rewrite Hwk, Hstore.
  - intros k task Hrow Hst. rewrite Hrest, Hstore; [done|].
    intros (task' & Hrow' & Hst')%Hids. by simplify_eq.
Qed.

End RoundProperties.

Lemma one_round_witness :
  let w1 := (fetch_pass default_settings fresh_world).1 in
  let w2 := Nat.iter (length (task_queue w1))
              (λ w, (worker_iteration default_settings None w).1) w1 in
  (∀ k task, store fresh_world !! k = Some task -> Task.status task = PENDING ->
     ∃ wk, store wk !! k = Some task ∧
           store w2 !! k = store (process_task default_settings None k wk).1.2 !! k) ∧
  (∀ k task, store fresh_world !! k = Some task -> Task.status task ≠ PENDING ->
     store w2 !! k = Some task) ∧
  (∀ k, k ∈ task_queue w2 ->
     ∃ row, store w2 !! k = Some row ∧ Task.status row = PENDING ∧
            is_Some (Task.error_message row)).
Proof.
  apply (one_round default_settings fresh_world); [reflexivity|].
  vm_compute. discriminate.
Defined.
